(** * VLESS relay worker: header parser and session handlers

    A shallow embedding of the three revisions of [worker.js] (the
    event-listener worker, the SNI-routing worker and the stream-piping
    worker) together with the properties of the header parser and of the
    session handlers that the design document states.

    - [Js]       the fragment of JavaScript the workers rely on: typed-array
                 indexing and slicing, number-to-string conversion, string
                 helpers.
    - [Rt]       the runtime interface: the calls a handler makes on its
                 collaborators (frame buffer, KV namespace, sockets, client
                 WebSocket) and the monad recording them.
    - [V1], [V2], [V3]   the three revisions, function by function.
    - [Wire]     the wire format and the text forms as the design document
                 states them.
    - [Api]      the account handlers of revision 1 over the KV namespace.
    - [Client]   the id generator of the front end.
    - [Expect], [Samples]   expected results and concrete frames.

    The listeners of revision 1 are modelled as the event loop runs
    them: an [async] listener is suspended at each [await] and resumed
    later, and other events are delivered meanwhile ([V1.run]). Frames
    are binary; the platform calls are taken at the meaning the workers
    rely on. *)

From Stdlib Require Import NArith List String Ascii Strings.Byte Lia.
From stdpp Require Import base option list strings gmap.

Local Open Scope string_scope.
Local Open Scope N_scope.

(* ===================================================================== *)
(** * The JavaScript fragment                                             *)
(* ===================================================================== *)

Module Js.

(** ** Numbers

    The parsers only ever compute with non-negative integers, and with
    [NaN] once [undefined] has entered an addition ([offset += x] where
    [x] was read past the end of a typed array). *)
Inductive number : Type :=
| Int (n : N)
| NaN.

(** A typed-array read yields a number or [undefined]. *)
Definition value : Type := option N.

Definition ToNumber (v : value) : number :=
  match v with Some n => Int n | None => NaN end.

Definition add (a b : number) : number :=
  match a, b with
  | Int x, Int y => Int (x + y)
  | _, _ => NaN
  end.

(** [ToIntegerOrInfinity]: [NaN] becomes [0]. *)
Definition ToIntegerOrInfinity (x : number) : N :=
  match x with Int n => n | NaN => 0 end.

(** [ToInt32 (undefined) = 0]; a byte is its own 32-bit value. *)
Definition ToInt32 (v : value) : N := default 0 v.

(** [(hi << 8) | lo] on two typed-array reads. Both operands are below
    [2^8], so the 32-bit wrap-around of [<<] never applies. *)
Definition shl8_or (hi lo : value) : N :=
  N.lor (N.shiftl (ToInt32 hi) 8) (ToInt32 lo).

(** ** Typed arrays ([Uint8Array]) *)

Definition byteLength (buf : list byte) : N := N.of_nat (length buf).

(** [buf[i]]: the element, or [undefined] out of range (and for the
    property key ["NaN"]). *)
Definition get (buf : list byte) (i : number) : value :=
  match i with
  | Int n => Byte.to_N <$> (buf !! N.to_nat n)
  | NaN => None
  end.

(** [buf.slice(start, end)]: both bounds go through
    [ToIntegerOrInfinity] and are clamped to the length; an empty range
    yields an empty array. *)
Definition slice (buf : list byte) (start end_ : number) : list byte :=
  let len := length buf in
  let s := Nat.min (N.to_nat (ToIntegerOrInfinity start)) len in
  let e := Nat.min (N.to_nat (ToIntegerOrInfinity end_)) len in
  take (e - s)%nat (drop s buf).

(** ** [Number.prototype.toString(radix)] on non-negative integers *)

Definition digit_char (d : N) : ascii :=
  if d <? 10 then ascii_of_N (48 + d) else ascii_of_N (87 + d).

Fixpoint to_radix (radix : N) (fuel : nat) (n : N) : string :=
  match fuel with
  | O => EmptyString
  | S fuel' =>
      if n <? radix then String (digit_char n) EmptyString
      else to_radix radix fuel' (n / radix)
           +:+ String (digit_char (n mod radix)) EmptyString
  end.

(** One more step than the binary logarithm is enough for any radix
    from 2 on (see [to_radix_hex_value]). *)
Definition Number_toString (radix : N) (n : N) : string :=
  to_radix radix (S (N.to_nat (N.log2 n))) n.

(** Template-literal interpolation [`${v}`] of a typed-array read. *)
Definition template (v : value) : string :=
  match v with
  | Some n => Number_toString 10 n
  | None => "undefined"
  end.

(** [v === n] for a typed-array read [v]. *)
Definition strict_eq (v : value) (n : N) : bool :=
  match v with Some m => m =? n | None => false end.

(** ** Strings *)

(** [s.padStart(2, '0')]. *)
Definition padStart2 (s : string) : string :=
  match String.length s with
  | O => "00"
  | S O => "0" +:+ s
  | _ => s
  end.

(** [s.substring(a, b)] for [a <= b]. *)
Definition substring (a b : nat) (s : string) : string :=
  String.substring a (b - a) s.

(** [s.slice(a)] for [a >= 0]. *)
Definition string_slice_from (a : nat) (s : string) : string :=
  String.substring a (String.length s - a) s.

(** [parts.join(sep)]. *)
Fixpoint join (sep : string) (parts : list string) : string :=
  match parts with
  | [] => ""
  | [p] => p
  | p :: rest => p +:+ sep +:+ join sep rest
  end.

End Js.

(* ===================================================================== *)
(** * The runtime interface                                               *)
(* ===================================================================== *)

Module Rt.

(** What a handler can throw: an [Error] built by the worker itself, or
    an error raised by the platform. *)
Inductive platform_error : Type :=
| RangeError        (* DataView / typed-array view outside the buffer *)
| TypeError         (* property access on [undefined] *)
| ConnectFailed     (* [connect] could not open the socket *)
| ReadError         (* a read from the remote socket was rejected *)
| WriteFailed.      (* a write to the remote socket was rejected *)

Inductive exn : Type :=
| Error (message : string)
| Platform (e : platform_error).

(** The [reason] argument of [WebSocket.close]. *)
Inductive close_reason : Type :=
| NoReason
| Reason (text : string)
| MessageOf (e : exn)           (* [err.message] *)
| Prefixed (prefix : string) (e : exn).   (* [`${prefix}${err.message}`] *)

(** The calls a handler makes on its collaborators, in program order. *)
Inductive event : Type :=
| BufRead (i : Js.number)                      (* [buffer[i]], [getUint8(i)] *)
| BufSlice (start end_ : Js.number)            (* [buffer.slice(start, end)] *)
| BufView (offset length : N)                  (* [new Uint8Array(buffer, offset, length)] *)
| KVGet (key : string)                         (* [env.<namespace>.get(key)] *)
| Connect (hostname : string) (port : N)       (* [connect({hostname, port})] *)
| PipeRemoteToClient                           (* download direction started *)
| PipeClientToRemote                           (* upload direction started *)
| RemoteWrite (data : list byte)               (* [writer.write(data)] *)
| RemoteClose                                  (* [remoteSocket.close()] *)
| WsSend (data : list byte)                    (* [webSocket.send(data)] *)
| WsClose (code : option N) (reason : close_reason).

(** The world a session runs in: the contents of the KV namespace bound
    in [env] ([None] when the binding is not configured), which targets
    [connect] can open, and whether writes to the remote succeed. *)
Record World : Type := {
  kv : option (gmap string string);
  connect_ok : string -> N -> bool;
  write_ok : list byte -> bool;
}.

(** Truthiness of what [get] returns: [null] and the empty string are
    falsy. *)
Definition truthy (account : option string) : bool :=
  match account with
  | Some EmptyString => false
  | Some _ => true
  | None => false
  end.

(** Computations over the mutable variables [S] of a handler: they
    record the events performed, update the variables, and either throw
    or return a value. Assignments made before a [throw] stay. *)
Definition M (S A : Type) : Type := S -> list event * S * (exn + A).

Definition events_of {S A} (m : M S A) (s : S) : list event := fst (fst (m s)).
Definition state_of {S A} (m : M S A) (s : S) : S := snd (fst (m s)).
Definition result_of {S A} (m : M S A) (s : S) : exn + A := snd (m s).

#[global] Instance M_ret {S} : MRet (M S) := fun A a s => ([], s, inr a).

#[global] Instance M_bind {S} : MBind (M S) := fun A B f m s =>
  match m s with
  | (t, s', inl e) => (t, s', inl e)
  | (t, s', inr a) =>
      let '(t', s'', r) := f a s' in ((t ++ t')%list, s'', r)
  end.

Definition throw {S A} (e : exn) : M S A := fun s => ([], s, inl e).
Definition emit {S} (ev : event) : M S unit := fun s => ([ev], s, inr tt).
Definition get_state {S} : M S S := fun s => ([], s, inr s).
Definition modify {S} (f : S -> S) : M S unit := fun s => ([], f s, inr tt).

(** The events of a computation already under way, performed in order. *)
Definition emit_all {S} (t : list event) : M S unit := fun s => (t, s, inr tt).

(** A call to a function that has no access to the handler's variables:
    it runs on its own and leaves them as they are. *)
Definition call {S A} (m : M unit A) : M S A :=
  fun s => let '(t, _, r) := m tt in (t, s, r).

(** [try { body } catch (e) { handler e }]. *)
Definition try_catch {S A} (body : M S A) (handler : exn -> M S A) : M S A :=
  fun s =>
    match body s with
    | (t, s', inl e) =>
        let '(t', s'', r) := handler e s' in ((t ++ t')%list, s'', r)
    | (t, s', inr a) => (t, s', inr a)
    end.

(** ** Recorded primitives *)

Definition read {S} (buf : list byte) (i : Js.number) : M S Js.value :=
  emit (BufRead i);; mret (Js.get buf i).

Definition slice {S} (buf : list byte) (start end_ : Js.number)
  : M S (list byte) :=
  emit (BufSlice start end_);; mret (Js.slice buf start end_).

Definition slice_from {S} (buf : list byte) (start : Js.number)
  : M S (list byte) :=
  slice buf start (Js.Int (Js.byteLength buf)).

(** [env.<namespace>.get(key)]; a [TypeError] when the namespace is not
    bound in [env]. *)
Definition kv_get {S} (w : World) (key : string) : M S (option string) :=
  match kv w with
  | Some store => emit (KVGet key);; mret (store !! key)
  | None => throw (Platform TypeError)
  end.

Definition connect {S} (w : World) (hostname : string) (port : N) : M S unit :=
  emit (Connect hostname port);;
  if connect_ok w hostname port then mret tt
  else throw (Platform ConnectFailed).

Definition remote_write {S} (w : World) (data : list byte) : M S unit :=
  emit (RemoteWrite data);;
  if write_ok w data then mret tt else throw (Platform WriteFailed).

(** The platform's [TextDecoder] (UTF-8, best effort); the workers only
    ever call [new TextDecoder().decode(bytes)]. *)
Class TextDecoder : Type := decode : list byte -> string.

(** Whether an access stays inside a buffer of the given length. A
    [slice] clamps its bounds and so never leaves the buffer. *)
Definition in_bounds (len : nat) (ev : event) : bool :=
  match ev with
  | BufRead (Js.Int i) => (N.to_nat i <? len)%nat
  | BufRead Js.NaN => false
  | BufView offset n => (N.to_nat (offset + n) <=? len)%nat
  | _ => true
  end.

Definition is_kv_get (ev : event) : bool :=
  match ev with KVGet _ => true | _ => false end.

Definition not_kv_get (ev : event) : bool :=
  match ev with KVGet _ => false | _ => true end.

Definition is_connect (ev : event) : bool :=
  match ev with Connect _ _ => true | _ => false end.

Definition not_connect (ev : event) : bool :=
  match ev with Connect _ _ => false | _ => true end.

Definition is_ws_close (ev : event) : bool :=
  match ev with WsClose _ _ => true | _ => false end.



(** The calls that touch the upstream side. *)
Definition is_upstream (ev : event) : bool :=
  match ev with
  | Connect _ _ | RemoteWrite _ | RemoteClose
  | PipeRemoteToClient | PipeClientToRemote => true
  | _ => false
  end.

Definition not_upstream (ev : event) : bool := negb (is_upstream ev).

(** A property of every event a computation records, whatever the
    variables it starts from. *)
Definition all_events {S A} (P : event -> bool) (m : M S A) : Prop :=
  forall s, Forall (fun ev => P ev = true) (events_of m s).

(** A property of every value a computation can return. *)
Definition all_results {S A} (Q : A -> Prop) (m : M S A) : Prop :=
  forall s a, result_of m s = inr a -> Q a.

(** The chunks handed to [writer.write] on the remote socket, in order. *)
Definition remote_writes (t : list event) : list (list byte) :=
  omap (fun ev => match ev with RemoteWrite data => Some data | _ => None end) t.

Definition not_ws_close (ev : event) : bool := negb (is_ws_close ev).

(** Whether a [connect] has succeeded by the end of a trace, given
    whether one had before it. *)
Fixpoint opened_after (w : World) (opened : bool) (t : list event) : bool :=
  match t with
  | [] => opened
  | Connect hostname port :: rest =>
      opened_after w (opened || connect_ok w hostname port) rest
  | _ :: rest => opened_after w opened rest
  end.

(** Whether a trace writes to, closes or pipes the remote socket only
    once a [connect] has succeeded. *)
Fixpoint upstream_after_connect (w : World) (opened : bool) (t : list event)
  : bool :=
  match t with
  | [] => true
  | Connect hostname port :: rest =>
      upstream_after_connect w (opened || connect_ok w hostname port) rest
  | (RemoteWrite _ | RemoteClose | PipeRemoteToClient | PipeClientToRemote)
    :: rest =>
      opened && upstream_after_connect w opened rest
  | _ :: rest => upstream_after_connect w opened rest
  end.

End Rt.

(* ===================================================================== *)
(** * Revision 1: the event-listener worker (part_000, lines 1-949)       *)
(* ===================================================================== *)

Module V1.
Import Rt.

Record Header : Type := {
  version : Js.value;
  uuid : string;
  command : Js.value;
  port : N;
  addressType : Js.value;
  address : string;
}.

(** [{ isValid: false, error }] or [{ isValid: true, header,
    remainingData }]. *)
Inductive ParseResult : Type :=
| Invalid (error : string)
| Valid (header : Header) (remainingData : list byte).

Definition hex2 (b : byte) : string :=
  Js.padStart2 (Js.Number_toString 16 (Byte.to_N b)).

Definition bytesToUUID (bytes : list byte) : string :=
  let hex := Js.join "" (hex2 <$> bytes) in
  Js.join "-" [ Js.substring 0 8 hex;
                Js.substring 8 12 hex;
                Js.substring 12 16 hex;
                Js.substring 16 20 hex;
                Js.substring 20 32 hex ].

(** The values of [i] in [for (let i = 0; i < 16; i += 2)]. *)
Definition even_indices : list N := (fun k => 2 * N.of_nat k) <$> seq 0 8.

Definition bytesToIPv6 (bytes : list byte) : string :=
  let parts :=
    (fun i => Js.Number_toString 16
                (Js.shl8_or (Js.get bytes (Js.Int i))
                            (Js.get bytes (Js.Int (i + 1)))))
    <$> even_indices in
  Js.join ":" parts.

Definition parseVLESSHeader {decoder : TextDecoder}
    (vlessBuffer : list byte) (env : World) : M unit ParseResult :=
  if Js.byteLength vlessBuffer <? 24 then mret (Invalid "Buffer too short")
  else
    let offset := Js.Int 0 in
    (* 1. Version *)
    version ← read vlessBuffer offset;
    let offset := Js.add offset (Js.Int 1) in
    if negb (Js.strict_eq version 0) then mret (Invalid "Invalid VLESS version")
    else
      (* 2. UUID *)
      uuidBytes ← slice vlessBuffer offset (Js.add offset (Js.Int 16));
      let uuid := bytesToUUID uuidBytes in
      let offset := Js.add offset (Js.Int 16) in
      account ← kv_get env uuid;
      if negb (truthy account) then mret (Invalid "Invalid UUID")
      else
        (* 3. Additional information *)
        additionLength ← read vlessBuffer offset;
        let offset := Js.add offset (Js.Int 1) in
        let offset := Js.add offset (Js.ToNumber additionLength) in
        (* 4. Command *)
        command ← read vlessBuffer offset;
        let offset := Js.add offset (Js.Int 1) in
        if negb (Js.strict_eq command 1) then mret (Invalid "Only TCP is supported")
        else
          (* 5. Port *)
          hi ← read vlessBuffer offset;
          lo ← read vlessBuffer (Js.add offset (Js.Int 1));
          let port := Js.shl8_or hi lo in
          let offset := Js.add offset (Js.Int 2) in
          (* 6. Address type *)
          addressType ← read vlessBuffer offset;
          let offset := Js.add offset (Js.Int 1) in
          let finish (address : string) (offset : Js.number) : M unit ParseResult :=
            remainingData ← slice_from vlessBuffer offset;
            mret (Valid {| version := version; uuid := uuid;
                           command := command; port := port;
                           addressType := addressType;
                           address := address |} remainingData) in
          (* 7. Address *)
          if Js.strict_eq addressType 1 then
            a0 ← read vlessBuffer offset;
            a1 ← read vlessBuffer (Js.add offset (Js.Int 1));
            a2 ← read vlessBuffer (Js.add offset (Js.Int 2));
            a3 ← read vlessBuffer (Js.add offset (Js.Int 3));
            let address :=
              Js.template a0 +:+ "." +:+ Js.template a1 +:+ "."
              +:+ Js.template a2 +:+ "." +:+ Js.template a3 in
            finish address (Js.add offset (Js.Int 4))
          else if Js.strict_eq addressType 2 then
            domainLength ← read vlessBuffer offset;
            let offset := Js.add offset (Js.Int 1) in
            domainBytes ← slice vlessBuffer offset
                                (Js.add offset (Js.ToNumber domainLength));
            let address := decode domainBytes in
            finish address (Js.add offset (Js.ToNumber domainLength))
          else if Js.strict_eq addressType 3 then
            ipv6Bytes ← slice vlessBuffer offset (Js.add offset (Js.Int 16));
            let address := bytesToIPv6 ipv6Bytes in
            finish address (Js.add offset (Js.Int 16))
          else mret (Invalid "Invalid address type").

(** ** The session: the listeners of [handleVLESSConnection]

    The closure variables the listeners share. [remoteSocket] is [null]
    until [connect] has returned. *)
Record Session : Type := {
  remoteSocket : bool;
  isHeaderParsed : bool;
}.

Definition initial : Session :=
  {| remoteSocket := false; isHeaderParsed := false |}.

(** The ['message'] listener, for a binary frame [data]: the whole run,
    when no other event is delivered before it ends. *)
Definition on_message {decoder : TextDecoder} (env : World) (data : list byte)
  : M Session unit :=
  try_catch
    (st ← get_state;
     if negb (isHeaderParsed st) then
       result ← call (parseVLESSHeader data env);
       match result with
       | Invalid _ =>
           emit (WsClose (Some 1008) (Reason "Invalid VLESS header"))
       | Valid header remainingData =>
           modify (fun st => {| remoteSocket := remoteSocket st;
                                isHeaderParsed := true |});;
           try_catch
             (connect env (address header) (port header);;
              modify (fun st => {| remoteSocket := true;
                                   isHeaderParsed := isHeaderParsed st |});;
              emit PipeRemoteToClient;;
              if 0 <? Js.byteLength remainingData
              then remote_write env remainingData
              else mret tt)
             (fun error =>
                emit (WsClose (Some 1011)
                              (Reason "Failed to connect to remote server")))
       end
     else if remoteSocket st then remote_write env data
     else mret tt)
    (fun error => emit (WsClose (Some 1011) (MessageOf error))).

(** The ['close'] listener. *)
Definition on_close : M Session unit :=
  st ← get_state;
  if remoteSocket st then emit RemoteClose else mret tt.

(** The ['error'] listener only logs. *)
Definition on_error : M Session unit := mret tt.

(** What the client transport can deliver to the listeners. *)
Inductive ClientEvent : Type :=
| Message (data : list byte)
| Close
| Error.

(** ** The listeners as the event loop runs them

    The ['message'] listener is [async]. A run of it is suspended at
    [await env.VLESS_ACCOUNTS.get(uuid)] inside [parseVLESSHeader] (line
    356) and at the two [await writer.write(...)] (lines 290 and 304),
    and the client transport delivers further events meanwhile:
    [isHeaderParsed] is set only once the lookup has settled, so a frame
    delivered before that is parsed as a header too. [getWriter()]
    throws a [TypeError] while the writable is locked, and the listener
    releases the lock only after a write that was not rejected.
    [on_message] above is the run that nothing interrupts. *)

(** Where a run of the listener is suspended. A write belongs to the
    socket that [remoteSocket] held when it was issued. *)
Inductive Pending : Type :=
| Lookup (data : list byte)
| InitialWrite (socket : nat) (remainingData : list byte)
| FrameWrite (socket : nat) (data : list byte).

(** The closure variables, the socket [remoteSocket] holds (the number
    of [connect] calls that have returned), whether the writable of that
    socket is locked, and the suspended runs. *)
Record Connection : Type := {
  vars : Session;
  socket : nat;
  locked : bool;
  pending : list Pending;
}.

Definition accepted : Connection :=
  {| vars := initial; socket := 0%nat; locked := false; pending := [] |}.

(** A listener that only touches the closure variables. *)
Definition on_vars {A} (m : M Session A) : M Connection A :=
  fun c =>
    let '(t, st, r) := m (vars c) in
    (t, {| vars := st; socket := socket c; locked := locked c;
           pending := pending c |}, r).

Definition suspend (p : Pending) : M Connection unit :=
  modify (fun c => {| vars := vars c; socket := socket c; locked := locked c;
                      pending := pending c ++ [p] |}).

(** [remoteSocket.writable.getWriter()]. *)
Definition getWriter : M Connection unit :=
  c ← get_state;
  if locked c then throw (Platform TypeError)
  else modify (fun c => {| vars := vars c; socket := socket c; locked := true;
                           pending := pending c |}).

(** [writer.releaseLock()], for the writer of socket [s]. *)
Definition releaseLock (s : nat) : M Connection unit :=
  modify (fun c => {| vars := vars c; socket := socket c;
                      locked := if Nat.eqb s (socket c) then false else locked c;
                      pending := pending c |}).

(** The events of a parser run up to and including its lookup, and the
    events after it; [None] for a run that returns before the lookup. *)
Fixpoint at_lookup (t : list event) : option (list event * list event) :=
  match t with
  | [] => None
  | KVGet key :: rest => Some ([KVGet key], rest)
  | ev :: rest =>
      match at_lookup rest with
      | Some (before, after) => Some (ev :: before, after)
      | None => None
      end
  end.

(** The listener from the point where [await parseVLESSHeader(...)] has
    settled (lines 258-298), up to its next suspension. *)
Definition after_header (env : World) (result : exn + ParseResult)
  : M Connection unit :=
  try_catch
    (match result with
     | inl e => throw e
     | inr (Invalid _) =>
         emit (WsClose (Some 1008) (Reason "Invalid VLESS header"))
     | inr (Valid header remainingData) =>
         on_vars (modify (fun st => {| remoteSocket := remoteSocket st;
                                       isHeaderParsed := true |}));;
         try_catch
           (connect env (address header) (port header);;
            modify (fun c =>
                      {| vars := {| remoteSocket := true;
                                    isHeaderParsed := isHeaderParsed (vars c) |};
                         socket := S (socket c); locked := false;
                         pending := pending c |});;
            emit PipeRemoteToClient;;
            if 0 <? Js.byteLength remainingData then
              getWriter;;
              emit (RemoteWrite remainingData);;
              c ← get_state;
              suspend (InitialWrite (socket c) remainingData)
            else mret tt)
           (fun error =>
              emit (WsClose (Some 1011)
                            (Reason "Failed to connect to remote server")))
     end)
    (fun error => emit (WsClose (Some 1011) (MessageOf error))).

(** A client event is delivered: its listener runs up to its first
    suspension. *)
Definition deliver {decoder : TextDecoder} (env : World) (ev : ClientEvent)
  : M Connection unit :=
  match ev with
  | Message data =>
      c ← get_state;
      if negb (isHeaderParsed (vars c)) then
        let '(t, _, result) := parseVLESSHeader data env tt in
        match at_lookup t with
        | Some (before, _) => emit_all before;; suspend (Lookup data)
        | None => emit_all t;; after_header env result
        end
      else if remoteSocket (vars c) then
        try_catch
          (getWriter;;
           emit (RemoteWrite data);;
           suspend (FrameWrite (socket c) data))
          (fun error => emit (WsClose (Some 1011) (MessageOf error)))
      else mret tt
  | Close => on_vars on_close
  | Error => on_vars on_error
  end.

(** What a suspended run was waiting for settles: the run goes on, up to
    its next suspension or its end. A rejected write throws at its
    [await], before [releaseLock]. *)
Definition settle {decoder : TextDecoder} (env : World) (p : Pending)
  : M Connection unit :=
  match p with
  | Lookup data =>
      let '(t, _, result) := parseVLESSHeader data env tt in
      match at_lookup t with
      | Some (_, after) => emit_all after;; after_header env result
      | None => mret tt
      end
  | InitialWrite s remainingData =>
      if write_ok env remainingData then releaseLock s
      else emit (WsClose (Some 1011)
                         (Reason "Failed to connect to remote server"))
  | FrameWrite s data =>
      if write_ok env data then releaseLock s
      else emit (WsClose (Some 1011) (MessageOf (Platform WriteFailed)))
  end.

(** What the event loop does next: it delivers a client event, or the
    [i]-th suspended run is resumed. *)
Inductive Step : Type :=
| Deliver (ev : ClientEvent)
| Settle (i : nat).

Definition step {decoder : TextDecoder} (env : World) (s : Step)
  : M Connection unit :=
  match s with
  | Deliver ev => deliver env ev
  | Settle i =>
      c ← get_state;
      match pending c !! i with
      | Some p =>
          modify (fun c => {| vars := vars c; socket := socket c;
                              locked := locked c;
                              pending := delete i (pending c) |});;
          settle env p
      | None => mret tt
      end
  end.

Fixpoint run {decoder : TextDecoder} (env : World) (steps : list Step)
  : M Connection unit :=
  match steps with
  | [] => mret tt
  | s :: rest => step env s;; run env rest
  end.

(** The schedule in which every client event finds the runs before it
    finished: a run is suspended at most twice, at the lookup and at the
    write of the initial payload or of the frame. *)
Definition in_turn (evs : list ClientEvent) : list Step :=
  flat_map (fun ev => [Deliver ev; Settle 0%nat; Settle 0%nat]) evs.

(** [handleVLESSConnection] registers the three listeners. This is the
    session in which every client event waits its turn, seen on the
    closure variables; [run] is the session under any schedule. *)
Definition handleVLESSConnection {decoder : TextDecoder} (env : World)
    (evs : list ClientEvent) : M Session unit :=
  fun st =>
    let '(t, c, r) :=
      run env (in_turn evs)
          {| vars := st; socket := 0%nat; locked := false; pending := [] |} in
    (t, vars c, r).

(** ** The download direction: [pipeRemoteToWebSocket]

    Each settled [reader.read()] comes with the [readyState] the loop
    observes right after it. When the list runs out the loop is still
    suspended on the next read. *)
Inductive ReadResult : Type :=
| Chunk (value : list byte)
| Done
| ReadFailed.

Inductive LoopExit : Type :=
| Left_loop
| Suspended.

Fixpoint pipe_loop {S} (reads : list (ReadResult * bool)) : M S LoopExit :=
  match reads with
  | [] => mret Suspended
  | (ReadFailed, _) :: _ => throw (Platform ReadError)
  | (Done, _) :: _ => mret Left_loop
  | (Chunk value, ws_open) :: rest =>
      if ws_open then emit (WsSend value);; pipe_loop rest
      else mret Left_loop
  end.

(** The read results that make the loop leave: end of stream, a failed
    read, or a chunk that finds the client transport no longer open. *)
Definition leaves_loop (r : ReadResult * bool) : bool :=
  match r with
  | (Chunk _, true) => false
  | _ => true
  end.

(** The chunks read before the loop leaves. *)
Fixpoint delivered (reads : list (ReadResult * bool)) : list (list byte) :=
  match reads with
  | (Chunk value, true) :: rest => value :: delivered rest
  | _ => []
  end.

Definition pipeRemoteToWebSocket {S} (reads : list (ReadResult * bool))
  : M S unit :=
  exit ← try_catch (pipe_loop reads) (fun error => mret Left_loop);
  match exit with
  | Left_loop => emit (WsClose None NoReason)     (* finally *)
  | Suspended => mret tt
  end.

(** How many [connect] calls a session can still make: the one that
    follows the first accepted header. *)
Definition connects_left (st : Session) : nat :=
  if isHeaderParsed st then 0%nat else 1%nat.

End V1.

(* ===================================================================== *)
(** * Revision 2: the SNI-routing worker (part_000, lines 950-1691)       *)
(* ===================================================================== *)

Module V2.
Import Rt.

(** [{ valid: false, error }] or [{ valid: true, uuid, address, port,
    payload }]. *)
Inductive ParseResult : Type :=
| Invalid (error : close_reason)
| Valid (uuid address : string) (port : N) (payload : list byte).

Definition bytesToUUID (bytes : list byte) : string := V1.bytesToUUID bytes.

(** What [isValid] can hold: the literal [true], or the promise an
    [async] function returns. *)
Inductive Validity : Type :=
| True_
| Promise (settles_to : bool).

(** Every object, a promise included, is truthy. *)
Definition ToBoolean (v : Validity) : bool :=
  match v with
  | True_ => true
  | Promise _ => true
  end.

(** [validateUUID] is [async]: the lookup is issued at once, the answer
    only exists once the returned promise settles. *)
Definition validateUUID (uuid : string) (env : World) : M unit Validity :=
  try_catch
    (account ← kv_get env uuid;
     mret (Promise (bool_decide (account ≠ None))))
    (fun error => mret (Promise false)).

Definition parseVLESSHeader {decoder : TextDecoder}
    (buffer : list byte) (env : World) : M unit ParseResult :=
  try_catch
    (if Js.byteLength buffer <? 24 then mret (Invalid (Reason "Buffer too short"))
     else
       let offset := Js.Int 0 in
       version ← read buffer offset;
       let offset := Js.add offset (Js.Int 1) in
       if negb (Js.strict_eq version 0)
       then mret (Invalid (Reason ("Invalid version: " +:+ Js.template version)))
       else
         uuidBytes ← slice buffer offset (Js.add offset (Js.Int 16));
         let uuid := bytesToUUID uuidBytes in
         let offset := Js.add offset (Js.Int 16) in
         isValid ← (if bool_decide (kv env ≠ None) then validateUUID uuid env
                    else mret True_);
         if negb (ToBoolean isValid) then mret (Invalid (Reason "Unauthorized UUID"))
         else
           addLen ← read buffer offset;
           let offset := Js.add offset (Js.Int 1) in
           let offset := Js.add offset (Js.ToNumber addLen) in
           command ← read buffer offset;
           let offset := Js.add offset (Js.Int 1) in
           if negb (Js.strict_eq command 1)
           then mret (Invalid (Reason ("Unsupported command: " +:+ Js.template command)))
           else
             hi ← read buffer offset;
             lo ← read buffer (Js.add offset (Js.Int 1));
             let port := Js.shl8_or hi lo in
             let offset := Js.add offset (Js.Int 2) in
             addrType ← read buffer offset;
             let offset := Js.add offset (Js.Int 1) in
             let finish (address : string) (offset : Js.number) : M unit ParseResult :=
               payload ← slice_from buffer offset;
               mret (Valid uuid address port payload) in
             if Js.strict_eq addrType 1 then
               a0 ← read buffer offset;
               a1 ← read buffer (Js.add offset (Js.Int 1));
               a2 ← read buffer (Js.add offset (Js.Int 2));
               a3 ← read buffer (Js.add offset (Js.Int 3));
               let address :=
                 Js.template a0 +:+ "." +:+ Js.template a1 +:+ "."
                 +:+ Js.template a2 +:+ "." +:+ Js.template a3 in
               finish address (Js.add offset (Js.Int 4))
             else if Js.strict_eq addrType 2 then
               domainLen ← read buffer offset;
               let offset := Js.add offset (Js.Int 1) in
               domainBytes ← slice buffer offset
                                   (Js.add offset (Js.ToNumber domainLen));
               let address := decode domainBytes in
               finish address (Js.add offset (Js.ToNumber domainLen))
             else if Js.strict_eq addrType 3 then
               ipv6 ← mapM (fun i =>
                              hi ← read buffer (Js.add offset (Js.Int i));
                              lo ← read buffer (Js.add offset (Js.Int (i + 1)));
                              mret (Js.Number_toString 16 (Js.shl8_or hi lo)))
                           V1.even_indices;
               let address := Js.join ":" ipv6 in
               finish address (Js.add offset (Js.Int 16))
             else mret (Invalid (Reason ("Invalid address type: "
                                         +:+ Js.template addrType))))
    (fun error => mret (Invalid (MessageOf error))).

(** ** The session: [vlessHandler]

    Besides the closure variables, [safeClose] consults the transport's
    [readyState]. *)
Record Session : Type := {
  remote : bool;
  headerParsed : bool;
  ws_open : bool;       (* [readyState] is [OPEN] or [CONNECTING] *)
}.

Definition initial : Session :=
  {| remote := false; headerParsed := false; ws_open := true |}.

Definition safeClose (code : option N) (reason : close_reason)
  : M Session unit :=
  st ← get_state;
  if ws_open st then
    emit (WsClose code reason);;
    modify (fun st => {| remote := remote st;
                         headerParsed := headerParsed st;
                         ws_open := false |})
  else mret tt.

Definition on_message {decoder : TextDecoder} (env : World) (data : list byte)
  : M Session unit :=
  try_catch
    (st ← get_state;
     if negb (headerParsed st) then
       parseResult ← call (parseVLESSHeader data env);
       match parseResult with
       | Invalid error => safeClose (Some 1008) error
       | Valid uuid address port payload =>
           modify (fun st => {| remote := remote st;
                                headerParsed := true;
                                ws_open := ws_open st |});;
           try_catch
             (connect env address port;;
              modify (fun st => {| remote := true;
                                   headerParsed := headerParsed st;
                                   ws_open := ws_open st |});;
              emit PipeRemoteToClient;;
              if 0 <? Js.byteLength payload
              then remote_write env payload
              else mret tt)
             (fun error =>
                safeClose (Some 1011) (Prefixed "Connection failed: " error))
       end
     else if remote st then remote_write env data
     else mret tt)
    (fun error => safeClose (Some 1011) (MessageOf error)).

(** The ['close'] listener; the transport is already closed when it
    runs. *)
Definition on_close : M Session unit :=
  modify (fun st => {| remote := remote st;
                       headerParsed := headerParsed st;
                       ws_open := false |});;
  st ← get_state;
  if remote st then emit RemoteClose else mret tt.

Definition on_error : M Session unit := mret tt.

Definition dispatch {decoder : TextDecoder} (env : World) (ev : V1.ClientEvent)
  : M Session unit :=
  match ev with
  | V1.Message data => on_message env data
  | V1.Close => on_close
  | V1.Error => on_error
  end.

(** [vlessHandler] registers the three listeners; a session is their
    runs, one per client event, on the shared variables. *)
Fixpoint vlessHandler {decoder : TextDecoder} (env : World)
    (evs : list V1.ClientEvent) : M Session unit :=
  match evs with
  | [] => mret tt
  | ev :: rest => dispatch env ev;; vlessHandler env rest
  end.

(** ** The download direction: [remoteToWebSocket]

    The loop over the settled reads of the remote socket; it consults
    the transport's [readyState] before every [send] (an accepted
    server-side transport is never [CONNECTING], so this is the flag
    [safeClose] reads). When the list runs out the loop is still
    suspended on the next read. *)
Fixpoint download_loop (reads : list V1.ReadResult) : M Session V1.LoopExit :=
  match reads with
  | [] => mret V1.Suspended
  | V1.ReadFailed :: _ => throw (Platform ReadError)
  | V1.Done :: _ => mret V1.Left_loop
  | V1.Chunk value :: rest =>
      st ← get_state;
      if ws_open st then emit (WsSend value);; download_loop rest
      else mret V1.Left_loop
  end.

(** [finally { safeClose(ws) }]: the defaults are code 1000 and an empty
    reason. *)
Definition remoteToWebSocket (reads : list V1.ReadResult) : M Session unit :=
  exit ← try_catch (download_loop reads) (fun error => mret V1.Left_loop);
  match exit with
  | V1.Left_loop => safeClose (Some 1000) (Reason "")
  | V1.Suspended => mret tt
  end.

(** What happens during a session: a client event runs its listener, a
    batch of settled reads runs the download loop. *)
Inductive Activity : Type :=
| Client (ev : V1.ClientEvent)
| Remote (reads : list V1.ReadResult).

Definition perform {decoder : TextDecoder} (env : World) (a : Activity)
  : M Session unit :=
  match a with
  | Client ev => dispatch env ev
  | Remote reads => remoteToWebSocket reads
  end.

Fixpoint run {decoder : TextDecoder} (env : World) (acts : list Activity)
  : M Session unit :=
  match acts with
  | [] => mret tt
  | a :: rest => perform env a;; run env rest
  end.

(** How many times the client transport can still be closed. *)
Definition closes_left (st : Session) : nat :=
  if ws_open st then 1%nat else 0%nat.

(** A computation that closes the client transport no more often than
    is left, and accounts for it in [ws_open]. *)
Definition closes_within_budget {A} (m : M Session A) : Prop :=
  forall st,
    (length (filter is_ws_close (events_of m st)) + closes_left (state_of m st)
     <= closes_left st)%nat.

End V2.

(* ===================================================================== *)
(** * Revision 3: the stream-piping worker (part_000, lines 1692-2416)    *)
(* ===================================================================== *)

Module V3.
Import Rt.

(** [{ error }] or [{ uuid, address, port, payload }]. *)
Inductive HeaderData : Type :=
| Failed (error : string)
| Parsed (uuid address : string) (port : N) (payload : list byte).

(** ** [DataView] and typed-array views over an [ArrayBuffer]

    Every access is range-checked by the platform and throws a
    [RangeError] instead of reading outside the buffer. *)

Definition getUint8 {S} (buffer : list byte) (offset : N) : M S N :=
  match buffer !! N.to_nat offset with
  | Some b => emit (BufRead (Js.Int offset));; mret (Byte.to_N b)
  | None => throw (Platform RangeError)
  end.

(** Big-endian, the default of [getUint16]. *)
Definition getUint16 {S} (buffer : list byte) (offset : N) : M S N :=
  match buffer !! N.to_nat offset, buffer !! N.to_nat (offset + 1) with
  | Some hi, Some lo =>
      emit (BufRead (Js.Int offset));;
      emit (BufRead (Js.Int (offset + 1)));;
      mret (Byte.to_N hi * 256 + Byte.to_N lo)
  | _, _ => throw (Platform RangeError)
  end.

(** [new Uint8Array(buffer, offset, length)]. *)
Definition view {S} (buffer : list byte) (offset length : N) : M S (list byte) :=
  if offset + length <=? Js.byteLength buffer then
    emit (BufView offset length);;
    mret (take (N.to_nat length) (drop (N.to_nat offset) buffer))
  else throw (Platform RangeError).

(** The loop [for (let i = 0; i < 16; i++) uuid += ...]. *)
Definition uuid_hex (uuidBytes : list byte) : string :=
  foldl (fun uuid i =>
           uuid +:+ Js.padStart2
                      (Js.Number_toString 16
                         (default 0 (Js.get uuidBytes (Js.Int (N.of_nat i))))))
        "" (seq 0 16).

(** [`${uuid.slice(0, 8)}-${uuid.slice(8, 12)}-${uuid.slice(12, 16)}-${uuid.slice(16, 20)}-${uuid.slice(20)}`]. *)
Definition hyphenate (uuid : string) : string :=
  Js.substring 0 8 uuid +:+ "-" +:+ Js.substring 8 12 uuid +:+ "-"
  +:+ Js.substring 12 16 uuid +:+ "-" +:+ Js.substring 16 20 uuid
  +:+ "-" +:+ Js.string_slice_from 20 uuid.

Definition parseVLESSHeader {decoder : TextDecoder} (buffer : list byte)
  : M unit HeaderData :=
  let offset := 0 in
  (* VLESS version *)
  version ← getUint8 buffer offset;
  let offset := offset + 1 in
  if negb (version =? 0) then mret (Failed "Invalid VLESS version")
  else
    (* UUID *)
    uuidBytes ← view buffer offset 16;
    let uuid := uuid_hex uuidBytes in
    let uuid := hyphenate uuid in
    let offset := offset + 16 in
    (* Add-ons *)
    addOnLength ← getUint8 buffer offset;
    let offset := offset + (1 + addOnLength) in
    (* Command *)
    command ← getUint8 buffer offset;
    let offset := offset + 1 in
    if negb (command =? 1)
    then mret (Failed "Unsupported command: only TCP is allowed")
    else
      (* Port *)
      port ← getUint16 buffer offset;
      let offset := offset + 2 in
      (* Address type *)
      addressType ← getUint8 buffer offset;
      let offset := offset + 1 in
      let finish (address : string) (offset : N) : M unit HeaderData :=
        payload ← slice_from buffer (Js.Int offset);
        mret (Parsed uuid address port payload) in
      if addressType =? 1 then
        ipv4Bytes ← view buffer offset 4;
        let address :=
          Js.join "." ((fun b => Js.Number_toString 10 (Byte.to_N b))
                       <$> ipv4Bytes) in
        finish address (offset + 4)
      else if addressType =? 2 then
        domainLength ← getUint8 buffer offset;
        let offset := offset + 1 in
        domainBytes ← view buffer offset domainLength;
        let address := decode domainBytes in
        finish address (offset + domainLength)
      else if addressType =? 3 then
        ipv6Bytes ← view buffer offset 16;
        ipv6 ← mapM (fun i =>
                       group ← getUint16 buffer (offset + i);
                       mret (Js.Number_toString 16 group))
                    V1.even_indices;
        let address := Js.join ":" ipv6 in
        finish address (offset + 16)
      else mret (Failed "Invalid address type").

(** The id carried by a parsed header. *)
Definition uuid_is (uuid : string) (hd : HeaderData) : Prop :=
  match hd with
  | Parsed uuid' _ _ _ => uuid' = uuid
  | Failed _ => True
  end.

(** ** The session: [handleVLESSWebSocket] (lines 1860-1949) *)

(** What a stream chunk can be: an [ArrayBuffer], or a typed array over
    one. [makeReadableWebSocketStream] enqueues [new Uint8Array(data)]
    (line 1962). *)
Inductive BufferSource : Type :=
| ArrayBuffer (bytes : list byte)
| Uint8Array (bytes : list byte).

(** [new DataView(buffer)] (line 1986) takes an [ArrayBuffer] and throws
    a [TypeError] on anything else. *)
Definition DataView {S} (buffer : BufferSource) : M S (list byte) :=
  match buffer with
  | ArrayBuffer bytes => mret bytes
  | Uint8Array _ => throw (Platform TypeError)
  end.

(** [parseVLESSHeader(firstChunk)] as the session calls it. *)
Definition parse_chunk {decoder : TextDecoder} (chunk : BufferSource)
  : M unit HeaderData :=
  buffer ← DataView chunk;
  parseVLESSHeader buffer.

(** [readableWebSocketStream.getWriter()] (line 1875):
    [makeReadableWebSocketStream] returns a [ReadableStream], which has
    [getReader] and no [getWriter], so this is a call of [undefined]. *)
Definition getWriter {S} : M S unit := throw (Platform TypeError).

Record Session : Type := {
  remoteSocket : bool;
}.

Definition initial : Session := {| remoteSocket := false |}.

(** What the handler answers with. *)
Inductive Reply : Type :=
| UpgradeRequired         (* status 426 *)
| SwitchingProtocols.     (* status 101, with the client end of the pair *)

(** [upgradeHeader] is what [request.headers.get('Upgrade')] returns;
    [firstChunk] is what the first read of the client stream would
    yield, [None] when the stream ended before any frame. The call of
    [getWriter] stands before the [try], so what it throws is not
    caught: the handler's promise rejects. *)
Definition handleVLESSWebSocket {decoder : TextDecoder}
    (upgradeHeader : option string) (env : World)
    (firstChunk : option (list byte)) : M Session Reply :=
  if negb (bool_decide (upgradeHeader = Some "websocket"))
  then mret UpgradeRequired
  else
    getWriter;;
    try_catch
      (match firstChunk with
       | None => throw (Error "No VLESS header received.")
       | Some firstChunk =>
           headerData ← call (parse_chunk (Uint8Array firstChunk));
           match headerData with
           | Failed error => throw (Error error)
           | Parsed uuid address port payload =>
               (* Validate the UUID *)
               account ← kv_get env uuid;
               if negb (truthy account)
               then throw (Error ("Invalid UUID: " +:+ uuid))
               else
                 (* VLESS success reply *)
                 emit (WsSend [x00; x00]);;
                 connect env address port;;
                 modify (fun _ => {| remoteSocket := true |});;
                 (if 0 <? Js.byteLength payload
                  then remote_write env payload
                  else mret tt);;
                 emit PipeRemoteToClient;;
                 emit PipeClientToRemote
           end
       end)
      (fun err =>
         emit (WsClose (Some 1011) (MessageOf err));;
         st ← get_state;
         if remoteSocket st then emit RemoteClose else mret tt);;
    mret SwitchingProtocols.

End V3.

(* ===================================================================== *)
(** * The wire format as the design document states it                    *)
(* ===================================================================== *)

(** These definitions follow the document, not the code; the theorems
    below compare the parsers with them. *)
Module Wire.

(** ** Hexadecimal numerals *)

Definition hex_digit (d : N) : ascii :=
  default "0"%char (String.get (N.to_nat d) "0123456789abcdef").

Definition hex_digit_value (c : ascii) : option N :=
  let k := N_of_ascii c in
  if (48 <=? k) && (k <=? 57) then Some (k - 48)
  else if (97 <=? k) && (k <=? 102) then Some (k - 87)
  else None.

(** The value of a numeral of lowercase hexadecimal digits, most
    significant digit first; [None] when another character occurs. *)
Fixpoint hex_value_from (acc : N) (s : string) : option N :=
  match s with
  | EmptyString => Some acc
  | String c s' =>
      match hex_digit_value c with
      | Some d => hex_value_from (16 * acc + d) s'
      | None => None
      end
  end.

Definition hex_value (s : string) : option N := hex_value_from 0 s.

Definition no_leading_zero (s : string) : Prop :=
  match s with
  | EmptyString => False
  | String c rest => c = "0"%char -> rest = EmptyString
  end.

(** [s] is the lowercase hexadecimal numeral of [n], without leading
    zeros. *)
Definition lower_hex (s : string) (n : N) : Prop :=
  hex_value s = Some n /\ no_leading_zero s.

(** A byte as exactly two lowercase hexadecimal digits. *)
Definition byte_hex (b : byte) : string :=
  String (hex_digit (Byte.to_N b / 16))
         (String (hex_digit (Byte.to_N b mod 16)) EmptyString).

Definition bytes_hex (bs : list byte) : string :=
  foldr (fun b s => byte_hex b +:+ s) "" bs.

(** ** The id: [xxxxxxxx-xxxx-xxxx-xxxx-xxxxxxxxxxxx], bytes in order *)
Definition canonical_uuid (id : list byte) : string :=
  bytes_hex (take 4 id) +:+ "-"
  +:+ bytes_hex (take 2 (drop 4 id)) +:+ "-"
  +:+ bytes_hex (take 2 (drop 6 id)) +:+ "-"
  +:+ bytes_hex (take 2 (drop 8 id)) +:+ "-"
  +:+ bytes_hex (drop 10 id).

(** The fields of a colon-separated text. *)
Fixpoint fields (s : string) : list string :=
  match s with
  | EmptyString => [EmptyString]
  | String c rest =>
      if Ascii.eqb c ":"%char then EmptyString :: fields rest
      else match fields rest with
           | f :: fs => String c f :: fs
           | [] => [String c EmptyString]
           end
  end.

Fixpoint colon_free (s : string) : bool :=
  match s with
  | EmptyString => true
  | String c rest => negb (Ascii.eqb c ":"%char) && colon_free rest
  end.

(** ** Addresses *)
Inductive Address : Type :=
| IPv4 (a b c d : byte)
| Domain (len : byte) (name : list byte)
| IPv6 (bytes : list byte).

Definition address_wf (a : Address) : Prop :=
  match a with
  | IPv4 _ _ _ _ => True
  | Domain len name => Byte.to_N len = N.of_nat (length name)
  | IPv6 bytes => length bytes = 16%nat
  end.

Definition address_type (a : Address) : N :=
  match a with
  | IPv4 _ _ _ _ => 1
  | Domain _ _ => 2
  | IPv6 _ => 3
  end.

Definition address_bytes (a : Address) : list byte :=
  match a with
  | IPv4 a b c d => [x01; a; b; c; d]
  | Domain len name => x02 :: len :: name
  | IPv6 bytes => x03 :: bytes
  end.

(** The 16-bit groups of an IPv6 address, big-endian. *)
Fixpoint groups (bytes : list byte) : list N :=
  match bytes with
  | hi :: lo :: rest => (256 * Byte.to_N hi + Byte.to_N lo) :: groups rest
  | _ => []
  end.

Definition dotted_decimal (a b c d : byte) : string :=
  Js.join "." ((fun x => Js.Number_toString 10 (Byte.to_N x)) <$> [a; b; c; d]).

(** The text of an address: dotted decimal, decoded text, or the eight
    groups in hexadecimal joined by colons. *)
Definition address_text {decoder : Rt.TextDecoder} (a : Address) : string :=
  match a with
  | IPv4 a b c d => dotted_decimal a b c d
  | Domain _ name => Rt.decode name
  | IPv6 bytes => Js.join ":" (Js.Number_toString 16 <$> groups bytes)
  end.

(** ** The header:
    version(1) | id(16) | addonLen(1) | addons | command(1) | port(2, BE)
    | addrType(1) | address | payload *)
Record Request : Type := {
  id : list byte;
  addonLen : byte;
  addons : list byte;
  port_hi : byte;
  port_lo : byte;
  target : Address;
  payload : list byte;
}.

Definition request_wf (r : Request) : Prop :=
  length (id r) = 16%nat
  /\ Byte.to_N (addonLen r) = N.of_nat (length (addons r))
  /\ address_wf (target r).

Definition encode (r : Request) : list byte :=
  ([x00] ++ id r ++ [addonLen r] ++ addons r ++ [x01]
   ++ [port_hi r; port_lo r] ++ address_bytes (target r) ++ payload r)%list.

Definition port_of (r : Request) : N :=
  256 * Byte.to_N (port_hi r) + Byte.to_N (port_lo r).

End Wire.

(* ===================================================================== *)
(** * What a parser should return for an encoded request                  *)
(* ===================================================================== *)

Module Expect.
Import Wire.

Definition V1_header_of {decoder : Rt.TextDecoder} (r : Request) : V1.Header :=
  {| V1.version := Some 0;
     V1.uuid := canonical_uuid (id r);
     V1.command := Some 1;
     V1.port := port_of r;
     V1.addressType := Some (address_type (target r));
     V1.address := address_text (target r) |}.

Definition V1_result {decoder : Rt.TextDecoder} (r : Request) : V1.ParseResult :=
  V1.Valid (V1_header_of r) (payload r).

Definition V2_result {decoder : Rt.TextDecoder} (r : Request) : V2.ParseResult :=
  V2.Valid (canonical_uuid (id r)) (address_text (target r)) (port_of r)
           (payload r).

Definition V3_result {decoder : Rt.TextDecoder} (r : Request) : V3.HeaderData :=
  V3.Parsed (canonical_uuid (id r)) (address_text (target r)) (port_of r)
            (payload r).

(** Two parse results that tell the session the same thing: both
    refusals, or both acceptances with the same id, target, port and
    payload. *)
Definition same_header (r1 : V1.ParseResult) (r2 : V2.ParseResult) : Prop :=
  match r1, r2 with
  | V1.Valid header remainingData, V2.Valid uuid address port payload =>
      V1.uuid header = uuid /\ V1.address header = address
      /\ V1.port header = port /\ remainingData = payload
  | V1.Invalid _, V2.Invalid _ => True
  | _, _ => False
  end.

End Expect.

(* ===================================================================== *)
(** * The account API of revision 1 (part_000, lines 85-211)              *)
(* ===================================================================== *)

Module Api.

(** The KV namespace bound as [env.VLESS_ACCOUNTS]: [None] when the
    binding is missing, so that every method call on it is a
    [TypeError]. [put], [get] and [delete] are taken at the meaning the
    handlers rely on: a map from keys to texts. *)
Definition Namespace : Type := option (gmap string string).

(** What [await request.json()] settles to: the parsed body, or the
    error it rejects with. *)
Definition Parsed (A : Type) : Type := Rt.exn + A.

(** The body the front end posts to [/api/create-vless]: six text
    fields. *)
Record CreateBody : Type := {
  body_uuid : string;
  body_address : string;
  body_port : string;
  body_path : string;
  body_host : string;
  body_sni : string;
}.

(** [vlessAccount], in the order its properties are created. *)
Record Account : Type := {
  uuid : string;
  protocol : string;
  address : string;
  port : string;
  path : string;
  host : string;
  sni : string;
  type : string;
  security : string;
  createdAt : string;
}.

(** The platform's rendering of a text as a JSON string literal
    (quotes and escapes included). *)
Class JSONQuote : Type := quote : string -> string.

Definition member {json : JSONQuote} (name value : string) : string :=
  quote name +:+ ":" +:+ quote value.

(** [JSON.stringify(vlessAccount)]: the properties in creation order. *)
Definition stringify {json : JSONQuote} (a : Account) : string :=
  "{" +:+ Js.join ","
            [ member "uuid" (uuid a); member "protocol" (protocol a);
              member "address" (address a); member "port" (port a);
              member "path" (path a); member "host" (host a);
              member "sni" (sni a); member "type" (type a);
              member "security" (security a);
              member "createdAt" (createdAt a) ]
  +:+ "}".

(** The object a handler passes to [JSON.stringify], or the text it
    passes to [new Response] as it is. *)
Inductive Payload : Type :=
| Error_ (error : Rt.close_reason)                (* [{ error }] *)
| Failure (error : Rt.close_reason)               (* [{ success: false, error }] *)
| Created (account : Account)                     (* [{ success: true, account }] *)
| Deleted                                         (* [{ success: true, message }] *)
| Raw (text : string).                            (* [new Response(account)] *)

Record Response : Type := {
  status : N;
  payload : Payload;
}.

(** [port === '443' ? 'tls' : 'none']. *)
Definition security_of (port : string) : string :=
  if String.eqb port "443" then "tls" else "none".

(** [now] is what [new Date().toISOString()] returns. *)
Definition handleCreateVLESS {json : JSONQuote} (now : string)
    (request : Parsed CreateBody) (env : Namespace) : Response * Namespace :=
  match request with
  | inl error => ({| status := 500; payload := Failure (Rt.MessageOf error) |}, env)
  | inr body =>
      let vlessAccount :=
        {| uuid := body_uuid body;
           protocol := "vless";
           address := body_address body;
           port := body_port body;
           path := body_path body;
           host := body_host body;
           sni := body_sni body;
           type := "ws";
           security := security_of (body_port body);
           createdAt := now |} in
      match env with
      | None =>
          ({| status := 500;
              payload := Failure (Rt.MessageOf (Rt.Platform Rt.TypeError)) |}, env)
      | Some store =>
          ({| status := 200; payload := Created vlessAccount |},
           Some (<[ body_uuid body := stringify vlessAccount ]> store))
      end
  end.

(** [uuid] is what [url.searchParams.get('uuid')] returns: [None] for
    [null]. *)
Definition handleGetAccount (uuid : option string) (env : Namespace)
  : Response :=
  match uuid with
  | None | Some EmptyString =>
      {| status := 400; payload := Error_ (Rt.Reason "UUID required") |}
  | Some uuid =>
      match env with
      | None =>
          {| status := 500;
             payload := Error_ (Rt.MessageOf (Rt.Platform Rt.TypeError)) |}
      | Some store =>
          let account := store !! uuid in
          if negb (Rt.truthy account)
          then {| status := 404; payload := Error_ (Rt.Reason "Account not found") |}
          else {| status := 200; payload := Raw (default "" account) |}
      end
  end.

(** The body of a delete request: its [uuid] property, [None] when the
    body has none. *)
Definition handleDeleteAccount (request : Parsed (option string))
    (env : Namespace) : Response * Namespace :=
  match request with
  | inl error => ({| status := 500; payload := Failure (Rt.MessageOf error) |}, env)
  | inr (None | Some EmptyString) =>
      ({| status := 400; payload := Error_ (Rt.Reason "UUID required") |}, env)
  | inr (Some uuid) =>
      match env with
      | None =>
          ({| status := 500;
              payload := Failure (Rt.MessageOf (Rt.Platform Rt.TypeError)) |}, env)
      | Some store =>
          ({| status := 200; payload := Deleted |}, Some (delete uuid store))
      end
  end.

(** The world a relay session sees once the API has left the namespace
    in a given state. *)
Definition world (env : Namespace) (connect_ok : string -> N -> bool)
    (write_ok : list byte -> bool) : Rt.World :=
  {| Rt.kv := env; Rt.connect_ok := connect_ok; Rt.write_ok := write_ok |}.

End Api.

(* ===================================================================== *)
(** * The front end's id generator (src/worker.js, lines 32-38)           *)
(* ===================================================================== *)

Module Client.

(** [r & 0x3 | 0x8]. *)
Definition variant (r : N) : N := N.lor (N.land r 3) 8.

(** ['...'.replace(/[xy]/g, function (c) { ... })]: the callback runs
    once per [x] or [y], left to right; [random k] is the value of
    [Math.random() * 16 | 0] at its [k]-th run. *)
Fixpoint replace_xy (random : nat -> N) (k : nat) (s : string) : string :=
  match s with
  | EmptyString => EmptyString
  | String c rest =>
      if Ascii.eqb c "x"%char then
        Js.Number_toString 16 (random k) +:+ replace_xy random (S k) rest
      else if Ascii.eqb c "y"%char then
        Js.Number_toString 16 (variant (random k))
        +:+ replace_xy random (S k) rest
      else String c (replace_xy random k rest)
  end.

Definition generateUUID (random : nat -> N) : string :=
  replace_xy random 0 "xxxxxxxx-xxxx-4xxx-yxxx-xxxxxxxxxxxx".

End Client.

(* ===================================================================== *)
(** * Concrete frames and worlds                                          *)
(* ===================================================================== *)

Module Samples.
Import Wire.

(** UTF-8 decoding of ASCII text, where every byte is its own character.
    The domain names below are ASCII. *)
Definition ascii_decoder : Rt.TextDecoder :=
  fun bytes => string_of_list_ascii (ascii_of_byte <$> bytes).

Definition sample_id : list byte :=
  [x00; x01; x02; x03; x04; x05; x06; x07;
   x08; x09; x0a; x0b; x0c; x0d; x0e; x0f].

Definition sample_uuid : string := "00010203-0405-0607-0809-0a0b0c0d0e0f".

Definition known_store : gmap string string := {[ sample_uuid := "{}" ]}.

(** A store holding a record for [sample_uuid]; every target reachable. *)
Definition known : Rt.World :=
  {| Rt.kv := Some known_store;
     Rt.connect_ok := fun _ _ => true;
     Rt.write_ok := fun _ => true |}.

(** A configured but empty store. *)
Definition unknown : Rt.World :=
  {| Rt.kv := Some ∅;
     Rt.connect_ok := fun _ _ => true;
     Rt.write_ok := fun _ => true |}.

(** The record is there, but no target can be reached. *)
Definition unreachable : Rt.World :=
  {| Rt.kv := Some known_store;
     Rt.connect_ok := fun _ _ => false;
     Rt.write_ok := fun _ => true |}.

(** ["GET / HTTP/1.0\r\n\r\n"]. *)
Definition http_get : list byte :=
  [x47; x45; x54; x20; x2f; x20; x48; x54; x54; x50; x2f; x31; x2e; x30;
   x0d; x0a; x0d; x0a].

(** 198.51.100.7:80, followed by a payload. *)
Definition ipv4_request : Request :=
  {| id := sample_id; addonLen := x00; addons := [];
     port_hi := x00; port_lo := x50;
     target := IPv4 xc6 x33 x64 x07;
     payload := http_get |}.

(** [example.com]:443, with two add-on bytes. *)
Definition domain_request : Request :=
  {| id := sample_id; addonLen := x02; addons := [xaa; xbb];
     port_hi := x01; port_lo := xbb;
     target := Domain x0b [x65; x78; x61; x6d; x70; x6c; x65; x2e; x63; x6f; x6d];
     payload := [] |}.

(** The sixteen bytes of [::1]. *)
Definition loopback : list byte :=
  [x00; x00; x00; x00; x00; x00; x00; x00;
   x00; x00; x00; x00; x00; x00; x00; x01].

(** [::1]:80. *)
Definition ipv6_request : Request :=
  {| id := sample_id; addonLen := x00; addons := [];
     port_hi := x00; port_lo := x50;
     target := IPv6 loopback;
     payload := http_get |}.

(** A domain header with an empty name and no payload: 23 bytes. *)
Definition empty_domain_request : Request :=
  {| id := sample_id; addonLen := x00; addons := [];
     port_hi := x00; port_lo := x50;
     target := Domain x00 [];
     payload := [] |}.

(** 24 bytes: an IPv4 header cut after the second address byte. *)
Definition truncated_ipv4_frame : list byte :=
  ([x00] ++ sample_id ++ [x00; x01; x00; x50; x01; x0a; x00])%list.

(** The IPv4 request with version byte 1. *)
Definition bad_version_frame : list byte :=
  x01 :: drop 1 (encode ipv4_request).

(** A UDP request (command 2) for 1.2.3.4:80. *)
Definition udp_frame : list byte :=
  (x00 :: sample_id ++ [x00; x02; x00; x50; x01; x01; x02; x03; x04])%list.

(** Another store with a record for [sample_uuid], of other content,
    and a second record; no target reachable. *)
Definition busy_store : gmap string string :=
  <[ "other" := "x" ]> (<[ sample_uuid := "?" ]> ∅).

Definition busy : Rt.World :=
  {| Rt.kv := Some busy_store;
     Rt.connect_ok := fun _ _ => false;
     Rt.write_ok := fun _ => false |}.

(** 24 bytes: a domain header with two add-on bytes that ends with the
    address-type byte; the length byte of the name is missing. *)
Definition cut_domain_frame : list byte :=
  (x00 :: sample_id ++ x02 :: [xaa; xbb] ++ [x01; x00; x50; x02])%list.

(** JSON string literals of texts that need no escape: the text between
    two quotation marks. *)
Definition plain_quote : Api.JSONQuote :=
  fun s => String "034"%char (s +:+ String "034"%char EmptyString).

(** What the front end posts for the sample id. *)
Definition create_body : Api.CreateBody :=
  {| Api.body_uuid := sample_uuid;
     Api.body_address := "cdn.example.com";
     Api.body_port := "443";
     Api.body_path := "/ws";
     Api.body_host := "proxy.example.com";
     Api.body_sni := "cdn.example.com" |}.

End Samples.

(* ===================================================================== *)
(** * Number formatting                                                   *)
(* ===================================================================== *)

Section to_radix_facts.
Import Js Wire.

Lemma digit_char_hex (d : N) : d < 16 -> hex_digit_value (digit_char d) = Some d.
Proof.
  intros Hd.
  assert (Hcases : d = 0 \/ d = 1 \/ d = 2 \/ d = 3 \/ d = 4 \/ d = 5
                   \/ d = 6 \/ d = 7 \/ d = 8 \/ d = 9 \/ d = 10 \/ d = 11
                   \/ d = 12 \/ d = 13 \/ d = 14 \/ d = 15) by lia.
  repeat (destruct Hcases as [-> | Hcases]; [reflexivity |]).
  subst d; reflexivity.
Qed.

Lemma digit_char_zero (d : N) : d < 16 -> digit_char d = "0"%char -> d = 0.
Proof.
  intros Hd.
  assert (Hcases : d = 0 \/ d = 1 \/ d = 2 \/ d = 3 \/ d = 4 \/ d = 5
                   \/ d = 6 \/ d = 7 \/ d = 8 \/ d = 9 \/ d = 10 \/ d = 11
                   \/ d = 12 \/ d = 13 \/ d = 14 \/ d = 15) by lia.
  repeat (destruct Hcases as [-> | Hcases]; [first [reflexivity | discriminate] |]).
  subst d; discriminate.
Qed.

Lemma hex_value_from_snoc (s : string) (c : ascii) (acc : N) :
  hex_value_from acc (s +:+ String c EmptyString)
  = match hex_value_from acc s with
    | Some v =>
        match hex_digit_value c with
        | Some d => Some (16 * v + d)
        | None => None
        end
    | None => None
    end.
Proof.
  revert acc; induction s as [| c' s IH]; intros acc; simpl.
  - destruct (hex_digit_value c); reflexivity.
  - destruct (hex_digit_value c'); [apply IH | reflexivity].
Qed.

(** Enough fuel: [to_radix 16] writes the numeral of [n]. *)
Lemma to_radix_hex_value (fuel : nat) (n : N) :
  n < 2 ^ N.of_nat fuel ->
  hex_value (to_radix 16 fuel n) = Some n.
Proof.
  revert n; induction fuel as [| fuel IH]; intros n Hn.
  - simpl in Hn. assert (n = 0) as -> by lia. reflexivity.
  - cbn [to_radix]. destruct (N.ltb_spec n 16) as [Hlt | Hge].
    + unfold hex_value; cbn [hex_value_from].
      rewrite digit_char_hex by assumption. f_equal; lia.
    + unfold hex_value. rewrite hex_value_from_snoc.
      fold (hex_value (to_radix 16 fuel (n / 16))).
      rewrite IH.
      * rewrite digit_char_hex by (apply N.mod_lt; lia).
        f_equal. symmetry. apply N.div_mod. lia.
      * rewrite Nat2N.inj_succ, N.pow_succ_r' in Hn.
        apply N.Div0.div_lt_upper_bound. lia.
Qed.


Lemma to_radix_head (fuel : nat) (n : N) :
  0 < n -> n < 2 ^ N.of_nat fuel ->
  to_radix 16 fuel n <> EmptyString
  /\ forall rest, to_radix 16 fuel n <> String "0"%char rest.
Proof.
  revert n; induction fuel as [| fuel IH]; intros n Hpos Hn.
  - simpl in Hn. lia.
  - cbn [to_radix]. destruct (N.ltb_spec n 16) as [Hlt | Hge].
    + split; [discriminate |]. intros rest Heq. injection Heq as Hc _.
      apply digit_char_zero in Hc; lia.
    + assert (Hq : 0 < n / 16) by (apply N.div_str_pos; lia).
      assert (Hb : n / 16 < 2 ^ N.of_nat fuel).
      { rewrite Nat2N.inj_succ, N.pow_succ_r' in Hn.
        apply N.Div0.div_lt_upper_bound. lia. }
      destruct (IH _ Hq Hb) as [Hne Hhead].
      destruct (to_radix 16 fuel (n / 16)) as [| c s] eqn:E; [congruence |].
      split; [discriminate |]. simpl. intros rest Heq.
      injection Heq as Hc _. subst c. exact (Hhead s eq_refl).
Qed.

Lemma log2_fuel (n : N) : n < 2 ^ N.of_nat (S (N.to_nat (N.log2 n))).
Proof.
  rewrite Nat2N.inj_succ, N2Nat.id.
  destruct (N.eq_dec n 0) as [-> | Hn]; [reflexivity |].
  apply N.log2_spec. lia.
Qed.

(** [n.toString(16)] is the lowercase hexadecimal numeral of [n] without
    leading zeros, for every [n]. *)
Lemma Number_toString_16_lower_hex (n : N) : lower_hex (Number_toString 16 n) n.
Proof.
  unfold lower_hex, Number_toString. split.
  - apply to_radix_hex_value, log2_fuel.
  - destruct (N.eq_dec n 0) as [-> | Hn].
    + simpl. reflexivity.
    + destruct (to_radix_head (S (N.to_nat (N.log2 n))) n) as [Hne Hhead];
        [lia | apply log2_fuel |].
      destruct (to_radix 16 _ n) as [| c s] eqn:E; [congruence |].
      simpl. intros ->. exfalso. exact (Hhead s eq_refl).
Qed.

End to_radix_facts.

(* ===================================================================== *)
(** * Stepping through recorded computations                             *)
(* ===================================================================== *)

Section monad_steps.
Import Rt.
Context {S : Type}.

Lemma run_bind {A B} (m : M S A) (k : A -> M S B) (s : S) :
  (m ≫= k) s
  = match m s with
    | (t, s', inl e) => (t, s', inl e)
    | (t, s', inr a) =>
        let '(t', s'', r) := k a s' in ((t ++ t')%list, s'', r)
    end.
Proof. reflexivity. Qed.

Lemma run_ret {A B} (a : A) (k : A -> M S B) (s : S) :
  (mret a ≫= k) s = k a s.
Proof.
  rewrite run_bind. cbn. destruct (k a s) as [[t s'] r]. reflexivity.
Qed.

Lemma run_emit {B} (ev : event) (k : unit -> M S B) (s : S) :
  (emit ev ≫= k) s
  = let '(t, s', r) := k tt s in (ev :: t, s', r).
Proof. rewrite run_bind. cbn. reflexivity. Qed.

Lemma run_read {B} (buf : list byte) (i : Js.number)
    (k : Js.value -> M S B) (s : S) :
  (read buf i ≫= k) s
  = let '(t, s', r) := k (Js.get buf i) s in (BufRead i :: t, s', r).
Proof.
  rewrite run_bind. unfold read. rewrite run_emit. cbn.
  destruct (k (Js.get buf i) s) as [[t s'] r]. reflexivity.
Qed.

Lemma run_slice {B} (buf : list byte) (a b : Js.number)
    (k : list byte -> M S B) (s : S) :
  (slice buf a b ≫= k) s
  = let '(t, s', r) := k (Js.slice buf a b) s in (BufSlice a b :: t, s', r).
Proof.
  rewrite run_bind. unfold slice. rewrite run_emit. cbn.
  destruct (k (Js.slice buf a b) s) as [[t s'] r]. reflexivity.
Qed.

Lemma run_kv_get {B} (w : World) (store : gmap string string) (key : string)
    (k : option string -> M S B) (s : S) :
  kv w = Some store ->
  (kv_get w key ≫= k) s
  = let '(t, s', r) := k (store !! key) s in (KVGet key :: t, s', r).
Proof.
  intros Hkv. rewrite run_bind. unfold kv_get. rewrite Hkv, run_emit. cbn.
  destruct (k (store !! key) s) as [[t s'] r]. reflexivity.
Qed.

End monad_steps.

(* ===================================================================== *)
(** * Buffers and ids                                                     *)
(* ===================================================================== *)

Section buffer_facts.
Import Js.

Lemma get_at (buf pre post : list byte) (x : byte) (n : N) :
  buf = (pre ++ x :: post)%list -> N.of_nat (length pre) = n ->
  get buf (Int n) = Some (Byte.to_N x).
Proof.
  intros -> <-. unfold get. rewrite Nat2N.id.
  rewrite list_lookup_middle by reflexivity. reflexivity.
Qed.


Lemma slice_at (buf pre mid post : list byte) (a b : N) :
  buf = (pre ++ mid ++ post)%list ->
  N.of_nat (length pre) = a -> a + N.of_nat (length mid) = b ->
  slice buf (Int a) (Int b) = mid.
Proof.
  intros -> <- <-. unfold slice. cbn [ToIntegerOrInfinity].
  rewrite Nat2N.id.
  replace (N.to_nat (N.of_nat (length pre) + N.of_nat (length mid)))
    with (length pre + length mid)%nat by lia.
  rewrite !length_app.
  rewrite !Nat.min_l by lia.
  rewrite drop_app_length.
  replace (length pre + length mid - length pre)%nat with (length mid) by lia.
  apply take_app_length.
Qed.


End buffer_facts.

Section uuid_facts.
Import Js Wire.

Lemma hex2_byte_hex (b : byte) : V1.hex2 b = byte_hex b.
Proof. destruct b; reflexivity. Qed.

Lemma bytesToUUID_canonical (id : list byte) :
  length id = 16%nat -> V1.bytesToUUID id = canonical_uuid id.
Proof.
  intros Hlen.
  do 16 (destruct id as [| ? id]; [discriminate Hlen |]).
  destruct id; [| discriminate Hlen]. clear Hlen.
  unfold V1.bytesToUUID, canonical_uuid.
  cbn [fmap list_fmap take drop bytes_hex foldr].
  rewrite !hex2_byte_hex. unfold byte_hex.
  repeat match goal with
         | |- context [hex_digit ?x] => generalize (hex_digit x); intro
         end.
  reflexivity.
Qed.

Lemma uuid_hex_bytes_hex (id : list byte) :
  length id = 16%nat -> V3.uuid_hex id = bytes_hex id.
Proof.
  intros Hlen.
  do 16 (destruct id as [| ? id]; [discriminate Hlen |]).
  destruct id; [| discriminate Hlen]. clear Hlen.
  unfold V3.uuid_hex. cbn [bytes_hex foldr].
  cbv -[padStart2 Number_toString Byte.to_N String.append byte_hex].
  repeat match goal with
         | |- context [padStart2 (Number_toString 16 (Byte.to_N ?b))] =>
             change (padStart2 (Number_toString 16 (Byte.to_N b))) with (V1.hex2 b)
         end.
  rewrite !hex2_byte_hex. unfold byte_hex.
  repeat match goal with
         | |- context [hex_digit ?x] => generalize (hex_digit x); intro
         end.
  reflexivity.
Qed.
End uuid_facts.

Section result_steps.
Import Rt.
Context {S : Type}.

Lemma result_of_ret {A} (a : A) (s : S) : result_of (mret a : M S A) s = inr a.
Proof. reflexivity. Qed.

Lemma result_of_read {B} (buf : list byte) (i : Js.number)
    (k : Js.value -> M S B) (s : S) :
  result_of (read buf i ≫= k) s = result_of (k (Js.get buf i)) s.
Proof.
  unfold result_of. rewrite run_read.
  destruct (k (Js.get buf i) s) as [[t s'] r]. reflexivity.
Qed.

Lemma result_of_slice {B} (buf : list byte) (a b : Js.number)
    (k : list byte -> M S B) (s : S) :
  result_of (slice buf a b ≫= k) s = result_of (k (Js.slice buf a b)) s.
Proof.
  unfold result_of. rewrite run_slice.
  destruct (k (Js.slice buf a b) s) as [[t s'] r]. reflexivity.
Qed.

Lemma result_of_kv_get {B} (w : World) (store : gmap string string)
    (key : string) (k : option string -> M S B) (s : S) :
  kv w = Some store ->
  result_of (kv_get w key ≫= k) s = result_of (k (store !! key)) s.
Proof.
  intros Hkv. unfold result_of. rewrite (run_kv_get w store) by assumption.
  destruct (k (store !! key) s) as [[t s'] r]. reflexivity.
Qed.

Lemma result_of_bind_assoc {A B C} (m : M S A) (f : A -> M S B) (g : B -> M S C) (s : S) :
  result_of ((m ≫= f) ≫= g) s = result_of (m ≫= (fun x => f x ≫= g)) s.
Proof.
  unfold result_of. rewrite !run_bind.
  destruct (m s) as [[t s1] [e | a]]; [reflexivity |].
  rewrite run_bind.
  destruct (f a s1) as [[t' s2] [e | b]]; [reflexivity |].
  destruct (g b s2) as [[t'' s3] rr]. rewrite app_assoc. reflexivity.
Qed.

Lemma result_of_bind_ret {A B} (a : A) (k : A -> M S B) (s : S) :
  result_of (mret a ≫= k) s = result_of (k a) s.
Proof. unfold result_of. rewrite run_ret. reflexivity. Qed.

Lemma result_of_try_catch {A} (body : M S A) (h : exn -> M S A) (a : A) (s : S) :
  result_of body s = inr a -> result_of (try_catch body h) s = inr a.
Proof.
  unfold result_of, try_catch. destruct (body s) as [[t s'] [e | a']]; cbn; congruence.
Qed.

End result_steps.

Section encoded_requests.
Import Js Wire.

Lemma get_skip (pre rest : list byte) (n k : N) :
  N.of_nat (length pre) + k = n ->
  get (pre ++ rest)%list (Int n) = get rest (Int k).
Proof.
  intros <-. unfold get.
  replace (N.to_nat (N.of_nat (length pre) + k)) with (length pre + N.to_nat k)%nat by lia.
  rewrite lookup_app_r by lia.
  replace (length pre + N.to_nat k - length pre)%nat with (N.to_nat k) by lia.
  reflexivity.
Qed.

Lemma slice_skip (pre rest : list byte) (a b a' b' : N) :
  N.of_nat (length pre) + a' = a -> N.of_nat (length pre) + b' = b ->
  slice (pre ++ rest)%list (Int a) (Int b) = slice rest (Int a') (Int b').
Proof.
  intros <- <-. unfold slice. cbn [ToIntegerOrInfinity].
  rewrite length_app.
  replace (N.to_nat (N.of_nat (length pre) + a')) with (length pre + N.to_nat a')%nat by lia.
  replace (N.to_nat (N.of_nat (length pre) + b')) with (length pre + N.to_nat b')%nat by lia.
  rewrite !Nat.add_min_distr_l.
  rewrite drop_app_ge by lia.
  f_equal; [lia | f_equal; lia].
Qed.

Lemma lor_shl8 (hi lo : N) : lo < 256 -> N.lor (N.shiftl hi 8) lo = 256 * hi + lo.
Proof.
  intros Hlo.
  assert (Hland : N.land (N.shiftl hi 8) lo = 0).
  { apply N.bits_inj. intros n. rewrite N.land_spec, N.bits_0.
    destruct (N.lt_ge_cases n 8) as [Hn | Hn].
    - rewrite N.shiftl_spec_low by assumption. reflexivity.
    - destruct (N.eq_dec lo 0) as [-> | Hnz]; [rewrite N.bits_0; apply andb_false_r |].
      rewrite (N.bits_above_log2 lo n); [apply andb_false_r |].
      apply N.lt_le_trans with 8; [| assumption].
      apply N.log2_lt_pow2; [lia | exact Hlo]. }
  rewrite <- N.lxor_lor by assumption.
  rewrite <- N.add_nocarry_lxor by assumption.
  rewrite N.shiftl_mul_pow2. change (2 ^ 8) with 256. lia.
Qed.

Lemma shl8_or_bytes (hi lo : byte) :
  shl8_or (Some (Byte.to_N hi)) (Some (Byte.to_N lo))
  = 256 * Byte.to_N hi + Byte.to_N lo.
Proof.
  unfold shl8_or, ToInt32. cbn [default].
  apply lor_shl8. pose proof (Byte.to_N_bounded lo). lia.
Qed.

Lemma bytesToIPv6_groups (bytes : list byte) :
  length bytes = 16%nat ->
  V1.bytesToIPv6 bytes = join ":" (Number_toString 16 <$> groups bytes).
Proof.
  intros Hlen.
  do 16 (destruct bytes as [| ? bytes]; [discriminate Hlen |]).
  destruct bytes; [| discriminate Hlen]. clear Hlen.
  unfold V1.bytesToIPv6. cbn [groups fmap list_fmap].
  change V1.even_indices with [0; 2; 4; 6; 8; 10; 12; 14].
  cbn [fmap list_fmap].
  repeat match goal with
         | |- context [get ?l ?i] =>
             let v := eval cbv -[Byte.to_N] in (get l i) in
             change (get l i) with v
         end.
  rewrite !shl8_or_bytes. reflexivity.
Qed.
End encoded_requests.

Section parse_encoded.
Import Js Rt Wire Expect.
Context {decoder : TextDecoder}.

Ltac eval_get :=
  repeat match goal with
         | |- context [get (?x :: ?l) (Int ?k)] =>
             let v := eval cbv -[Byte.to_N payload] in (get (x :: l) (Int k)) in
             change (get (x :: l) (Int k)) with v
         end.

Ltac lens :=
  repeat rewrite ?length_app, ?length_cons; cbn [length]; lia.

Lemma V1_parse_encode (r : Request) (env : World)
    (store : gmap string string) (account : string) (s : unit) :
  request_wf r ->
  kv env = Some store ->
  store !! canonical_uuid (id r) = Some account ->
  account <> EmptyString ->
  (24 <= length (encode r))%nat ->
  result_of (V1.parseVLESSHeader (encode r) env) s
  = inr (V1_result r).
Proof.
  intros (Hid & Halen & Hawf) Hkv Hacc Hne Hlen.
  unfold V1.parseVLESSHeader.
  destruct (N.ltb_spec (byteLength (encode r)) 24) as [Hshort | _];
    [unfold byteLength in Hshort; lia |].
  cbn [add ToNumber].
  set (tail := (address_bytes (target r) ++ payload r)%list).
  assert (Hget : forall pre x post n,
             encode r = (pre ++ x :: post)%list -> N.of_nat (length pre) = n ->
             get (encode r) (Int n) = Some (Byte.to_N x))
    by (intros; eapply get_at; eassumption).
  rewrite result_of_read.
  rewrite (Hget [] x00 (id r ++ [addonLen r] ++ addons r ++ [x01]
                        ++ [port_hi r; port_lo r] ++ tail)%list)
    by reflexivity.
  cbn [strict_eq N.eqb negb Byte.to_N].
  rewrite result_of_slice.
  rewrite (slice_at (encode r) [x00] (id r)
             ([addonLen r] ++ addons r ++ [x01] ++ [port_hi r; port_lo r] ++ tail)%list)
    by first [reflexivity | lens].
  rewrite bytesToUUID_canonical by assumption.
  rewrite (result_of_kv_get env store) by assumption.
  rewrite Hacc.
  replace (truthy (Some account)) with true by (destruct account; [congruence | reflexivity]).
  cbn [negb].
  rewrite result_of_read.
  rewrite (Hget ([x00] ++ id r)%list (addonLen r)
             (addons r ++ [x01] ++ [port_hi r; port_lo r] ++ tail)%list)
    by first [unfold encode; rewrite <- ?app_assoc; reflexivity | lens].
  cbn [add ToNumber].
  rewrite result_of_read.
  rewrite (Hget ([x00] ++ id r ++ [addonLen r] ++ addons r)%list x01
             ([port_hi r; port_lo r] ++ tail)%list)
    by first [unfold encode; rewrite <- ?app_assoc; reflexivity | lens].
  cbn [strict_eq N.eqb negb Byte.to_N Pos.eqb].
  rewrite result_of_read.
  rewrite (Hget ([x00] ++ id r ++ [addonLen r] ++ addons r ++ [x01])%list
             (port_hi r) (port_lo r :: tail))
    by first [unfold encode; rewrite <- ?app_assoc; reflexivity | lens].
  rewrite result_of_read.
  rewrite (Hget ([x00] ++ id r ++ [addonLen r] ++ addons r ++ [x01; port_hi r])%list
             (port_lo r) tail)
    by first [unfold encode; rewrite <- ?app_assoc; reflexivity | lens].
  rewrite shl8_or_bytes. fold (port_of r).
  set (head := ([x00] ++ id r ++ [addonLen r] ++ addons r ++ [x01]
                ++ [port_hi r; port_lo r])%list).
  assert (Hsplit : encode r = (head ++ tail)%list)
    by (unfold encode, head; rewrite <- ?app_assoc; reflexivity).
  assert (Hhead : N.of_nat (length head) = 21 + Byte.to_N (addonLen r))
    by (unfold head; lens).
  assert (Htail : forall n k, 21 + Byte.to_N (addonLen r) + k = n ->
             get (encode r) (Int n) = get tail (Int k))
    by (intros n k <-; rewrite Hsplit; apply get_skip; lia).
  rewrite result_of_read, (Htail _ 0) by lia.
  unfold V1_result, V1_header_of.
  destruct (target r) as [a b c d | len name | bytes] eqn:Htarget;
    cbn [address_wf] in Hawf; subst tail; cbn [address_bytes address_type address_text] in *.
  - cbn [app]. eval_get. cbn [strict_eq Byte.to_N N.eqb Pos.eqb].
    rewrite result_of_read, (Htail _ 1) by lia.
    rewrite result_of_read, (Htail _ 2) by lia.
    rewrite result_of_read, (Htail _ 3) by lia.
    rewrite result_of_read, (Htail _ 4) by lia.
    cbn [app]. eval_get.
    unfold slice_from. rewrite result_of_slice, result_of_ret.
    rewrite (slice_at (encode r) (head ++ [x01; a; b; c; d]) (payload r) [])
      by first [rewrite Hsplit, app_nil_r, <- ?app_assoc; reflexivity
               | rewrite length_app, Nat2N.inj_add, Hhead; cbn [length]; lia
               | unfold byteLength; rewrite Hsplit, !length_app, !Nat2N.inj_add, Hhead;
                 cbn [length]; lia].
    reflexivity.
  - cbn [app]. eval_get. cbn [strict_eq Byte.to_N N.eqb Pos.eqb].
    rewrite result_of_read, (Htail _ 1) by lia.
    cbn [app]. eval_get. cbn [add ToNumber].
    rewrite result_of_slice.
    rewrite (slice_at (encode r) (head ++ [x02; len]) name (payload r))
      by first [rewrite Hsplit, <- ?app_assoc; reflexivity
               | rewrite length_app, Nat2N.inj_add, Hhead; cbn [length]; lia
               | lia].
    unfold slice_from. rewrite result_of_slice, result_of_ret.
    rewrite (slice_at (encode r) (head ++ [x02; len] ++ name) (payload r) [])
      by first [rewrite Hsplit, app_nil_r, <- ?app_assoc; reflexivity
               | rewrite !length_app, !Nat2N.inj_add, Hhead; cbn [length]; lia
               | unfold byteLength; rewrite Hsplit; cbn [app];
                 rewrite !length_app, !Nat2N.inj_add, Hhead; cbn [length];
                 rewrite length_app; lia].
    reflexivity.
  - cbn [app]. eval_get. cbn [strict_eq Byte.to_N N.eqb Pos.eqb].
    rewrite result_of_slice.
    rewrite (slice_at (encode r) (head ++ [x03]) bytes (payload r))
      by first [rewrite Hsplit, <- ?app_assoc; reflexivity
               | rewrite length_app, Nat2N.inj_add, Hhead; cbn [length]; lia
               | lia].
    rewrite bytesToIPv6_groups by assumption.
    unfold slice_from. rewrite result_of_slice, result_of_ret.
    rewrite (slice_at (encode r) (head ++ [x03] ++ bytes) (payload r) [])
      by first [rewrite Hsplit, app_nil_r, <- ?app_assoc; reflexivity
               | rewrite !length_app, !Nat2N.inj_add, Hhead; cbn [length]; lia
               | unfold byteLength; rewrite Hsplit; cbn [app];
                 rewrite !length_app, !Nat2N.inj_add, Hhead; cbn [length];
                 rewrite length_app; lia].
    reflexivity.
Qed.

Lemma V2_validity_step {B} (env : World) (uuid : string)
    (k : V2.Validity -> M unit B) (s : unit) :
  exists v, V2.ToBoolean v = true /\
    result_of ((if bool_decide (kv env ≠ None) then V2.validateUUID uuid env
                else mret V2.True_) ≫= k) s
    = result_of (k v) s.
Proof.
  destruct (kv env) as [store |] eqn:Hkv.
  - exists (V2.Promise (bool_decide (store !! uuid ≠ None))). split; [reflexivity |].
    rewrite bool_decide_true by discriminate.
    unfold result_of, V2.validateUUID, try_catch, kv_get. rewrite Hkv.
    rewrite run_bind, run_bind, run_emit. cbn.
    destruct (k _ s) as [[t s'] r]. reflexivity.
  - exists V2.True_. split; [reflexivity |].
    rewrite bool_decide_false by (intros Hc; apply Hc; reflexivity).
    apply result_of_bind_ret.
Qed.

Lemma V2_parse_encode (r : Request) (env : World) (s : unit) :
  request_wf r ->
  (24 <= length (encode r))%nat ->
  result_of (V2.parseVLESSHeader (encode r) env) s = inr (V2_result r).
Proof.
  intros (Hid & Halen & Hawf) Hlen.
  unfold V2.parseVLESSHeader. apply result_of_try_catch.
  destruct (N.ltb_spec (byteLength (encode r)) 24) as [Hshort | _];
    [unfold byteLength in Hshort; lia |].
  cbn [add ToNumber].
  set (tail := (address_bytes (target r) ++ payload r)%list).
  assert (Hget : forall pre x post n,
             encode r = (pre ++ x :: post)%list -> N.of_nat (length pre) = n ->
             get (encode r) (Int n) = Some (Byte.to_N x))
    by (intros; eapply get_at; eassumption).
  rewrite result_of_read.
  rewrite (Hget [] x00 (id r ++ [addonLen r] ++ addons r ++ [x01]
                        ++ [port_hi r; port_lo r] ++ tail)%list)
    by reflexivity.
  cbn [strict_eq N.eqb negb Byte.to_N].
  rewrite result_of_slice.
  rewrite (slice_at (encode r) [x00] (id r)
             ([addonLen r] ++ addons r ++ [x01] ++ [port_hi r; port_lo r] ++ tail)%list)
    by first [reflexivity | lens].
  unfold V2.bytesToUUID. rewrite bytesToUUID_canonical by assumption.
  match goal with
  | |- result_of (_ ≫= ?k) s = _ =>
      destruct (V2_validity_step env (canonical_uuid (id r)) k s) as (v & Hv & ->)
  end.
  rewrite Hv. cbn [negb].
  rewrite result_of_read.
  rewrite (Hget ([x00] ++ id r)%list (addonLen r)
             (addons r ++ [x01] ++ [port_hi r; port_lo r] ++ tail)%list)
    by first [unfold encode; rewrite <- ?app_assoc; reflexivity | lens].
  cbn [add ToNumber].
  rewrite result_of_read.
  rewrite (Hget ([x00] ++ id r ++ [addonLen r] ++ addons r)%list x01
             ([port_hi r; port_lo r] ++ tail)%list)
    by first [unfold encode; rewrite <- ?app_assoc; reflexivity | lens].
  cbn [strict_eq N.eqb negb Byte.to_N Pos.eqb].
  rewrite result_of_read.
  rewrite (Hget ([x00] ++ id r ++ [addonLen r] ++ addons r ++ [x01])%list
             (port_hi r) (port_lo r :: tail))
    by first [unfold encode; rewrite <- ?app_assoc; reflexivity | lens].
  rewrite result_of_read.
  rewrite (Hget ([x00] ++ id r ++ [addonLen r] ++ addons r ++ [x01; port_hi r])%list
             (port_lo r) tail)
    by first [unfold encode; rewrite <- ?app_assoc; reflexivity | lens].
  rewrite shl8_or_bytes. fold (port_of r).
  set (head := ([x00] ++ id r ++ [addonLen r] ++ addons r ++ [x01]
                ++ [port_hi r; port_lo r])%list).
  assert (Hsplit : encode r = (head ++ tail)%list)
    by (unfold encode, head; rewrite <- ?app_assoc; reflexivity).
  assert (Hhead : N.of_nat (length head) = 21 + Byte.to_N (addonLen r))
    by (unfold head; lens).
  assert (Htail : forall n k, 21 + Byte.to_N (addonLen r) + k = n ->
             get (encode r) (Int n) = get tail (Int k))
    by (intros n k <-; rewrite Hsplit; apply get_skip; lia).
  rewrite result_of_read, (Htail _ 0) by lia.
  unfold V2_result.
  destruct (target r) as [a b c d | len name | bytes] eqn:Htarget;
    cbn [address_wf] in Hawf; subst tail; cbn [address_bytes address_type address_text] in *.
  - cbn [app]. eval_get. cbn [strict_eq Byte.to_N N.eqb Pos.eqb].
    rewrite result_of_read, (Htail _ 1) by lia.
    rewrite result_of_read, (Htail _ 2) by lia.
    rewrite result_of_read, (Htail _ 3) by lia.
    rewrite result_of_read, (Htail _ 4) by lia.
    cbn [app]. eval_get.
    unfold slice_from. rewrite result_of_slice, result_of_ret.
    rewrite (slice_at (encode r) (head ++ [x01; a; b; c; d]) (payload r) [])
      by first [rewrite Hsplit, app_nil_r, <- ?app_assoc; reflexivity
               | rewrite length_app, Nat2N.inj_add, Hhead; cbn [length]; lia
               | unfold byteLength; rewrite Hsplit, !length_app, !Nat2N.inj_add, Hhead;
                 cbn [length]; lia].
    reflexivity.
  - cbn [app]. eval_get. cbn [strict_eq Byte.to_N N.eqb Pos.eqb].
    rewrite result_of_read, (Htail _ 1) by lia.
    cbn [app]. eval_get. cbn [add ToNumber].
    rewrite result_of_slice.
    rewrite (slice_at (encode r) (head ++ [x02; len]) name (payload r))
      by first [rewrite Hsplit, <- ?app_assoc; reflexivity
               | rewrite length_app, Nat2N.inj_add, Hhead; cbn [length]; lia
               | lia].
    unfold slice_from. rewrite result_of_slice, result_of_ret.
    rewrite (slice_at (encode r) (head ++ [x02; len] ++ name) (payload r) [])
      by first [rewrite Hsplit, app_nil_r, <- ?app_assoc; reflexivity
               | rewrite !length_app, !Nat2N.inj_add, Hhead; cbn [length]; lia
               | unfold byteLength; rewrite Hsplit; cbn [app];
                 rewrite !length_app, !Nat2N.inj_add, Hhead; cbn [length];
                 rewrite length_app; lia].
    reflexivity.
  - cbn [app]. eval_get. cbn [strict_eq Byte.to_N N.eqb Pos.eqb].
    do 16 (destruct bytes as [| ? bytes]; [discriminate Hawf |]).
    destruct bytes; [| discriminate Hawf].
    change V1.even_indices with [0; 2; 4; 6; 8; 10; 12; 14].
    cbn [mapM add].
    repeat first [rewrite result_of_bind_assoc
                 | rewrite result_of_read
                 | rewrite result_of_bind_ret].
    rewrite (Htail _ 1), (Htail _ 2), (Htail _ 3), (Htail _ 4), (Htail _ 5),
      (Htail _ 6), (Htail _ 7), (Htail _ 8), (Htail _ 9), (Htail _ 10),
      (Htail _ 11), (Htail _ 12), (Htail _ 13), (Htail _ 14), (Htail _ 15),
      (Htail _ 16) by lia.
    cbn [app]. eval_get. rewrite !shl8_or_bytes.
    unfold slice_from. rewrite result_of_slice, result_of_ret.
    match goal with
    | |- context [payload r] => idtac
    end.
    rewrite (slice_at (encode r)
               (head ++ [x03; b; b0; b1; b2; b3; b4; b5; b6; b7; b8; b9; b10;
                         b11; b12; b13; b14])
               (payload r) [])
      by first [rewrite Hsplit, app_nil_r, <- ?app_assoc; reflexivity
               | rewrite !length_app, !Nat2N.inj_add, Hhead; cbn [length]; lia
               | unfold byteLength; rewrite Hsplit; cbn [app];
                 rewrite !length_app, !Nat2N.inj_add, Hhead; cbn [length]; lia].
    reflexivity.
Qed.
End parse_encoded.

(* ===================================================================== *)
(** * IPv6 text                                                           *)
(* ===================================================================== *)

Section ipv6_text.
Import Js Rt Wire Expect.

Lemma hex_value_from_colon_free (s : string) (acc n : N) :
  hex_value_from acc s = Some n -> colon_free s = true.
Proof.
  revert acc; induction s as [| c s IH]; intros acc Hv; [reflexivity |].
  cbn [hex_value_from] in Hv. cbn [colon_free].
  destruct (hex_digit_value c) as [d |] eqn:Hd; [| discriminate].
  rewrite (IH _ Hv), andb_true_r.
  destruct (Ascii.eqb_spec c ":"%char) as [-> | _]; [discriminate Hd | reflexivity].
Qed.

Lemma lower_hex_colon_free (s : string) (n : N) : lower_hex s n -> colon_free s = true.
Proof. intros [Hv _]. exact (hex_value_from_colon_free _ _ _ Hv). Qed.

Lemma fields_colon_free (s : string) : colon_free s = true -> fields s = [s].
Proof.
  induction s as [| c s IH]; [reflexivity |].
  cbn [colon_free fields]. intros [Hc Hs]%andb_true_iff.
  destruct (Ascii.eqb c ":"%char); [discriminate Hc |].
  rewrite (IH Hs). reflexivity.
Qed.

Lemma fields_app_colon (s rest : string) :
  colon_free s = true ->
  fields (s +:+ ":" +:+ rest) = s :: fields rest.
Proof.
  induction s as [| c s IH]; [reflexivity |].
  cbn [colon_free]. intros [Hc Hs]%andb_true_iff.
  simpl.
  destruct (Ascii.eqb c ":"%char); [discriminate Hc |].
  rewrite (IH Hs). reflexivity.
Qed.

(** Splitting a colon-joined text gives the parts back, as long as no part
    contains a colon: nothing is merged or dropped. *)
Lemma fields_join (parts : list string) :
  parts <> [] ->
  Forall (fun p => colon_free p = true) parts ->
  fields (join ":" parts) = parts.
Proof.
  induction parts as [| p parts IH]; [congruence |].
  intros _ Hall. inversion Hall as [| ? ? Hp Hrest]; subst.
  destruct parts as [| q parts].
  - cbn [join]. apply fields_colon_free, Hp.
  - cbn [join]. rewrite fields_app_colon by assumption.
    f_equal. apply IH; [discriminate | assumption].
Qed.

Lemma groups_length (bytes : list byte) :
  length bytes = 16%nat -> length (groups bytes) = 8%nat.
Proof.
  intros Hlen.
  do 16 (destruct bytes as [| ? bytes]; [discriminate Hlen |]).
  destruct bytes; [reflexivity | discriminate Hlen].
Qed.

Lemma numerals_lower_hex (ns : list N) :
  Forall2 lower_hex (Number_toString 16 <$> ns) ns.
Proof.
  induction ns as [| n ns IH]; constructor;
    [apply Number_toString_16_lower_hex | exact IH].
Qed.

Lemma encode_ipv6_length (r : Request) (bytes : list byte) :
  request_wf r -> target r = IPv6 bytes ->
  (24 <= length (encode r))%nat.
Proof.
  intros (Hid & _ & Hawf) Ht. rewrite Ht in Hawf. cbn in Hawf.
  unfold encode. rewrite Ht. cbn [address_bytes].
  rewrite !length_app. cbn [length]. lia.
Qed.

End ipv6_text.

(** C8 — An IPv6 address (address type 3) is rendered from its 16 bytes as
    8 big-endian 16-bit groups, each written in lowercase hexadecimal
    without leading zeros, joined by [:]; all 8 groups are always present
    (runs of zero groups are not collapsed to [::]). Splitting the text at
    the colons gives exactly the 8 numerals, both for [bytesToIPv6] and for
    what the parsers of revisions 1 and 2 return as the address; the bytes
    [0 ... 0 1] give ["0:0:0:0:0:0:0:1"]. *)
Theorem C8_ipv6_rendering {decoder : Rt.TextDecoder} (bytes : list byte) :
  length bytes = 16%nat ->
  Wire.fields (V1.bytesToIPv6 bytes) = Js.Number_toString 16 <$> Wire.groups bytes
  /\ length (Wire.fields (V1.bytesToIPv6 bytes)) = 8%nat
  /\ Forall2 Wire.lower_hex (Wire.fields (V1.bytesToIPv6 bytes)) (Wire.groups bytes)
  /\ (forall r env store account,
        Wire.request_wf r -> Wire.target r = Wire.IPv6 bytes ->
        Rt.kv env = Some store ->
        store !! Wire.canonical_uuid (Wire.id r) = Some account ->
        account <> EmptyString ->
        exists header remainingData,
          Rt.result_of (V1.parseVLESSHeader (Wire.encode r) env) tt
          = inr (V1.Valid header remainingData)
          /\ V1.address header = V1.bytesToIPv6 bytes)
  /\ (forall r env,
        Wire.request_wf r -> Wire.target r = Wire.IPv6 bytes ->
        exists uuid port payload,
          Rt.result_of (V2.parseVLESSHeader (Wire.encode r) env) tt
          = inr (V2.Valid uuid (V1.bytesToIPv6 bytes) port payload))
  /\ V1.bytesToIPv6 [x00; x00; x00; x00; x00; x00; x00; x00;
                     x00; x00; x00; x00; x00; x00; x00; x01]
     = "0:0:0:0:0:0:0:1".
Proof.
  intros Hlen.
  assert (Hfields : Wire.fields (V1.bytesToIPv6 bytes)
                    = Js.Number_toString 16 <$> Wire.groups bytes).
  { rewrite bytesToIPv6_groups by assumption.
    apply fields_join.
    - pose proof (groups_length bytes Hlen) as Hg.
      destruct (Wire.groups bytes); [discriminate Hg | discriminate].
    - apply Forall_fmap, Forall_forall. intros n _. cbn.
      exact (lower_hex_colon_free _ n (Number_toString_16_lower_hex n)). }
  repeat split.
  - exact Hfields.
  - rewrite Hfields, length_fmap. apply groups_length, Hlen.
  - rewrite Hfields. apply numerals_lower_hex.
  - intros r env store account Hwf Ht Hkv Hacc Hne.
    eexists _, _. split.
    + eapply V1_parse_encode; eauto using encode_ipv6_length.
    + cbn. rewrite Ht. cbn. symmetry. apply bytesToIPv6_groups, Hlen.
  - intros r env Hwf Ht. eexists _, _, _.
    rewrite (V2_parse_encode r env tt Hwf) by eauto using encode_ipv6_length.
    unfold Expect.V2_result. rewrite Ht. cbn [Wire.address_text].
    rewrite <- bytesToIPv6_groups by assumption. reflexivity.
Qed.

Lemma C8_ipv6_rendering_witness :
  length Samples.loopback = 16%nat
  /\ Wire.fields (V1.bytesToIPv6 Samples.loopback)
     = Js.Number_toString 16 <$> Wire.groups Samples.loopback.
Proof.
  split; [reflexivity |].
  exact (proj1 (@C8_ipv6_rendering Samples.ascii_decoder
                  Samples.loopback eq_refl)).
Defined.

(* ===================================================================== *)
(** * Decomposing runs, and properties of every recorded event            *)
(* ===================================================================== *)

Section decomposition.
Import Rt.
Context {S : Type}.

Lemma events_of_bind {A B} (m : M S A) (k : A -> M S B) (s : S) :
  events_of (m ≫= k) s
  = (events_of m s
     ++ match result_of m s with
        | inr a => events_of (k a) (state_of m s)
        | inl _ => []
        end)%list.
Proof.
  unfold events_of, result_of, state_of. rewrite run_bind.
  destruct (m s) as [[t s'] [e | a]]; cbn; [rewrite app_nil_r; reflexivity |].
  destruct (k a s') as [[t' s''] r]. reflexivity.
Qed.

Lemma result_of_bind {A B} (m : M S A) (k : A -> M S B) (s : S) :
  result_of (m ≫= k) s
  = match result_of m s with
    | inr a => result_of (k a) (state_of m s)
    | inl e => inl e
    end.
Proof.
  unfold result_of, state_of. rewrite run_bind.
  destruct (m s) as [[t s'] [e | a]]; cbn; [reflexivity |].
  destruct (k a s') as [[t' s''] r]. reflexivity.
Qed.

Lemma state_of_bind {A B} (m : M S A) (k : A -> M S B) (s : S) :
  state_of (m ≫= k) s
  = match result_of m s with
    | inr a => state_of (k a) (state_of m s)
    | inl _ => state_of m s
    end.
Proof.
  unfold result_of, state_of. rewrite run_bind.
  destruct (m s) as [[t s'] [e | a]]; cbn; [reflexivity |].
  destruct (k a s') as [[t' s''] r]. reflexivity.
Qed.

Lemma events_of_try_catch {A} (body : M S A) (h : exn -> M S A) (s : S) :
  events_of (try_catch body h) s
  = (events_of body s
     ++ match result_of body s with
        | inl e => events_of (h e) (state_of body s)
        | inr _ => []
        end)%list.
Proof.
  unfold events_of, result_of, state_of, try_catch.
  destruct (body s) as [[t s'] [e | a]]; cbn; [| rewrite app_nil_r; reflexivity].
  destruct (h e s') as [[t' s''] r]. reflexivity.
Qed.

Lemma state_of_try_catch {A} (body : M S A) (h : exn -> M S A) (s : S) :
  state_of (try_catch body h) s
  = match result_of body s with
    | inl e => state_of (h e) (state_of body s)
    | inr _ => state_of body s
    end.
Proof.
  unfold result_of, state_of, try_catch.
  destruct (body s) as [[t s'] [e | a]]; cbn; [| reflexivity].
  destruct (h e s') as [[t' s''] r]. reflexivity.
Qed.

Lemma events_of_call {A} (m : M unit A) (s : S) :
  events_of (call m) s = events_of m tt.
Proof.
  unfold events_of, call. destruct (m tt) as [[t u] r]. reflexivity.
Qed.

Lemma result_of_call {A} (m : M unit A) (s : S) :
  result_of (call m) s = result_of m tt.
Proof.
  unfold result_of, call. destruct (m tt) as [[t u] r]. reflexivity.
Qed.

Lemma state_of_call {A} (m : M unit A) (s : S) : state_of (call m) s = s.
Proof.
  unfold state_of, call. destruct (m tt) as [[t u] r]. reflexivity.
Qed.

(** ** Properties of every event of a computation *)

Lemma all_events_ret {A} (P : event -> bool) (a : A) : all_events P (mret a : M S A).
Proof. intros s. constructor. Qed.

Lemma all_events_throw {A} (P : event -> bool) (e : exn) :
  all_events P (throw e : M S A).
Proof. intros s. constructor. Qed.

Lemma all_events_emit (P : event -> bool) (ev : event) :
  P ev = true -> all_events P (emit ev : M S unit).
Proof. intros Hev s. repeat constructor. exact Hev. Qed.

Lemma all_events_bind {A B} (P : event -> bool) (m : M S A) (k : A -> M S B) :
  all_events P m -> (forall a, all_events P (k a)) -> all_events P (m ≫= k).
Proof.
  intros Hm Hk s. rewrite events_of_bind. apply Forall_app. split; [apply Hm |].
  destruct (result_of m s); [constructor | apply Hk].
Qed.

Lemma all_events_try_catch {A} (P : event -> bool) (body : M S A)
    (h : exn -> M S A) :
  all_events P body -> (forall e, all_events P (h e)) ->
  all_events P (try_catch body h).
Proof.
  intros Hb Hh s. rewrite events_of_try_catch. apply Forall_app.
  split; [apply Hb |].
  destruct (result_of body s); [apply Hh | constructor].
Qed.

Lemma all_events_call {A} (P : event -> bool) (m : M unit A) :
  all_events P m -> all_events P (call m : M S A).
Proof. intros Hm s. rewrite events_of_call. apply Hm. Qed.

Lemma all_events_read (P : event -> bool) (buf : list byte) (i : Js.number) :
  P (BufRead i) = true -> all_events P (read buf i : M S Js.value).
Proof.
  intros Hp. apply all_events_bind; [apply all_events_emit, Hp |].
  intros _. apply all_events_ret.
Qed.

Lemma all_events_slice (P : event -> bool) (buf : list byte) (a b : Js.number) :
  P (BufSlice a b) = true -> all_events P (slice buf a b : M S (list byte)).
Proof.
  intros Hp. apply all_events_bind; [apply all_events_emit, Hp |].
  intros _. apply all_events_ret.
Qed.

Lemma all_events_kv_get (P : event -> bool) (w : World) (key : string) :
  P (KVGet key) = true -> all_events P (kv_get w key : M S (option string)).
Proof.
  intros Hp. unfold kv_get. destruct (kv w); [| apply all_events_throw].
  apply all_events_bind; [apply all_events_emit, Hp |].
  intros _. apply all_events_ret.
Qed.

Lemma all_events_modify (P : event -> bool) (f : S -> S) :
  all_events P (modify f).
Proof. intros s. constructor. Qed.

Lemma all_events_get_state (P : event -> bool) : all_events P (get_state : M S S).
Proof. intros s. constructor. Qed.

Lemma all_events_connect (P : event -> bool) (w : World) (host : string) (port : N) :
  P (Connect host port) = true -> all_events P (connect w host port : M S unit).
Proof.
  intros Hp. apply all_events_bind; [apply all_events_emit, Hp |].
  intros _. destruct (connect_ok w host port);
    [apply all_events_ret | apply all_events_throw].
Qed.

Lemma all_events_remote_write (P : event -> bool) (w : World) (data : list byte) :
  P (RemoteWrite data) = true -> all_events P (remote_write w data : M S unit).
Proof.
  intros Hp. apply all_events_bind; [apply all_events_emit, Hp |].
  intros _. destruct (write_ok w data);
    [apply all_events_ret | apply all_events_throw].
Qed.

Lemma all_events_mapM {A B} (P : event -> bool) (f : A -> M S B) (l : list A) :
  (forall a, all_events P (f a)) -> all_events P (mapM f l).
Proof.
  intros Hf. induction l as [| a l IH]; cbn [mapM]; [apply all_events_ret |].
  apply all_events_bind; [apply Hf |]. intros b.
  apply all_events_bind; [apply IH |]. intros bs. apply all_events_ret.
Qed.

Lemma all_events_getUint8 (P : event -> bool) (buf : list byte) (offset : N) :
  (is_Some (buf !! N.to_nat offset) -> P (BufRead (Js.Int offset)) = true) ->
  all_events P (V3.getUint8 buf offset : M S N).
Proof.
  intros Hp. unfold V3.getUint8.
  destruct (buf !! N.to_nat offset) as [b |]; [| apply all_events_throw].
  apply all_events_bind; [apply all_events_emit, Hp; eauto |].
  intros _. apply all_events_ret.
Qed.

Lemma all_events_getUint16 (P : event -> bool) (buf : list byte) (offset : N) :
  (is_Some (buf !! N.to_nat offset) -> P (BufRead (Js.Int offset)) = true) ->
  (is_Some (buf !! N.to_nat (offset + 1)) ->
   P (BufRead (Js.Int (offset + 1))) = true) ->
  all_events P (V3.getUint16 buf offset : M S N).
Proof.
  intros Hp Hq. unfold V3.getUint16.
  destruct (buf !! N.to_nat offset) as [hi |]; [| apply all_events_throw].
  destruct (buf !! N.to_nat (offset + 1)) as [lo |]; [| apply all_events_throw].
  apply all_events_bind; [apply all_events_emit, Hp; eauto |]. intros _.
  apply all_events_bind; [apply all_events_emit, Hq; eauto |]. intros _.
  apply all_events_ret.
Qed.

Lemma all_events_view (P : event -> bool) (buf : list byte) (offset len : N) :
  (offset + len <= Js.byteLength buf -> P (BufView offset len) = true) ->
  all_events P (V3.view buf offset len : M S (list byte)).
Proof.
  intros Hp. unfold V3.view.
  destruct (N.leb_spec (offset + len) (Js.byteLength buf)); [| apply all_events_throw].
  apply all_events_bind; [apply all_events_emit, Hp; assumption |].
  intros _. apply all_events_ret.
Qed.

Lemma all_events_none {A} (P Q : event -> bool) (m : M S A) (s : S) :
  (forall ev, P ev = true -> Q ev = false) ->
  all_events P m -> filter Q (events_of m s) = [].
Proof.
  intros HPQ Hm. specialize (Hm s).
  induction Hm as [| ev l Hev _ IH]; [reflexivity |].
  rewrite filter_cons. rewrite (HPQ _ Hev). cbn. exact IH.
Qed.

End decomposition.

(* ===================================================================== *)
(** * Frames rejected before the credential store is consulted            *)
(* ===================================================================== *)

Ltac all_events_steps side :=
  repeat first
    [ apply all_events_ret
    | apply all_events_throw
    | apply all_events_read; side
    | apply all_events_slice; side
    | apply all_events_kv_get; side
    | apply all_events_emit; side
    | apply all_events_modify
    | apply all_events_get_state
    | apply all_events_connect; side
    | apply all_events_remote_write; side
    | apply all_events_call
    | apply all_events_getUint8; side
    | apply all_events_getUint16; side
    | apply all_events_view; side
    | apply all_events_mapM; intros ?
    | apply all_events_try_catch; [| intros ?]
    | apply all_events_bind; [| intros ?]
    | match goal with
      | |- Rt.all_events _ (if ?b then _ else _) => destruct b
      | |- Rt.all_events _ (match ?x with _ => _ end) => destruct x
      end ].

Section early_rejection.
Import Js Rt.
Context {decoder : TextDecoder}.

Lemma V1_short_buffer (buf : list byte) (env : World) (s : unit) :
  (length buf < 24)%nat ->
  V1.parseVLESSHeader buf env s = ([], s, inr (V1.Invalid "Buffer too short")).
Proof.
  intros Hlen. unfold V1.parseVLESSHeader.
  destruct (N.ltb_spec (byteLength buf) 24) as [_ | Hge];
    [reflexivity | unfold byteLength in Hge; lia].
Qed.

Lemma get_first (buf : list byte) (v : byte) :
  buf !! 0%nat = Some v -> get buf (Int 0) = Some (Byte.to_N v).
Proof.
  intros Hv. unfold get. change (N.to_nat 0) with 0%nat.
  rewrite Hv. reflexivity.
Qed.

Lemma to_N_nonzero (v : byte) : v <> x00 -> (Byte.to_N v =? 0) = false.
Proof.
  intros Hv. apply N.eqb_neq. intros Hz. apply Hv.
  apply (f_equal Byte.of_N) in Hz. rewrite Byte.of_to_N in Hz.
  cbn in Hz. congruence.
Qed.

Lemma V1_bad_version (buf : list byte) (v : byte) (env : World) (s : unit) :
  (24 <= length buf)%nat -> buf !! 0%nat = Some v -> v <> x00 ->
  V1.parseVLESSHeader buf env s
  = ([BufRead (Int 0)], s, inr (V1.Invalid "Invalid VLESS version")).
Proof.
  intros Hlen Hv Hnz. unfold V1.parseVLESSHeader.
  destruct (N.ltb_spec (byteLength buf) 24) as [Hlt | _];
    [unfold byteLength in Hlt; lia |].
  rewrite run_read, (get_first _ _ Hv). cbn [strict_eq].
  rewrite (to_N_nonzero _ Hnz). reflexivity.
Qed.

Lemma V2_short_buffer (buf : list byte) (env : World) (s : unit) :
  (length buf < 24)%nat ->
  V2.parseVLESSHeader buf env s
  = ([], s, inr (V2.Invalid (Reason "Buffer too short"))).
Proof.
  intros Hlen. unfold V2.parseVLESSHeader, try_catch.
  destruct (N.ltb_spec (byteLength buf) 24) as [_ | Hge];
    [reflexivity | unfold byteLength in Hge; lia].
Qed.

Lemma V2_bad_version (buf : list byte) (v : byte) (env : World) (s : unit) :
  (24 <= length buf)%nat -> buf !! 0%nat = Some v -> v <> x00 ->
  V2.parseVLESSHeader buf env s
  = ([BufRead (Int 0)], s,
     inr (V2.Invalid (Reason ("Invalid version: "
                              +:+ Number_toString 10 (Byte.to_N v))))).
Proof.
  intros Hlen Hv Hnz. unfold V2.parseVLESSHeader, try_catch.
  destruct (N.ltb_spec (byteLength buf) 24) as [Hlt | _];
    [unfold byteLength in Hlt; lia |].
  rewrite run_read, (get_first _ _ Hv). cbn [strict_eq].
  rewrite (to_N_nonzero _ Hnz). reflexivity.
Qed.

(** The parser of revision 3 has no access to the store at all. *)
Lemma V3_parse_no_lookup (buf : list byte) :
  all_events not_kv_get (V3.parseVLESSHeader buf).
Proof.
  unfold V3.parseVLESSHeader, slice_from. cbv zeta.
  all_events_steps ltac:(intros; reflexivity).
Qed.

End early_rejection.


(* ===================================================================== *)
(** * The id and the key of the credential lookup                         *)
(* ===================================================================== *)

Section lookup_key.
Import Js Rt Wire.
Context {decoder : TextDecoder}.

Lemma events_of_read_bind {S B} (buf : list byte) (i : number)
    (k : value -> M S B) (s : S) :
  events_of (read buf i ≫= k) s = BufRead i :: events_of (k (get buf i)) s.
Proof.
  unfold events_of. rewrite run_read.
  destruct (k (get buf i) s) as [[t s'] r]. reflexivity.
Qed.

Lemma events_of_slice_bind {S B} (buf : list byte) (a b : number)
    (k : list byte -> M S B) (s : S) :
  events_of (Rt.slice buf a b ≫= k) s
  = BufSlice a b :: events_of (k (Js.slice buf a b)) s.
Proof.
  unfold events_of. rewrite run_slice.
  destruct (k (Js.slice buf a b) s) as [[t s'] r]. reflexivity.
Qed.

Lemma events_of_kv_get_bind {S B} (w : World) (store : gmap string string)
    (key : string) (k : option string -> M S B) (s : S) :
  kv w = Some store ->
  events_of (kv_get w key ≫= k) s = KVGet key :: events_of (k (store !! key)) s.
Proof.
  intros Hkv. unfold events_of. rewrite (run_kv_get w store) by assumption.
  destruct (k (store !! key) s) as [[t s'] r]. reflexivity.
Qed.

Lemma slice_id (buf : list byte) :
  (17 <= length buf)%nat ->
  Js.slice buf (Int (0 + 1)) (Int (0 + 1 + 16)) = take 16 (drop 1 buf).
Proof.
  intros Hlen. unfold Js.slice. cbn [ToIntegerOrInfinity].
  change (N.to_nat (0 + 1)) with 1%nat. change (N.to_nat (0 + 1 + 16)) with 17%nat.
  rewrite !Nat.min_l by lia. reflexivity.
Qed.

Lemma not_kv_get_spec (ev : event) : not_kv_get ev = true -> is_kv_get ev = false.
Proof. destruct ev; first [reflexivity | discriminate]. Qed.

(** In revision 1 the store is consulted exactly once, under the text of
    bytes 1..16. *)
Lemma V1_lookup_key (buf : list byte) (env : World) (store : gmap string string) :
  kv env = Some store -> (24 <= length buf)%nat -> buf !! 0%nat = Some x00 ->
  filter is_kv_get (events_of (V1.parseVLESSHeader buf env) tt)
  = [KVGet (V1.bytesToUUID (take 16 (drop 1 buf)))].
Proof.
  intros Hkv Hlen Hv. unfold V1.parseVLESSHeader.
  destruct (N.ltb_spec (byteLength buf) 24) as [Hlt | _];
    [unfold byteLength in Hlt; lia |].
  rewrite events_of_read_bind, (get_first _ _ Hv).
  cbn [strict_eq Byte.to_N N.eqb negb add].
  rewrite events_of_slice_bind, slice_id by lia.
  rewrite (events_of_kv_get_bind env store) by assumption.
  rewrite !filter_cons. cbn [is_kv_get]. f_equal.
  apply (all_events_none not_kv_get); [exact not_kv_get_spec |].
  unfold slice_from. cbv zeta.
  all_events_steps ltac:(intros; reflexivity).
Qed.

End lookup_key.

Section results.
Import Rt.
Context {S : Type}.

Lemma all_results_ret {A} (Q : A -> Prop) (a : A) :
  Q a -> all_results Q (mret a : M S A).
Proof. intros Hq s a' Hr. cbn in Hr. injection Hr as <-. exact Hq. Qed.

Lemma all_results_throw {A} (Q : A -> Prop) (e : exn) :
  all_results Q (throw e : M S A).
Proof. intros s a Hr. discriminate Hr. Qed.

Lemma all_results_bind {A B} (Q : B -> Prop) (m : M S A) (k : A -> M S B) :
  (forall a, all_results Q (k a)) -> all_results Q (m ≫= k).
Proof.
  intros Hk s b Hr. rewrite result_of_bind in Hr.
  destruct (result_of m s) as [e | a]; [discriminate Hr |].
  exact (Hk a _ b Hr).
Qed.

Lemma all_results_view_bind {B} (Q : B -> Prop) (buf : list byte)
    (offset len : N) (k : list byte -> M S B) :
  (offset + len <= Js.byteLength buf ->
   all_results Q (k (take (N.to_nat len) (drop (N.to_nat offset) buf)))) ->
  all_results Q (V3.view buf offset len ≫= k).
Proof.
  intros Hk s b Hr. rewrite result_of_bind in Hr. unfold V3.view in Hr.
  destruct (N.leb_spec (offset + len) (Js.byteLength buf)) as [Hle | _];
    [| discriminate Hr].
  exact (Hk Hle _ b Hr).
Qed.

End results.

Ltac all_results_steps :=
  repeat first
    [ apply all_results_throw
    | apply all_results_ret
    | apply all_results_bind; intros ?
    | match goal with
      | |- Rt.all_results _ (if ?b then _ else _) => destruct b
      | |- Rt.all_results _ (match ?x with _ => _ end) => destruct x
      end ].

Section lookup_key_v3.
Import Js Rt Wire.
Context {decoder : TextDecoder}.

Lemma V3_uuid_canonical (id : list byte) :
  length id = 16%nat -> V3.hyphenate (V3.uuid_hex id) = canonical_uuid id.
Proof.
  intros Hlen. rewrite uuid_hex_bytes_hex by assumption.
  do 16 (destruct id as [| ? id]; [discriminate Hlen |]).
  destruct id; [| discriminate Hlen]. clear Hlen.
  unfold V3.hyphenate, canonical_uuid.
  cbn [take drop bytes_hex foldr]. unfold byte_hex.
  repeat match goal with
         | |- context [hex_digit ?x] => generalize (hex_digit x); intro
         end.
  reflexivity.
Qed.

Lemma V3_parsed_uuid (buf : list byte) :
  all_results (V3.uuid_is (canonical_uuid (take 16 (drop 1 buf))))
              (V3.parseVLESSHeader buf).
Proof.
  unfold V3.parseVLESSHeader. cbv zeta.
  apply all_results_bind; intros version.
  destruct (negb (version =? 0)); [apply all_results_ret; exact I |].
  apply all_results_view_bind. intros Hle.
  cbv beta.
  change (N.to_nat 16) with 16%nat. change (N.to_nat (0 + 1)) with 1%nat.
  rewrite V3_uuid_canonical
    by (rewrite length_take, length_drop; unfold byteLength in Hle; lia).
  all_results_steps; reflexivity.
Qed.

End lookup_key_v3.

(* ===================================================================== *)
(** * Revision 3 on encoded requests                                      *)
(* ===================================================================== *)

Section parse_encoded_v3.
Import Js Rt Wire Expect.
Context {decoder : TextDecoder}.

Lemma result_of_getUint8 {St B} (buf pre post : list byte) (x : byte) (n : N)
    (k : N -> M St B) (s : St) :
  buf = (pre ++ x :: post)%list -> N.of_nat (length pre) = n ->
  result_of (V3.getUint8 buf n ≫= k) s = result_of (k (Byte.to_N x)) s.
Proof.
  intros -> <-. rewrite result_of_bind. unfold V3.getUint8.
  rewrite Nat2N.id, list_lookup_middle by reflexivity.
  unfold result_of, state_of. rewrite run_emit. reflexivity.
Qed.

Lemma result_of_getUint16 {St B} (buf pre post : list byte) (hi lo : byte) (n : N)
    (k : N -> M St B) (s : St) :
  buf = (pre ++ hi :: lo :: post)%list -> N.of_nat (length pre) = n ->
  result_of (V3.getUint16 buf n ≫= k) s
  = result_of (k (256 * Byte.to_N hi + Byte.to_N lo)) s.
Proof.
  intros -> <-. rewrite result_of_bind. unfold V3.getUint16.
  rewrite Nat2N.id, list_lookup_middle by reflexivity.
  replace (N.to_nat (N.of_nat (length pre) + 1)) with (S (length pre)) by lia.
  replace (pre ++ hi :: lo :: post)%list with ((pre ++ [hi]) ++ lo :: post)%list
    by (rewrite <- app_assoc; reflexivity).
  rewrite list_lookup_middle by (rewrite length_app; cbn; lia).
  unfold result_of, state_of. rewrite !run_emit. cbn.
  replace (Byte.to_N hi * 256) with (256 * Byte.to_N hi) by lia. reflexivity.
Qed.

Lemma result_of_view {St B} (buf pre mid post : list byte) (n len : N)
    (k : list byte -> M St B) (s : St) :
  buf = (pre ++ mid ++ post)%list ->
  N.of_nat (length pre) = n -> N.of_nat (length mid) = len ->
  result_of (V3.view buf n len ≫= k) s = result_of (k mid) s.
Proof.
  intros -> <- <-. rewrite result_of_bind. unfold V3.view.
  destruct (N.leb_spec (N.of_nat (length pre) + N.of_nat (length mid))
                       (byteLength (pre ++ mid ++ post))) as [_ | Hgt].
  - rewrite !Nat2N.id, drop_app_length, take_app_length.
    unfold result_of, state_of. rewrite run_emit. reflexivity.
  - unfold byteLength in Hgt. rewrite !length_app in Hgt. lia.
Qed.

Lemma V3_parse_encode (r : Request) (s : unit) :
  request_wf r ->
  result_of (V3.parseVLESSHeader (encode r)) s = inr (V3_result r).
Proof.
  intros (Hid & Halen & Hawf).
  unfold V3.parseVLESSHeader. cbv zeta.
  set (tail := (address_bytes (target r) ++ payload r)%list).
  rewrite (result_of_getUint8 (encode r) []
             (id r ++ [addonLen r] ++ addons r ++ [x01]
              ++ [port_hi r; port_lo r] ++ tail)%list x00)
    by reflexivity.
  cbn [Byte.to_N N.eqb negb].
  rewrite (result_of_view (encode r) [x00] (id r)
             ([addonLen r] ++ addons r ++ [x01] ++ [port_hi r; port_lo r] ++ tail)%list)
    by first [reflexivity | rewrite Hid; reflexivity].
  rewrite V3_uuid_canonical by assumption.
  rewrite (result_of_getUint8 (encode r) ([x00] ++ id r)%list
             (addons r ++ [x01] ++ [port_hi r; port_lo r] ++ tail)%list
             (addonLen r))
    by first [unfold encode; rewrite <- ?app_assoc; reflexivity
             | rewrite length_app, Hid; reflexivity].
  rewrite (result_of_getUint8 (encode r)
             ([x00] ++ id r ++ [addonLen r] ++ addons r)%list
             ([port_hi r; port_lo r] ++ tail)%list x01)
    by first [unfold encode; rewrite <- ?app_assoc; reflexivity
             | rewrite !length_app; cbn [length]; lia].
  cbn [Byte.to_N N.eqb Pos.eqb negb].
  rewrite (result_of_getUint16 (encode r)
             ([x00] ++ id r ++ [addonLen r] ++ addons r ++ [x01])%list
             tail (port_hi r) (port_lo r))
    by first [unfold encode; rewrite <- ?app_assoc; reflexivity
             | rewrite !length_app; cbn [length]; lia].
  fold (port_of r).
  set (head := ([x00] ++ id r ++ [addonLen r] ++ addons r ++ [x01]
                ++ [port_hi r; port_lo r])%list).
  assert (Hsplit : encode r = (head ++ tail)%list)
    by (unfold encode, head; rewrite <- ?app_assoc; reflexivity).
  assert (Hhead : N.of_nat (length head) = 21 + Byte.to_N (addonLen r))
    by (unfold head; rewrite !length_app; cbn [length]; lia).
  unfold V3_result.
  destruct (target r) as [a b c d | len name | bytes] eqn:Htarget;
    cbn [address_wf] in Hawf; subst tail;
    cbn [address_bytes address_type address_text] in *.
  - rewrite (result_of_getUint8 (encode r) head ([a; b; c; d] ++ payload r)%list x01)
      by first [exact Hsplit | lia].
    cbn [Byte.to_N N.eqb Pos.eqb].
    rewrite (result_of_view (encode r) (head ++ [x01]) [a; b; c; d] (payload r))
      by first [rewrite Hsplit, <- ?app_assoc; reflexivity
               | rewrite length_app, Nat2N.inj_add, Hhead; cbn [length]; lia
               | reflexivity].
    unfold slice_from. rewrite result_of_slice, result_of_ret.
    rewrite (slice_at (encode r) (head ++ [x01; a; b; c; d]) (payload r) [])
      by first [rewrite Hsplit, app_nil_r, <- ?app_assoc; reflexivity
               | rewrite length_app, Nat2N.inj_add, Hhead; cbn [length]; lia
               | unfold byteLength; rewrite Hsplit, !length_app, !Nat2N.inj_add, Hhead;
                 cbn [length]; lia].
    reflexivity.
  - rewrite (result_of_getUint8 (encode r) head ([len] ++ name ++ payload r)%list x02)
      by first [exact Hsplit | lia].
    cbn [Byte.to_N N.eqb Pos.eqb].
    rewrite (result_of_getUint8 (encode r) (head ++ [x02]) (name ++ payload r)%list len)
      by first [rewrite Hsplit, <- ?app_assoc; reflexivity
               | rewrite length_app, Nat2N.inj_add, Hhead; cbn [length]; lia].
    rewrite (result_of_view (encode r) (head ++ [x02; len]) name (payload r))
      by first [rewrite Hsplit, <- ?app_assoc; reflexivity
               | rewrite length_app, Nat2N.inj_add, Hhead; cbn [length]; lia
               | lia].
    unfold slice_from. rewrite result_of_slice, result_of_ret.
    rewrite (slice_at (encode r) (head ++ [x02; len] ++ name) (payload r) [])
      by first [rewrite Hsplit, app_nil_r, <- ?app_assoc; reflexivity
               | rewrite !length_app, !Nat2N.inj_add, Hhead; cbn [length]; lia
               | unfold byteLength; rewrite Hsplit; cbn [app];
                 rewrite !length_app, !Nat2N.inj_add, Hhead; cbn [length];
                 rewrite length_app; lia].
    reflexivity.
  - rewrite (result_of_getUint8 (encode r) head (bytes ++ payload r)%list x03)
      by first [exact Hsplit | lia].
    cbn [Byte.to_N N.eqb Pos.eqb].
    rewrite (result_of_view (encode r) (head ++ [x03]) bytes (payload r))
      by first [rewrite Hsplit, <- ?app_assoc; reflexivity
               | rewrite length_app, Nat2N.inj_add, Hhead; cbn [length]; lia
               | rewrite Hawf; reflexivity].
    do 16 (destruct bytes as [| ? bytes]; [discriminate Hawf |]).
    destruct bytes; [| discriminate Hawf].
    change V1.even_indices with [0; 2; 4; 6; 8; 10; 12; 14].
    cbn [mapM].
    rewrite !result_of_bind_assoc.
    rewrite (result_of_getUint16 (encode r) (head ++ [x03])%list
               ([b1; b2; b3; b4; b5; b6; b7; b8; b9; b10; b11; b12; b13; b14] ++ payload r)%list b b0)
      by first [rewrite Hsplit, <- ?app_assoc; reflexivity
               | rewrite !length_app, !Nat2N.inj_add, Hhead; cbn [length]; lia].
    rewrite !result_of_bind_ret.
    rewrite !result_of_bind_assoc.
    rewrite (result_of_getUint16 (encode r) (head ++ [x03; b; b0])%list
               ([b3; b4; b5; b6; b7; b8; b9; b10; b11; b12; b13; b14] ++ payload r)%list b1 b2)
      by first [rewrite Hsplit, <- ?app_assoc; reflexivity
               | rewrite !length_app, !Nat2N.inj_add, Hhead; cbn [length]; lia].
    rewrite !result_of_bind_ret.
    rewrite !result_of_bind_assoc.
    rewrite (result_of_getUint16 (encode r) (head ++ [x03; b; b0; b1; b2])%list
               ([b5; b6; b7; b8; b9; b10; b11; b12; b13; b14] ++ payload r)%list b3 b4)
      by first [rewrite Hsplit, <- ?app_assoc; reflexivity
               | rewrite !length_app, !Nat2N.inj_add, Hhead; cbn [length]; lia].
    rewrite !result_of_bind_ret.
    rewrite !result_of_bind_assoc.
    rewrite (result_of_getUint16 (encode r) (head ++ [x03; b; b0; b1; b2; b3; b4])%list
               ([b7; b8; b9; b10; b11; b12; b13; b14] ++ payload r)%list b5 b6)
      by first [rewrite Hsplit, <- ?app_assoc; reflexivity
               | rewrite !length_app, !Nat2N.inj_add, Hhead; cbn [length]; lia].
    rewrite !result_of_bind_ret.
    rewrite !result_of_bind_assoc.
    rewrite (result_of_getUint16 (encode r) (head ++ [x03; b; b0; b1; b2; b3; b4; b5; b6])%list
               ([b9; b10; b11; b12; b13; b14] ++ payload r)%list b7 b8)
      by first [rewrite Hsplit, <- ?app_assoc; reflexivity
               | rewrite !length_app, !Nat2N.inj_add, Hhead; cbn [length]; lia].
    rewrite !result_of_bind_ret.
    rewrite !result_of_bind_assoc.
    rewrite (result_of_getUint16 (encode r) (head ++ [x03; b; b0; b1; b2; b3; b4; b5; b6; b7; b8])%list
               ([b11; b12; b13; b14] ++ payload r)%list b9 b10)
      by first [rewrite Hsplit, <- ?app_assoc; reflexivity
               | rewrite !length_app, !Nat2N.inj_add, Hhead; cbn [length]; lia].
    rewrite !result_of_bind_ret.
    rewrite !result_of_bind_assoc.
    rewrite (result_of_getUint16 (encode r) (head ++ [x03; b; b0; b1; b2; b3; b4; b5; b6; b7; b8; b9; b10])%list
               ([b13; b14] ++ payload r)%list b11 b12)
      by first [rewrite Hsplit, <- ?app_assoc; reflexivity
               | rewrite !length_app, !Nat2N.inj_add, Hhead; cbn [length]; lia].
    rewrite !result_of_bind_ret.
    rewrite !result_of_bind_assoc.
    rewrite (result_of_getUint16 (encode r) (head ++ [x03; b; b0; b1; b2; b3; b4; b5; b6; b7; b8; b9; b10; b11; b12])%list
               ([] ++ payload r)%list b13 b14)
      by first [rewrite Hsplit, <- ?app_assoc; reflexivity
               | rewrite !length_app, !Nat2N.inj_add, Hhead; cbn [length]; lia].
    rewrite !result_of_bind_ret.
    repeat first [rewrite result_of_bind_assoc | rewrite result_of_bind_ret].
    unfold slice_from. rewrite result_of_slice, result_of_ret.
    rewrite (slice_at (encode r)
               (head ++ [x03; b; b0; b1; b2; b3; b4; b5; b6; b7; b8; b9; b10;
                         b11; b12; b13; b14])
               (payload r) [])
      by first [rewrite Hsplit, app_nil_r, <- ?app_assoc; reflexivity
               | rewrite !length_app, !Nat2N.inj_add, Hhead; cbn [length]; lia
               | unfold byteLength; rewrite Hsplit; cbn [app];
                 rewrite !length_app, !Nat2N.inj_add, Hhead; cbn [length]; lia].
    reflexivity.
Qed.
End parse_encoded_v3.

(** C9 — The 16-byte id is rendered as the canonical hyphenated lowercase
    hexadecimal text (8-4-4-4-12 digits, two per byte, the bytes in their
    original order), and that text is the key of the credential lookup:
    [bytesToUUID] (revisions 1 and 2) and the inline loop of revision 3
    both produce [canonical_uuid]; the parser of revision 1 consults the
    store exactly once, under that key; the parser of revision 3 returns
    that text as the id of every header it accepts, and it accepts every
    well-formed request. *)
Theorem C9_uuid_canonical_and_lookup_key {decoder : Rt.TextDecoder} (id : list byte) :
  length id = 16%nat ->
  V1.bytesToUUID id = Wire.canonical_uuid id
  /\ V3.hyphenate (V3.uuid_hex id) = Wire.canonical_uuid id
  /\ String.length (Wire.canonical_uuid id) = 36%nat
  /\ (forall buf env store,
        take 16 (drop 1 buf) = id ->
        Rt.kv env = Some store -> (24 <= length buf)%nat ->
        buf !! 0%nat = Some x00 ->
        filter Rt.is_kv_get (Rt.events_of (V1.parseVLESSHeader buf env) tt)
        = [Rt.KVGet (Wire.canonical_uuid id)])
  /\ (forall buf uuid address port payload,
        take 16 (drop 1 buf) = id ->
        Rt.result_of (V3.parseVLESSHeader buf) tt
        = inr (V3.Parsed uuid address port payload) ->
        uuid = Wire.canonical_uuid id)
  /\ (forall r,
        Wire.request_wf r -> Wire.id r = id ->
        Rt.result_of (V3.parseVLESSHeader (Wire.encode r)) tt
        = inr (V3.Parsed (Wire.canonical_uuid id)
                         (Wire.address_text (Wire.target r))
                         (Wire.port_of r) (Wire.payload r))).
Proof.
  intros Hlen.
  split; [apply bytesToUUID_canonical, Hlen |].
  split; [apply V3_uuid_canonical, Hlen |].
  split.
  { do 16 (destruct id as [| ? id]; [discriminate Hlen |]).
    destruct id; [reflexivity | discriminate Hlen]. }
  split; [| split].
  - intros buf env store <- Hkv Hlong Hv.
    rewrite (V1_lookup_key buf env store) by assumption.
    rewrite bytesToUUID_canonical by assumption. reflexivity.
  - intros buf uuid address port payload <- Hparse.
    exact (V3_parsed_uuid buf tt _ Hparse).
  - intros r Hwf <-. exact (V3_parse_encode r tt Hwf).
Qed.

Lemma C9_uuid_canonical_and_lookup_key_witness :
  length Samples.sample_id = 16%nat
  /\ V1.bytesToUUID Samples.sample_id = Wire.canonical_uuid Samples.sample_id.
Proof.
  split; [reflexivity |].
  exact (proj1 (@C9_uuid_canonical_and_lookup_key Samples.ascii_decoder
                  Samples.sample_id eq_refl)).
Defined.


(* ===================================================================== *)
(** * Valid headers                                                       *)
(* ===================================================================== *)

(** C3 (as stated, refuted) — A valid header is not always parsed: a domain
    header with an empty name and no payload is 23 bytes long and is
    rejected as too short by revisions 1 and 2 although every declared
    length is in bounds, and revision 1 rejects any header whose id has no
    record in the credential store. *)
Lemma C3_counterexample :
  Wire.request_wf Samples.empty_domain_request
  /\ length (Wire.encode Samples.empty_domain_request) = 23%nat
  /\ Rt.result_of (V1.parseVLESSHeader (decoder := Samples.ascii_decoder)
                     (Wire.encode Samples.empty_domain_request) Samples.known) tt
     = inr (V1.Invalid "Buffer too short")
  /\ Rt.result_of (V2.parseVLESSHeader (decoder := Samples.ascii_decoder)
                     (Wire.encode Samples.empty_domain_request) Samples.known) tt
     = inr (V2.Invalid (Rt.Reason "Buffer too short"))
  /\ Wire.request_wf Samples.ipv4_request
  /\ Rt.result_of (V1.parseVLESSHeader (decoder := Samples.ascii_decoder)
                     (Wire.encode Samples.ipv4_request) Samples.unknown) tt
     = inr (V1.Invalid "Invalid UUID").
Proof.
  repeat split; vm_compute; reflexivity.
Qed.

(** C3 (amended) — For every valid header (version 0, command 1,
    address type 1, 2 or 3, every declared length in bounds): the parser
    of revision 3 succeeds; the parser of revision 2 succeeds when the
    header is at least 24 bytes long; the parser of revision 1 succeeds
    when the header is at least 24 bytes long and its id has a non-empty
    record in the credential store. The result carries the address text
    (dotted decimal, decoded domain text, or colon-joined hexadecimal
    groups), the port read big-endian from its two bytes, and all bytes
    after the address, unchanged and in order, as the initial payload. *)
Theorem C3_valid_header_parsed {decoder : Rt.TextDecoder} (r : Wire.Request) :
  Wire.request_wf r ->
  (forall env store account,
     (24 <= length (Wire.encode r))%nat ->
     Rt.kv env = Some store ->
     store !! Wire.canonical_uuid (Wire.id r) = Some account ->
     account <> EmptyString ->
     Rt.result_of (V1.parseVLESSHeader (Wire.encode r) env) tt
     = inr (V1.Valid
              {| V1.version := Some 0;
                 V1.uuid := Wire.canonical_uuid (Wire.id r);
                 V1.command := Some 1;
                 V1.port := 256 * Byte.to_N (Wire.port_hi r)
                            + Byte.to_N (Wire.port_lo r);
                 V1.addressType := Some (Wire.address_type (Wire.target r));
                 V1.address := Wire.address_text (Wire.target r) |}
              (Wire.payload r)))
  /\ (forall env,
        (24 <= length (Wire.encode r))%nat ->
        Rt.result_of (V2.parseVLESSHeader (Wire.encode r) env) tt
        = inr (V2.Valid (Wire.canonical_uuid (Wire.id r))
                        (Wire.address_text (Wire.target r))
                        (256 * Byte.to_N (Wire.port_hi r)
                         + Byte.to_N (Wire.port_lo r))
                        (Wire.payload r)))
  /\ Rt.result_of (V3.parseVLESSHeader (Wire.encode r)) tt
     = inr (V3.Parsed (Wire.canonical_uuid (Wire.id r))
                      (Wire.address_text (Wire.target r))
                      (256 * Byte.to_N (Wire.port_hi r)
                       + Byte.to_N (Wire.port_lo r))
                      (Wire.payload r)).
Proof.
  intros Hwf. split; [| split].
  - intros env store account Hlen Hkv Hacc Hne.
    exact (V1_parse_encode r env store account tt Hwf Hkv Hacc Hne Hlen).
  - intros env Hlen. exact (V2_parse_encode r env tt Hwf Hlen).
  - exact (V3_parse_encode r tt Hwf).
Qed.

Lemma C3_valid_header_parsed_witness :
  Wire.request_wf Samples.domain_request
  /\ Rt.result_of (V1.parseVLESSHeader (decoder := Samples.ascii_decoder)
                     (Wire.encode Samples.domain_request) Samples.known) tt
     = inr (V1.Valid
              {| V1.version := Some 0;
                 V1.uuid := Samples.sample_uuid;
                 V1.command := Some 1;
                 V1.port := 443;
                 V1.addressType := Some 2;
                 V1.address := "example.com" |}
              []).
Proof.
  assert (Hwf : Wire.request_wf Samples.domain_request)
    by (repeat split; reflexivity).
  split; [exact Hwf |].
  refine (proj1 (@C3_valid_header_parsed Samples.ascii_decoder
                   Samples.domain_request Hwf)
                Samples.known Samples.known_store "{}" _ eq_refl _ _).
  - vm_compute. lia.
  - vm_compute. reflexivity.
  - discriminate.
Defined.

(* ===================================================================== *)
(** * Reads past the end of the frame                                     *)
(* ===================================================================== *)

Section bounds.
Import Js Rt.
Context {decoder : TextDecoder}.

(** Revision 3 only ever reads inside the buffer: every out-of-range
    access is a [RangeError]. *)
Lemma V3_parse_in_bounds (buf : list byte) :
  all_events (in_bounds (length buf)) (V3.parseVLESSHeader buf).
Proof.
  unfold V3.parseVLESSHeader, slice_from. cbv zeta.
  all_events_steps
    ltac:(first [ reflexivity
                | intros [? ?%lookup_lt_Some]; cbn [in_bounds];
                  apply Nat.ltb_lt; assumption
                | intros Hle; cbn [in_bounds]; apply Nat.leb_le;
                  unfold byteLength in Hle; lia ]).
Qed.

(** Revision 3 has no length check of its own: a frame shorter than 24
    bytes is not answered with "Buffer too short". *)
Lemma V3_no_short_buffer_error (buf : list byte) :
  all_results (fun hd => hd <> V3.Failed "Buffer too short")
              (V3.parseVLESSHeader buf).
Proof.
  unfold V3.parseVLESSHeader. cbv zeta.
  all_results_steps; discriminate.
Qed.

End bounds.

(** C1 (evaluated at the failing input) — A 24-byte frame holding an IPv4
    header cut after its second address byte passes the length check of
    revisions 1 and 2; the parser then reads indices 24 and 25, past the
    end of the frame, and succeeds with an address built from the
    [undefined] it got there. *)
Theorem C1_truncated_frame_read_past_end :
  length Samples.truncated_ipv4_frame = 24%nat
  /\ Rt.result_of (V1.parseVLESSHeader (decoder := Samples.ascii_decoder)
                     Samples.truncated_ipv4_frame Samples.known) tt
     = inr (V1.Valid
              {| V1.version := Some 0;
                 V1.uuid := Samples.sample_uuid;
                 V1.command := Some 1;
                 V1.port := 80;
                 V1.addressType := Some 1;
                 V1.address := "10.0.undefined.undefined" |}
              [])
  /\ filter (fun ev => negb (Rt.in_bounds 24 ev))
       (Rt.events_of (V1.parseVLESSHeader (decoder := Samples.ascii_decoder)
                        Samples.truncated_ipv4_frame Samples.known) tt)
     = [Rt.BufRead (Js.Int 24); Rt.BufRead (Js.Int 25)]
  /\ Rt.result_of (V2.parseVLESSHeader (decoder := Samples.ascii_decoder)
                     Samples.truncated_ipv4_frame Samples.known) tt
     = inr (V2.Valid Samples.sample_uuid "10.0.undefined.undefined" 80 [])
  /\ filter (fun ev => negb (Rt.in_bounds 24 ev))
       (Rt.events_of (V2.parseVLESSHeader (decoder := Samples.ascii_decoder)
                        Samples.truncated_ipv4_frame Samples.known) tt)
     = [Rt.BufRead (Js.Int 24); Rt.BufRead (Js.Int 25)].
Proof.
  repeat split; vm_compute; reflexivity.
Qed.

(* ===================================================================== *)
(** * Sessions                                                            *)
(* ===================================================================== *)

Section sessions.
Import Js Rt.
Context {decoder : TextDecoder}.

(** The first frame of a revision-1 session, case by case on what the
    parser returns and on what the network does. *)
Lemma V1_first_message (env : World) (data : list byte) :
  V1.on_message env data V1.initial
  = let '(t, _, r) := V1.parseVLESSHeader data env tt in
    match r with
    | inl e =>
        ((t ++ [WsClose (Some 1011) (MessageOf e)])%list, V1.initial, inr tt)
    | inr (V1.Invalid _) =>
        ((t ++ [WsClose (Some 1008) (Reason "Invalid VLESS header")])%list,
         V1.initial, inr tt)
    | inr (V1.Valid header remainingData) =>
        let target := Connect (V1.address header) (V1.port header) in
        let failed :=
          WsClose (Some 1011) (Reason "Failed to connect to remote server") in
        if connect_ok env (V1.address header) (V1.port header) then
          if 0 <? byteLength remainingData then
            if write_ok env remainingData then
              ((t ++ [target; PipeRemoteToClient; RemoteWrite remainingData])%list,
               {| V1.remoteSocket := true; V1.isHeaderParsed := true |}, inr tt)
            else
              ((t ++ [target; PipeRemoteToClient; RemoteWrite remainingData;
                      failed])%list,
               {| V1.remoteSocket := true; V1.isHeaderParsed := true |}, inr tt)
          else
            ((t ++ [target; PipeRemoteToClient])%list,
             {| V1.remoteSocket := true; V1.isHeaderParsed := true |}, inr tt)
        else
          ((t ++ [target; failed])%list,
           {| V1.remoteSocket := false; V1.isHeaderParsed := true |}, inr tt)
    end.
Proof.
  unfold V1.on_message, try_catch, call, get_state, modify, connect,
    remote_write, emit, throw, mbind, M_bind, mret, M_ret.
  cbn [V1.initial V1.isHeaderParsed V1.remoteSocket negb].
  destruct (V1.parseVLESSHeader data env tt) as [[t u] [e | [err | header rem]]];
    cbn; rewrite ?app_nil_r; try reflexivity.
  destruct (connect_ok env (V1.address header) (V1.port header)); cbn.
  - destruct (0 <? byteLength rem); cbn.
    + destruct (write_ok env rem); cbn; rewrite ?app_nil_r; reflexivity.
    + rewrite ?app_nil_r. reflexivity.
  - rewrite ?app_nil_r. reflexivity.
Qed.

(** The same for revision 2; [safeClose] finds the transport open. *)
Lemma V2_first_message (env : World) (data : list byte) :
  V2.on_message env data V2.initial
  = let '(t, _, r) := V2.parseVLESSHeader data env tt in
    let closed := {| V2.remote := false; V2.headerParsed := false;
                     V2.ws_open := false |} in
    match r with
    | inl e => ((t ++ [WsClose (Some 1011) (MessageOf e)])%list, closed, inr tt)
    | inr (V2.Invalid error) =>
        ((t ++ [WsClose (Some 1008) error])%list, closed, inr tt)
    | inr (V2.Valid uuid address port payload) =>
        let target := Connect address port in
        if connect_ok env address port then
          if 0 <? byteLength payload then
            if write_ok env payload then
              ((t ++ [target; PipeRemoteToClient; RemoteWrite payload])%list,
               {| V2.remote := true; V2.headerParsed := true;
                  V2.ws_open := true |}, inr tt)
            else
              ((t ++ [target; PipeRemoteToClient; RemoteWrite payload;
                      WsClose (Some 1011)
                        (Prefixed "Connection failed: " (Platform WriteFailed))])%list,
               {| V2.remote := true; V2.headerParsed := true;
                  V2.ws_open := false |}, inr tt)
          else
            ((t ++ [target; PipeRemoteToClient])%list,
             {| V2.remote := true; V2.headerParsed := true;
                V2.ws_open := true |}, inr tt)
        else
          ((t ++ [target;
                  WsClose (Some 1011)
                    (Prefixed "Connection failed: " (Platform ConnectFailed))])%list,
           {| V2.remote := false; V2.headerParsed := true;
              V2.ws_open := false |}, inr tt)
    end.
Proof.
  unfold V2.on_message, V2.safeClose, try_catch, call, get_state, modify,
    connect, remote_write, emit, throw, mbind, M_bind, mret, M_ret.
  cbn [V2.initial V2.headerParsed V2.remote V2.ws_open negb].
  destruct (V2.parseVLESSHeader data env tt)
    as [[t u] [e | [err | uuid address port payload]]];
    cbn; rewrite ?app_nil_r; try reflexivity.
  destruct (connect_ok env address port); cbn.
  - destruct (0 <? byteLength payload); cbn.
    + destruct (write_ok env payload); cbn; rewrite ?app_nil_r; reflexivity.
    + rewrite ?app_nil_r. reflexivity.
  - rewrite ?app_nil_r. reflexivity.
Qed.


End sessions.

(* ===================================================================== *)
(** * Unknown ids                                                         *)
(* ===================================================================== *)

Section unknown_ids.
Import Js Rt.
Context {decoder : TextDecoder}.

Lemma not_connect_spec (ev : event) : not_connect ev = true -> is_connect ev = false.
Proof. destruct ev; first [reflexivity | discriminate]. Qed.

Lemma V1_parse_no_connect (buf : list byte) (env : World) :
  all_events not_connect (V1.parseVLESSHeader buf env).
Proof.
  unfold V1.parseVLESSHeader, slice_from. cbv zeta.
  all_events_steps ltac:(intros; reflexivity).
Qed.

(** Revision 1 awaits the lookup: a frame whose id has no record (or an
    empty one) is never a valid header. *)
Lemma V1_unknown_id_invalid (buf : list byte) (env : World)
    (store : gmap string string) :
  kv env = Some store ->
  truthy (store !! V1.bytesToUUID (take 16 (drop 1 buf))) = false ->
  exists error, result_of (V1.parseVLESSHeader buf env) tt = inr (V1.Invalid error)
    /\ ((24 <= length buf)%nat -> buf !! 0%nat = Some x00 -> error = "Invalid UUID").
Proof.
  intros Hkv Hfalsy. unfold V1.parseVLESSHeader.
  destruct (N.ltb_spec (byteLength buf) 24) as [Hlt | Hge].
  - eexists. split; [reflexivity |]. unfold byteLength in Hlt. lia.
  - unfold byteLength in Hge. rewrite result_of_read.
    destruct (strict_eq (get buf (Int 0)) 0) eqn:Hversion; cbn [negb].
    + cbn [add]. rewrite result_of_slice, slice_id by lia.
      rewrite (result_of_kv_get env store) by assumption.
      rewrite Hfalsy. cbn [negb]. eexists. split; reflexivity.
    + eexists. split; [reflexivity |]. intros _ Hv.
      rewrite (get_first _ _ Hv) in Hversion. discriminate Hversion.
Qed.

(** ... and its session closes the client without calling [connect]. *)
Lemma V1_unknown_id_never_connects (buf : list byte) (env : World)
    (store : gmap string string) :
  kv env = Some store ->
  truthy (store !! V1.bytesToUUID (take 16 (drop 1 buf))) = false ->
  events_of (V1.on_message env buf) V1.initial
  = (events_of (V1.parseVLESSHeader buf env) tt
     ++ [WsClose (Some 1008) (Reason "Invalid VLESS header")])%list
  /\ filter is_connect (events_of (V1.on_message env buf) V1.initial) = [].
Proof.
  intros Hkv Hfalsy.
  destruct (V1_unknown_id_invalid buf env store Hkv Hfalsy) as (error & Hres & _).
  assert (Hev : events_of (V1.on_message env buf) V1.initial
                = (events_of (V1.parseVLESSHeader buf env) tt
                   ++ [WsClose (Some 1008) (Reason "Invalid VLESS header")])%list).
  { unfold events_of at 1. rewrite V1_first_message.
    unfold result_of in Hres. unfold events_of.
    destruct (V1.parseVLESSHeader buf env tt) as [[t u] r].
    cbn in Hres. subst r. reflexivity. }
  split; [exact Hev |].
  rewrite Hev, filter_app.
  rewrite (all_events_none not_connect is_connect _ tt not_connect_spec
             (V1_parse_no_connect buf env)).
  reflexivity.
Qed.

End unknown_ids.

(** C2 (evaluated at the failing input) — Revision 2 does not await
    [validateUUID]: the promise it returns is truthy whatever the lookup
    finds. With a configured but empty store, the first frame of a session
    carrying an unknown id triggers the lookup and then [connect] to the
    target named in the header; the client transport is not closed. *)
Theorem C2_revision_2_connects_for_unknown_id :
  Rt.kv Samples.unknown = Some ∅
  /\ Rt.events_of (V2.on_message (decoder := Samples.ascii_decoder) Samples.unknown
                     (Wire.encode Samples.ipv4_request)) V2.initial
     = [ Rt.BufRead (Js.Int 0); Rt.BufSlice (Js.Int 1) (Js.Int 17);
         Rt.KVGet Samples.sample_uuid;
         Rt.BufRead (Js.Int 17); Rt.BufRead (Js.Int 18);
         Rt.BufRead (Js.Int 19); Rt.BufRead (Js.Int 20);
         Rt.BufRead (Js.Int 21); Rt.BufRead (Js.Int 22);
         Rt.BufRead (Js.Int 23); Rt.BufRead (Js.Int 24);
         Rt.BufRead (Js.Int 25); Rt.BufSlice (Js.Int 26) (Js.Int 44);
         Rt.Connect "198.51.100.7" 80; Rt.PipeRemoteToClient;
         Rt.RemoteWrite Samples.http_get ].
Proof.
  split; vm_compute; reflexivity.
Qed.

(* ===================================================================== *)
(** * Close codes                                                         *)
(* ===================================================================== *)

Section close_codes.
Import Js Rt.
Context {decoder : TextDecoder}.

Lemma V1_invalid_closes_1008 (env : World) (data : list byte) (error : string) :
  result_of (V1.parseVLESSHeader data env) tt = inr (V1.Invalid error) ->
  events_of (V1.on_message env data) V1.initial
  = (events_of (V1.parseVLESSHeader data env) tt
     ++ [WsClose (Some 1008) (Reason "Invalid VLESS header")])%list.
Proof.
  intros Hres. unfold events_of at 1. rewrite V1_first_message.
  unfold result_of in Hres. unfold events_of.
  destruct (V1.parseVLESSHeader data env tt) as [[t u] r].
  cbn in Hres. subst r. reflexivity.
Qed.

Lemma V1_connect_failure_closes_1011 (env : World) (data : list byte)
    (header : V1.Header) (remainingData : list byte) :
  result_of (V1.parseVLESSHeader data env) tt
  = inr (V1.Valid header remainingData) ->
  connect_ok env (V1.address header) (V1.port header) = false ->
  events_of (V1.on_message env data) V1.initial
  = (events_of (V1.parseVLESSHeader data env) tt
     ++ [Connect (V1.address header) (V1.port header);
         WsClose (Some 1011) (Reason "Failed to connect to remote server")])%list.
Proof.
  intros Hres Hconn. unfold events_of at 1. rewrite V1_first_message.
  unfold result_of in Hres. unfold events_of.
  destruct (V1.parseVLESSHeader data env tt) as [[t u] r].
  cbn in Hres. subst r. cbv zeta. rewrite Hconn. reflexivity.
Qed.

Lemma V2_invalid_closes_1008 (env : World) (data : list byte) (error : close_reason) :
  result_of (V2.parseVLESSHeader data env) tt = inr (V2.Invalid error) ->
  events_of (V2.on_message env data) V2.initial
  = (events_of (V2.parseVLESSHeader data env) tt
     ++ [WsClose (Some 1008) error])%list.
Proof.
  intros Hres. unfold events_of at 1. rewrite V2_first_message.
  unfold result_of in Hres. unfold events_of.
  destruct (V2.parseVLESSHeader data env tt) as [[t u] r].
  cbn in Hres. subst r. reflexivity.
Qed.

Lemma V2_connect_failure_closes_1011 (env : World) (data : list byte)
    (uuid address : string) (port : N) (payload : list byte) :
  result_of (V2.parseVLESSHeader data env) tt
  = inr (V2.Valid uuid address port payload) ->
  connect_ok env address port = false ->
  events_of (V2.on_message env data) V2.initial
  = (events_of (V2.parseVLESSHeader data env) tt
     ++ [Connect address port;
         WsClose (Some 1011)
           (Prefixed "Connection failed: " (Platform ConnectFailed))])%list.
Proof.
  intros Hres Hconn. unfold events_of at 1. rewrite V2_first_message.
  unfold result_of in Hres. unfold events_of.
  destruct (V2.parseVLESSHeader data env tt) as [[t u] r].
  cbn in Hres. subst r. cbv zeta. rewrite Hconn. reflexivity.
Qed.

End close_codes.

(** C4 (evaluated at the failing inputs) — The handler of revision 3
    closes nothing. Called with [Upgrade: websocket], it throws a
    [TypeError] at [getWriter()] before its [try] block, whatever the
    first frame would be: a frame with version byte 1, a well-formed
    request whose id has no record, a well-formed request whose target
    cannot be reached. It performs no call at all, so the client
    transport is closed neither with 1008 nor with 1011. The listener of
    revision 1 closes it with 1008, 1008 and 1011 on the same three
    frames; the one of revision 2 does not close it for the unknown id. *)
Theorem C4_failed_sessions_are_not_closed :
  V3.handleVLESSWebSocket (decoder := Samples.ascii_decoder)
    (Some "websocket") Samples.known (Some Samples.bad_version_frame) V3.initial
  = ([], V3.initial, inl (Rt.Platform Rt.TypeError))
  /\ V3.handleVLESSWebSocket (decoder := Samples.ascii_decoder)
       (Some "websocket") Samples.unknown
       (Some (Wire.encode Samples.ipv4_request)) V3.initial
     = ([], V3.initial, inl (Rt.Platform Rt.TypeError))
  /\ V3.handleVLESSWebSocket (decoder := Samples.ascii_decoder)
       (Some "websocket") Samples.unreachable
       (Some (Wire.encode Samples.ipv4_request)) V3.initial
     = ([], V3.initial, inl (Rt.Platform Rt.TypeError))
  /\ filter Rt.is_ws_close
       (Rt.events_of (V2.on_message (decoder := Samples.ascii_decoder)
                        Samples.unknown (Wire.encode Samples.ipv4_request))
                     V2.initial)
     = []
  /\ filter Rt.is_ws_close
       (Rt.events_of (V1.on_message (decoder := Samples.ascii_decoder)
                        Samples.known Samples.bad_version_frame) V1.initial)
     = [Rt.WsClose (Some 1008) (Rt.Reason "Invalid VLESS header")]
  /\ filter Rt.is_ws_close
       (Rt.events_of (V1.on_message (decoder := Samples.ascii_decoder)
                        Samples.unknown (Wire.encode Samples.ipv4_request))
                     V1.initial)
     = [Rt.WsClose (Some 1008) (Rt.Reason "Invalid VLESS header")]
  /\ filter Rt.is_ws_close
       (Rt.events_of (V1.on_message (decoder := Samples.ascii_decoder)
                        Samples.unreachable (Wire.encode Samples.ipv4_request))
                     V1.initial)
     = [Rt.WsClose (Some 1011) (Rt.Reason "Failed to connect to remote server")].
Proof.
  repeat split; vm_compute; reflexivity.
Qed.

(* ===================================================================== *)
(** * The acknowledgment                                                  *)
(* ===================================================================== *)


Section acknowledgment.
Import Js Rt.
Context {decoder : TextDecoder}.


Lemma not_upstream_spec (ev : event) : not_upstream ev = true -> is_upstream ev = false.
Proof. unfold not_upstream. destruct (is_upstream ev); [discriminate | reflexivity]. Qed.





End acknowledgment.


(* ===================================================================== *)
(** * Teardown                                                            *)
(* ===================================================================== *)

(** C6 (as stated, refuted) — After a first frame that opened the remote
    connection, an error event on the client transport runs a listener
    that only logs: the remote connection stays open and nothing is
    closed. *)
Lemma C6_counterexample :
  V1.remoteSocket
    (Rt.state_of (V1.on_message (decoder := Samples.ascii_decoder) Samples.known
                    (Wire.encode Samples.ipv4_request)) V1.initial)
  = true
  /\ V1.on_error
       (Rt.state_of (V1.on_message (decoder := Samples.ascii_decoder) Samples.known
                       (Wire.encode Samples.ipv4_request)) V1.initial)
     = ([], {| V1.remoteSocket := true; V1.isHeaderParsed := true |}, inr tt)
  /\ filter Rt.is_upstream
       (Rt.events_of (V1.handleVLESSConnection (decoder := Samples.ascii_decoder)
                        Samples.known
                        [V1.Message (Wire.encode Samples.ipv4_request); V1.Error])
                     V1.initial)
     = [ Rt.Connect "198.51.100.7" 80; Rt.PipeRemoteToClient;
         Rt.RemoteWrite Samples.http_get ].
Proof.
  repeat split; vm_compute; reflexivity.
Qed.

Section teardown.
Import Js Rt.
Context {S : Type}.

(** The loop on its own: what it sends, and how it ends. *)
Lemma pipe_loop_run (reads : list (V1.ReadResult * bool)) (s : S) :
  exists outcome,
    V1.pipe_loop reads s = (WsSend <$> V1.delivered reads, s, outcome)
    /\ (existsb V1.leaves_loop reads = false <-> outcome = inr V1.Suspended).
Proof.
  induction reads as [| [[value | |] ws_open] reads IH].
  - eexists. split; [reflexivity |]. split; reflexivity.
  - destruct ws_open.
    + destruct IH as (outcome & Hrun & Hout).
      exists outcome. split; [| exact Hout].
      cbn [V1.pipe_loop V1.delivered fmap list_fmap].
      rewrite run_emit, Hrun. reflexivity.
    + eexists. split; [reflexivity |]. split; discriminate.
  - eexists. split; [reflexivity |]. split; discriminate.
  - eexists. split; [reflexivity |]. split; discriminate.
Qed.

Lemma pipe_closes_client (reads : list (V1.ReadResult * bool)) (s : S) :
  existsb V1.leaves_loop reads = true ->
  V1.pipeRemoteToWebSocket reads s
  = ((WsSend <$> V1.delivered reads) ++ [WsClose None NoReason], s, inr tt)%list.
Proof.
  intros Hleaves. destruct (pipe_loop_run reads s) as (outcome & Hrun & Hout).
  unfold V1.pipeRemoteToWebSocket. rewrite run_bind. unfold try_catch.
  rewrite Hrun.
  destruct outcome as [e | [|]].
  - cbn. rewrite app_nil_r. reflexivity.
  - cbn. reflexivity.
  - destruct Hout as [_ Hout]. rewrite Hout in Hleaves by reflexivity.
    discriminate Hleaves.
Qed.

Lemma pipe_suspended (reads : list (V1.ReadResult * bool)) (s : S) :
  existsb V1.leaves_loop reads = false ->
  V1.pipeRemoteToWebSocket reads s = (WsSend <$> V1.delivered reads, s, inr tt).
Proof.
  intros Hstay. destruct (pipe_loop_run reads s) as (outcome & Hrun & Hout).
  unfold V1.pipeRemoteToWebSocket. rewrite run_bind. unfold try_catch.
  rewrite Hrun. destruct Hout as [Hout _]. rewrite (Hout Hstay).
  cbn. rewrite app_nil_r. reflexivity.
Qed.

End teardown.

(** C6 (amended) — In revision 1: when the remote connection signals end
    of stream or a read error (or a chunk finds the client transport no
    longer open), the download loop closes the client transport after the
    chunks it has forwarded, and until then it closes nothing; when the
    client transport fires its close event, the listener closes the remote
    connection if one has been opened, and has nothing to close otherwise;
    an error event on the client transport is only logged: its listener
    performs no call and leaves the session variables as they are. *)
Theorem C6_teardown (reads : list (V1.ReadResult * bool)) (st : V1.Session) :
  (existsb V1.leaves_loop reads = true ->
   V1.pipeRemoteToWebSocket reads st
   = ((Rt.WsSend <$> V1.delivered reads) ++ [Rt.WsClose None Rt.NoReason],
      st, inr tt)%list)
  /\ (existsb V1.leaves_loop reads = false ->
      V1.pipeRemoteToWebSocket reads st
      = (Rt.WsSend <$> V1.delivered reads, st, inr tt))
  /\ (V1.remoteSocket st = true -> V1.on_close st = ([Rt.RemoteClose], st, inr tt))
  /\ (V1.remoteSocket st = false -> V1.on_close st = ([], st, inr tt))
  /\ V1.on_error st = ([], st, inr tt).
Proof.
  split; [apply pipe_closes_client |].
  split; [apply pipe_suspended |].
  unfold V1.on_close, V1.on_error.
  repeat split.
  - intros Hopen. rewrite run_bind. cbn [Rt.get_state]. rewrite Hopen. reflexivity.
  - intros Hnone. rewrite run_bind. cbn [Rt.get_state]. rewrite Hnone. reflexivity.
Qed.

Lemma C6_teardown_witness :
  existsb V1.leaves_loop [(V1.Chunk Samples.http_get, true); (V1.Done, true)] = true
  /\ V1.pipeRemoteToWebSocket
       [(V1.Chunk Samples.http_get, true); (V1.Done, true)] V1.initial
     = ([Rt.WsSend Samples.http_get; Rt.WsClose None Rt.NoReason],
        V1.initial, inr tt).
Proof.
  split; [reflexivity |].
  exact (proj1 (C6_teardown [(V1.Chunk Samples.http_get, true); (V1.Done, true)]
                  V1.initial) eq_refl).
Defined.

(* ===================================================================== *)
(** * What every accepted header satisfies                                *)
(* ===================================================================== *)

Section result_rules.
Import Rt.
Context {St : Type}.

Lemma all_results_read_bind {B} (Q : B -> Prop) (buf : list byte)
    (i : Js.number) (k : Js.value -> M St B) :
  all_results Q (k (Js.get buf i)) -> all_results Q (read buf i ≫= k).
Proof. intros Hk s b Hr. rewrite result_of_read in Hr. exact (Hk s b Hr). Qed.

Lemma all_results_slice_bind {B} (Q : B -> Prop) (buf : list byte)
    (a b : Js.number) (k : list byte -> M St B) :
  all_results Q (k (Js.slice buf a b)) -> all_results Q (slice buf a b ≫= k).
Proof. intros Hk s x Hr. rewrite result_of_slice in Hr. exact (Hk s x Hr). Qed.

Lemma all_results_try_catch {A} (Q : A -> Prop) (body : M St A)
    (h : exn -> M St A) :
  all_results Q body -> (forall e, all_results Q (h e)) ->
  all_results Q (try_catch body h).
Proof.
  intros Hb Hh s a Hr. unfold result_of, try_catch in Hr.
  destruct (body s) as [[t s'] [e | a']] eqn:E.
  - specialize (Hh e s' a). unfold result_of in Hh.
    destruct (h e s') as [[t' s''] r]. exact (Hh Hr).
  - apply (Hb s). unfold result_of. rewrite E. exact Hr.
Qed.

Lemma all_results_getUint8_bind {B} (Q : B -> Prop) (buf : list byte)
    (offset : N) (k : N -> M St B) :
  (forall b, buf !! N.to_nat offset = Some b -> all_results Q (k (Byte.to_N b))) ->
  all_results Q (V3.getUint8 buf offset ≫= k).
Proof.
  intros Hk s x Hr. rewrite result_of_bind in Hr. unfold V3.getUint8 in Hr.
  destruct (buf !! N.to_nat offset) as [b |] eqn:E; [| discriminate Hr].
  exact (Hk b eq_refl _ x Hr).
Qed.

Lemma all_results_getUint16_bind {B} (Q : B -> Prop) (buf : list byte)
    (offset : N) (k : N -> M St B) :
  (forall hi lo, buf !! N.to_nat offset = Some hi ->
                 buf !! N.to_nat (offset + 1) = Some lo ->
                 all_results Q (k (Byte.to_N hi * 256 + Byte.to_N lo))) ->
  all_results Q (V3.getUint16 buf offset ≫= k).
Proof.
  intros Hk s x Hr. rewrite result_of_bind in Hr. unfold V3.getUint16 in Hr.
  destruct (buf !! N.to_nat offset) as [hi |] eqn:E; [| discriminate Hr].
  destruct (buf !! N.to_nat (offset + 1)) as [lo |] eqn:E'; [| discriminate Hr].
  exact (Hk hi lo eq_refl eq_refl _ x Hr).
Qed.

End result_rules.

Section accepted_headers.
Import Js Rt.
Context {decoder : TextDecoder}.

Lemma get_bounded (buf : list byte) (i : number) : ToInt32 (get buf i) < 256.
Proof.
  destruct i as [n |]; cbn; [| lia].
  destruct (buf !! N.to_nat n) as [b |]; cbn; [| lia].
  pose proof (Byte.to_N_bounded b). lia.
Qed.

Lemma shl8_or_bounded (buf : list byte) (i j : number) :
  shl8_or (get buf i) (get buf j) < 65536.
Proof.
  unfold shl8_or. rewrite lor_shl8 by apply get_bounded.
  pose proof (get_bounded buf i). pose proof (get_bounded buf j). lia.
Qed.

Lemma slice_from_suffix (buf : list byte) (start : number) :
  Js.slice buf start (Int (byteLength buf))
  = drop (Nat.min (N.to_nat (ToIntegerOrInfinity start)) (length buf)) buf.
Proof.
  unfold Js.slice, byteLength. cbn [ToIntegerOrInfinity].
  rewrite Nat2N.id, Nat.min_id. apply take_ge. rewrite length_drop. lia.
Qed.

End accepted_headers.

Ltac all_results_values :=
  repeat first
    [ apply all_results_throw
    | apply all_results_ret
    | apply all_results_read_bind
    | apply all_results_slice_bind
    | apply all_results_try_catch; [| intros ?]
    | apply all_results_getUint16_bind; intros ? ? ? ?
    | apply all_results_getUint8_bind; intros ? ?
    | apply all_results_view_bind; intros ?
    | apply all_results_bind; intros ?
    | match goal with
      | |- Rt.all_results _ (if ?b then _ else _) => destruct b
      | |- Rt.all_results _ (match ?x with _ => _ end) => destruct x
      end ].

(* ===================================================================== *)
(** * Malformed frames, rejected before the lookup                        *)
(* ===================================================================== *)

Section malformed_v3.
Import Js Rt.
Context {decoder : TextDecoder}.

Lemma V3_bad_version (buf : list byte) (v : byte) (s : unit) :
  buf !! 0%nat = Some v -> v <> x00 ->
  V3.parseVLESSHeader buf s
  = ([BufRead (Int 0)], s, inr (V3.Failed "Invalid VLESS version")).
Proof.
  intros Hv Hnz. unfold V3.parseVLESSHeader.
  rewrite run_bind. unfold V3.getUint8. change (N.to_nat 0) with 0%nat.
  rewrite Hv, run_emit. cbn. rewrite (to_N_nonzero _ Hnz). reflexivity.
Qed.

(** The shortest header revision 3 accepts has 23 bytes: 22 up to the
    address type, and the length byte of a domain name. *)
Lemma V3_parsed_length (buf : list byte) :
  all_results (fun hd => match hd with
                         | V3.Parsed _ _ _ _ => (23 <= length buf)%nat
                         | V3.Failed _ => True
                         end)
              (V3.parseVLESSHeader buf).
Proof.
  unfold V3.parseVLESSHeader, slice_from. cbv zeta.
  all_results_values; try exact I;
    repeat match goal with
           | H : _ !! _ = Some _ |- _ => apply lookup_lt_Some in H
           | H : _ <= byteLength _ |- _ => unfold byteLength in H
           end;
    lia.
Qed.

End malformed_v3.

(** C10 (as stated, refuted) — The parser of revision 3 has no 24-byte
    rule: the 23-byte header with an empty domain name and no payload is
    shorter than 24 bytes and is accepted. *)
Lemma C10_counterexample :
  (length (Wire.encode Samples.empty_domain_request) < 24)%nat
  /\ Rt.result_of (V3.parseVLESSHeader (decoder := Samples.ascii_decoder)
                     (Wire.encode Samples.empty_domain_request)) tt
     = inr (V3.Parsed Samples.sample_uuid "" 80 []).
Proof.
  split; [vm_compute; lia | vm_compute; reflexivity].
Qed.

(** C10 (amended) — A buffer that is shorter than 24 bytes, or whose
    first (version) byte is not zero, is rejected by the parsers of
    revisions 1 and 2 before the credential store is consulted: the
    result is invalid, and the whole run of the parser (events and
    result) is the same under any two stores and records no lookup. The
    parser of revision 3 has no access to the store and records no
    lookup on any buffer; it rejects a buffer whose version byte is not
    zero, and it accepts no buffer shorter than 23 bytes. *)
Theorem C10_malformed_rejected_before_lookup {decoder : Rt.TextDecoder}
    (buf : list byte) (env1 env2 : Rt.World) :
  (length buf < 24)%nat \/ (exists v, buf !! 0%nat = Some v /\ v <> x00) ->
  V1.parseVLESSHeader buf env1 tt = V1.parseVLESSHeader buf env2 tt
  /\ filter Rt.is_kv_get (Rt.events_of (V1.parseVLESSHeader buf env1) tt) = []
  /\ (exists error,
        Rt.result_of (V1.parseVLESSHeader buf env1) tt = inr (V1.Invalid error))
  /\ V2.parseVLESSHeader buf env1 tt = V2.parseVLESSHeader buf env2 tt
  /\ filter Rt.is_kv_get (Rt.events_of (V2.parseVLESSHeader buf env1) tt) = []
  /\ (exists error,
        Rt.result_of (V2.parseVLESSHeader buf env1) tt = inr (V2.Invalid error))
  /\ filter Rt.is_kv_get (Rt.events_of (V3.parseVLESSHeader buf) tt) = []
  /\ ((exists v, buf !! 0%nat = Some v /\ v <> x00) ->
      Rt.result_of (V3.parseVLESSHeader buf) tt
      = inr (V3.Failed "Invalid VLESS version"))
  /\ ((length buf < 23)%nat ->
      forall uuid address port payload,
        Rt.result_of (V3.parseVLESSHeader buf) tt
        <> inr (V3.Parsed uuid address port payload)).
Proof.
  intros Hbad.
  assert (Hv3 : filter Rt.is_kv_get (Rt.events_of (V3.parseVLESSHeader buf) tt) = []).
  { apply (all_events_none Rt.not_kv_get); [| apply V3_parse_no_lookup].
    intros [] Hev; first [reflexivity | discriminate Hev]. }
  assert (Hversion : (exists v, buf !! 0%nat = Some v /\ v <> x00) ->
            Rt.result_of (V3.parseVLESSHeader buf) tt
            = inr (V3.Failed "Invalid VLESS version")).
  { intros (v & Hv & Hnz). unfold Rt.result_of.
    rewrite (V3_bad_version buf v tt Hv Hnz). reflexivity. }
  assert (Hshortest : (length buf < 23)%nat ->
            forall uuid address port payload,
              Rt.result_of (V3.parseVLESSHeader buf) tt
              <> inr (V3.Parsed uuid address port payload)).
  { intros Hlt uuid address port payload Hres.
    pose proof (V3_parsed_length buf tt _ Hres) as Hlen. cbn in Hlen. lia. }
  destruct (Nat.lt_ge_cases (length buf) 24) as [Hshort | Hlong].
  - unfold Rt.events_of at 1 2. unfold Rt.result_of at 1 2.
    rewrite !V1_short_buffer, !V2_short_buffer by assumption.
    repeat split; try reflexivity; try assumption; eexists; reflexivity.
  - destruct Hbad as [Hlt | (v & Hv & Hnz)]; [lia |].
    unfold Rt.events_of at 1 2. unfold Rt.result_of at 1 2.
    rewrite !(V1_bad_version buf v), !(V2_bad_version buf v) by assumption.
    repeat split; try reflexivity; try assumption; eexists; reflexivity.
Qed.

Lemma C10_malformed_rejected_before_lookup_witness :
  (exists v, Samples.bad_version_frame !! 0%nat = Some v /\ v <> x00)
  /\ V1.parseVLESSHeader (decoder := Samples.ascii_decoder)
       Samples.bad_version_frame Samples.known tt
     = V1.parseVLESSHeader (decoder := Samples.ascii_decoder)
         Samples.bad_version_frame Samples.unknown tt.
Proof.
  assert (Hbad : exists v, Samples.bad_version_frame !! 0%nat = Some v /\ v <> x00)
    by (exists x01; split; [reflexivity | discriminate]).
  split; [exact Hbad |].
  exact (proj1 (@C10_malformed_rejected_before_lookup Samples.ascii_decoder
                  Samples.bad_version_frame Samples.known Samples.unknown
                  (or_intror Hbad))).
Defined.

(** X1 — Whatever the frame, the port of a header that a parser accepts
    is a 16-bit number: below 65536 in all three revisions (0 is not
    excluded). *)
Theorem accepted_port_is_16_bit {decoder : Rt.TextDecoder}
    (buf : list byte) (env : Rt.World) :
  Rt.all_results (fun r => match r with
                           | V1.Valid header _ => V1.port header < 65536
                           | V1.Invalid _ => True
                           end)
                 (V1.parseVLESSHeader buf env)
  /\ Rt.all_results (fun r => match r with
                              | V2.Valid _ _ port _ => port < 65536
                              | V2.Invalid _ => True
                              end)
                    (V2.parseVLESSHeader buf env)
  /\ Rt.all_results (fun r => match r with
                              | V3.Parsed _ _ port _ => port < 65536
                              | V3.Failed _ => True
                              end)
                    (V3.parseVLESSHeader buf).
Proof.
  split; [| split].
  - unfold V1.parseVLESSHeader, Rt.slice_from. cbv zeta.
    all_results_values; first [exact I | apply shl8_or_bounded].
  - unfold V2.parseVLESSHeader, Rt.slice_from. cbv zeta.
    all_results_values; first [exact I | apply shl8_or_bounded].
  - unfold V3.parseVLESSHeader, Rt.slice_from. cbv zeta.
    all_results_values; try exact I;
      match goal with
      | |- Byte.to_N ?hi * 256 + Byte.to_N ?lo < _ =>
          pose proof (Byte.to_N_bounded hi); pose proof (Byte.to_N_bounded lo); lia
      end.
Qed.

(** X2 — The data a revision-1 or revision-2 parser hands on as initial
    payload is always a suffix of the frame it was given: bytes are
    never reordered, altered or invented, only a prefix is cut off. *)
Theorem payload_is_suffix_of_frame {decoder : Rt.TextDecoder}
    (buf : list byte) (env : Rt.World) :
  Rt.all_results (fun r => match r with
                           | V1.Valid _ remainingData => remainingData `suffix_of` buf
                           | V1.Invalid _ => True
                           end)
                 (V1.parseVLESSHeader buf env)
  /\ Rt.all_results (fun r => match r with
                              | V2.Valid _ _ _ payload => payload `suffix_of` buf
                              | V2.Invalid _ => True
                              end)
                    (V2.parseVLESSHeader buf env).
Proof.
  split.
  - unfold V1.parseVLESSHeader, Rt.slice_from. cbv zeta.
    all_results_values; try exact I;
      rewrite slice_from_suffix; apply suffix_drop.
  - unfold V2.parseVLESSHeader, Rt.slice_from. cbv zeta.
    all_results_values; try exact I;
      rewrite slice_from_suffix; apply suffix_drop.
Qed.


(* ===================================================================== *)
(** * The command byte                                                    *)
(* ===================================================================== *)

Section command_byte.
Import Js Rt.
Context {decoder : TextDecoder}.

Lemma to_N_not_one (c : byte) : c <> x01 -> (Byte.to_N c =? 1) = false.
Proof.
  intros Hc. apply N.eqb_neq. intros Hz. apply Hc.
  apply (f_equal Byte.of_N) in Hz. rewrite Byte.of_to_N in Hz.
  cbn in Hz. congruence.
Qed.

Lemma V1_other_command (buf id addons rest : list byte) (a c : byte)
    (env : World) (store : gmap string string) :
  buf = (x00 :: id ++ a :: addons ++ c :: rest)%list ->
  length id = 16%nat -> Byte.to_N a = N.of_nat (length addons) -> c <> x01 ->
  (24 <= length buf)%nat ->
  kv env = Some store -> truthy (store !! V1.bytesToUUID id) = true ->
  result_of (V1.parseVLESSHeader buf env) tt
  = inr (V1.Invalid "Only TCP is supported").
Proof.
  intros Hbuf Hid Ha Hc Hlen Hkv Hacc. unfold V1.parseVLESSHeader.
  destruct (N.ltb_spec (byteLength buf) 24) as [Hshort | _];
    [unfold byteLength in Hshort; lia |].
  rewrite result_of_read, (get_at buf [] (id ++ a :: addons ++ c :: rest) x00 0)
    by (first [exact Hbuf | reflexivity]).
  cbn [strict_eq N.eqb negb Byte.to_N add].
  rewrite result_of_slice.
  rewrite (slice_at buf [x00] id (a :: addons ++ c :: rest))
    by (first [exact Hbuf | reflexivity | rewrite Hid; reflexivity]).
  rewrite (result_of_kv_get env store) by assumption.
  rewrite Hacc. cbn [negb].
  rewrite result_of_read.
  rewrite (get_at buf (x00 :: id) (addons ++ c :: rest) a (0 + 1 + 16))
    by (first [subst buf; rewrite <- app_comm_cons; reflexivity
              | cbn [length]; rewrite Hid; reflexivity]).
  cbn [ToNumber add].
  rewrite result_of_read.
  rewrite (get_at buf (x00 :: id ++ a :: addons) rest c (0 + 1 + 16 + 1 + Byte.to_N a))
    by (first [subst buf; cbn [app]; rewrite <- !app_assoc; reflexivity
              | cbn [length]; rewrite length_app; cbn [length]; rewrite Hid, Ha; lia]).
  cbn [strict_eq]. rewrite (to_N_not_one c Hc). reflexivity.
Qed.

Lemma V2_other_command (buf id addons rest : list byte) (a c : byte)
    (env : World) :
  buf = (x00 :: id ++ a :: addons ++ c :: rest)%list ->
  length id = 16%nat -> Byte.to_N a = N.of_nat (length addons) -> c <> x01 ->
  (24 <= length buf)%nat ->
  result_of (V2.parseVLESSHeader buf env) tt
  = inr (V2.Invalid (Reason ("Unsupported command: "
                             +:+ Number_toString 10 (Byte.to_N c)))).
Proof.
  intros Hbuf Hid Ha Hc Hlen. unfold V2.parseVLESSHeader.
  apply result_of_try_catch.
  destruct (N.ltb_spec (byteLength buf) 24) as [Hshort | _];
    [unfold byteLength in Hshort; lia |].
  rewrite result_of_read, (get_at buf [] (id ++ a :: addons ++ c :: rest) x00 0)
    by (first [exact Hbuf | reflexivity]).
  cbn [strict_eq N.eqb negb Byte.to_N add].
  rewrite result_of_slice.
  match goal with
  | |- result_of (_ ≫= ?k) tt = _ =>
      destruct (V2_validity_step env
                  (V2.bytesToUUID (Js.slice buf (Int (0 + 1)) (Int (0 + 1 + 16))))
                  k tt) as (v & Hv & ->)
  end.
  rewrite Hv. cbn [negb].
  rewrite result_of_read.
  rewrite (get_at buf (x00 :: id) (addons ++ c :: rest) a (0 + 1 + 16))
    by (first [subst buf; rewrite <- app_comm_cons; reflexivity
              | cbn [length]; rewrite Hid; reflexivity]).
  cbn [ToNumber add].
  rewrite result_of_read.
  rewrite (get_at buf (x00 :: id ++ a :: addons) rest c (0 + 1 + 16 + 1 + Byte.to_N a))
    by (first [subst buf; cbn [app]; rewrite <- !app_assoc; reflexivity
              | cbn [length]; rewrite length_app; cbn [length]; rewrite Hid, Ha; lia]).
  cbn [strict_eq]. rewrite (to_N_not_one c Hc). reflexivity.
Qed.

Lemma V3_other_command (buf id addons rest : list byte) (a c : byte) :
  buf = (x00 :: id ++ a :: addons ++ c :: rest)%list ->
  length id = 16%nat -> Byte.to_N a = N.of_nat (length addons) -> c <> x01 ->
  result_of (V3.parseVLESSHeader buf) tt
  = inr (V3.Failed "Unsupported command: only TCP is allowed").
Proof.
  intros Hbuf Hid Ha Hc. unfold V3.parseVLESSHeader.
  rewrite (result_of_getUint8 buf [] (id ++ a :: addons ++ c :: rest) x00 0)
    by (first [exact Hbuf | reflexivity]).
  cbn [Byte.to_N N.eqb negb].
  rewrite (result_of_view buf [x00] id (a :: addons ++ c :: rest))
    by (first [exact Hbuf | reflexivity | rewrite Hid; reflexivity]).
  rewrite (result_of_getUint8 buf (x00 :: id) (addons ++ c :: rest) a (0 + 1 + 16))
    by (first [subst buf; rewrite <- app_comm_cons; reflexivity
              | cbn [length]; rewrite Hid; reflexivity]).
  rewrite (result_of_getUint8 buf (x00 :: id ++ a :: addons) rest c
             (0 + 1 + 16 + (1 + Byte.to_N a)))
    by (first [subst buf; cbn [app]; rewrite <- !app_assoc; reflexivity
              | cbn [length]; rewrite length_app; cbn [length]; rewrite Hid, Ha; lia]).
  rewrite (to_N_not_one c Hc). reflexivity.
Qed.

End command_byte.

(** X4 — Only the TCP command is served: a frame with version 0 and a
    known id whose command byte (the byte after the add-ons) is anything
    but 1 is refused by the parser of every revision, whatever follows
    the command byte. *)
Theorem only_tcp_command_is_served {decoder : Rt.TextDecoder}
    (buf id addons rest : list byte) (a c : byte)
    (env : Rt.World) (store : gmap string string) :
  buf = (x00 :: id ++ a :: addons ++ c :: rest)%list ->
  length id = 16%nat -> Byte.to_N a = N.of_nat (length addons) -> c <> x01 ->
  (24 <= length buf)%nat ->
  Rt.kv env = Some store -> Rt.truthy (store !! V1.bytesToUUID id) = true ->
  Rt.result_of (V1.parseVLESSHeader buf env) tt
  = inr (V1.Invalid "Only TCP is supported")
  /\ Rt.result_of (V2.parseVLESSHeader buf env) tt
     = inr (V2.Invalid (Rt.Reason ("Unsupported command: "
                                   +:+ Js.Number_toString 10 (Byte.to_N c))))
  /\ Rt.result_of (V3.parseVLESSHeader buf) tt
     = inr (V3.Failed "Unsupported command: only TCP is allowed").
Proof.
  intros Hbuf Hid Ha Hc Hlen Hkv Hacc. split; [| split].
  - exact (V1_other_command buf id addons rest a c env store
             Hbuf Hid Ha Hc Hlen Hkv Hacc).
  - exact (V2_other_command buf id addons rest a c env Hbuf Hid Ha Hc Hlen).
  - exact (V3_other_command buf id addons rest a c Hbuf Hid Ha Hc).
Qed.

Lemma only_tcp_command_is_served_witness :
  Rt.result_of (V1.parseVLESSHeader (decoder := Samples.ascii_decoder)
                  Samples.udp_frame Samples.known) tt
  = inr (V1.Invalid "Only TCP is supported")
  /\ Rt.result_of (V2.parseVLESSHeader (decoder := Samples.ascii_decoder)
                     Samples.udp_frame Samples.known) tt
     = inr (V2.Invalid (Rt.Reason "Unsupported command: 2"))
  /\ Rt.result_of (V3.parseVLESSHeader (decoder := Samples.ascii_decoder)
                     Samples.udp_frame) tt
     = inr (V3.Failed "Unsupported command: only TCP is allowed").
Proof.
  exact (only_tcp_command_is_served (decoder := Samples.ascii_decoder)
           Samples.udp_frame Samples.sample_id []
           [x00; x50; x01; x01; x02; x03; x04] x00 x02
           Samples.known Samples.known_store
           eq_refl eq_refl eq_refl ltac:(discriminate) ltac:(cbn; lia)
           eq_refl eq_refl).
Defined.

(* ===================================================================== *)
(** * The credential store and the parsers' answers                       *)
(* ===================================================================== *)

Section store_dependence.
Import Js Rt.
Context {decoder : TextDecoder}.

Lemma result_of_try_catch_ret {St A} (body : M St A) (f : exn -> A) (s : St) :
  result_of (try_catch body (fun e => mret (f e))) s
  = match result_of body s with
    | inl e => inr (f e)
    | inr a => inr a
    end.
Proof.
  unfold result_of, try_catch. destruct (body s) as [[t s'] [e | a]]; reflexivity.
Qed.

Lemma result_of_try_catch_congr {St A} (body body' : M St A) (f : exn -> A)
    (s : St) :
  result_of body s = result_of body' s ->
  result_of (try_catch body (fun e => mret (f e))) s
  = result_of (try_catch body' (fun e => mret (f e))) s.
Proof. intros H. rewrite !result_of_try_catch_ret, H. reflexivity. Qed.

End store_dependence.

(** X5 — Revision 1 consults the store for one thing only: whether the
    frame's id has a non-empty record. Two stores that agree on that
    (whatever the record holds, whatever else they hold) give the same
    parse result for the frame. *)
Theorem V1_result_depends_on_record_presence_only {decoder : Rt.TextDecoder}
    (buf : list byte) (env1 env2 : Rt.World) (store1 store2 : gmap string string) :
  Rt.kv env1 = Some store1 -> Rt.kv env2 = Some store2 ->
  Rt.truthy (store1 !! V1.bytesToUUID (take 16 (drop 1 buf)))
  = Rt.truthy (store2 !! V1.bytesToUUID (take 16 (drop 1 buf))) ->
  Rt.result_of (V1.parseVLESSHeader buf env1) tt
  = Rt.result_of (V1.parseVLESSHeader buf env2) tt.
Proof.
  intros Hkv1 Hkv2 Hsame. unfold V1.parseVLESSHeader.
  destruct (N.ltb_spec (Js.byteLength buf) 24) as [_ | Hge]; [reflexivity |].
  unfold Js.byteLength in Hge.
  rewrite !result_of_read.
  destruct (Js.strict_eq (Js.get buf (Js.Int 0)) 0); cbn [negb]; [| reflexivity].
  cbn [Js.add]. rewrite !result_of_slice, slice_id by lia.
  rewrite (result_of_kv_get env1 store1), (result_of_kv_get env2 store2)
    by assumption.
  rewrite Hsame. reflexivity.
Qed.

(** The sample frame parses alike against two stores that both hold a
    non-empty record under the sample id and differ in everything else. *)
Lemma V1_result_depends_on_record_presence_only_witness :
  Rt.result_of (V1.parseVLESSHeader (decoder := Samples.ascii_decoder)
                  (Wire.encode Samples.ipv4_request) Samples.known) tt
  = Rt.result_of (V1.parseVLESSHeader (decoder := Samples.ascii_decoder)
                    (Wire.encode Samples.ipv4_request) Samples.busy) tt.
Proof.
  exact (V1_result_depends_on_record_presence_only
           (decoder := Samples.ascii_decoder)
           (Wire.encode Samples.ipv4_request) Samples.known Samples.busy
           Samples.known_store Samples.busy_store eq_refl eq_refl
           ltac:(vm_compute; reflexivity)).
Defined.

(** X6 — In revision 2 the answer of the parser does not depend on the
    credential store at all: for every frame, any two environments
    (store bound or not, record present or not) give the same result. *)
Theorem V2_result_ignores_the_store {decoder : Rt.TextDecoder}
    (buf : list byte) (env1 env2 : Rt.World) :
  Rt.result_of (V2.parseVLESSHeader buf env1) tt
  = Rt.result_of (V2.parseVLESSHeader buf env2) tt.
Proof.
  unfold V2.parseVLESSHeader. apply result_of_try_catch_congr.
  destruct (N.ltb_spec (Js.byteLength buf) 24) as [_ | Hge]; [reflexivity |].
  rewrite !result_of_read.
  destruct (Js.strict_eq (Js.get buf (Js.Int 0)) 0); cbn [negb]; [| reflexivity].
  rewrite !result_of_slice.
  match goal with
  | |- Rt.result_of (_ ≫= ?k) tt = _ =>
      destruct (V2_validity_step env1
                  (V2.bytesToUUID (Js.slice buf (Js.add (Js.Int 0) (Js.Int 1))
                                     (Js.add (Js.add (Js.Int 0) (Js.Int 1)) (Js.Int 16))))
                  k tt) as (v1 & Hv1 & ->);
      destruct (V2_validity_step env2
                  (V2.bytesToUUID (Js.slice buf (Js.add (Js.Int 0) (Js.Int 1))
                                     (Js.add (Js.add (Js.Int 0) (Js.Int 1)) (Js.Int 16))))
                  k tt) as (v2 & Hv2 & ->)
  end.
  rewrite Hv1, Hv2. reflexivity.
Qed.

(* ===================================================================== *)
(** * A domain header that stops before its length byte                   *)
(* ===================================================================== *)

Section missing_domain_length.
Import Js Rt.
Context {decoder : TextDecoder}.

Lemma get_past (buf : list byte) (n : N) :
  (length buf <= N.to_nat n)%nat -> get buf (Int n) = None.
Proof.
  intros Hn. unfold get. rewrite lookup_ge_None_2 by exact Hn. reflexivity.
Qed.

Lemma slice_to_NaN (buf : list byte) (start : number) : Js.slice buf start NaN = [].
Proof. unfold Js.slice. cbn [ToIntegerOrInfinity]. reflexivity. Qed.

Lemma slice_from_NaN (buf : list byte) : Js.slice buf NaN (Int (byteLength buf)) = buf.
Proof. rewrite slice_from_suffix. reflexivity. Qed.

Ltac at_index Hbuf Hid Ha :=
  first [ exact Hbuf
        | subst; repeat (progress (cbn [app]; rewrite <- ?app_assoc)); reflexivity
        | repeat (progress (cbn [length]; rewrite ?length_app)); lia ].

Lemma V1_missing_domain_length (buf id addons : list byte) (a hi lo : byte)
    (env : World) (store : gmap string string) :
  buf = (x00 :: id ++ a :: addons ++ [x01; hi; lo; x02])%list ->
  length id = 16%nat -> Byte.to_N a = N.of_nat (length addons) ->
  (24 <= length buf)%nat ->
  kv env = Some store -> truthy (store !! V1.bytesToUUID id) = true ->
  result_of (V1.parseVLESSHeader buf env) tt
  = inr (V1.Valid {| V1.version := Some 0;
                     V1.uuid := V1.bytesToUUID id;
                     V1.command := Some 1;
                     V1.port := 256 * Byte.to_N hi + Byte.to_N lo;
                     V1.addressType := Some 2;
                     V1.address := decode [] |}
                  buf).
Proof.
  intros Hbuf Hid Ha Hlen Hkv Hacc. unfold V1.parseVLESSHeader.
  destruct (N.ltb_spec (byteLength buf) 24) as [Hshort | _];
    [unfold byteLength in Hshort; lia |].
  rewrite result_of_read,
    (get_at buf [] (id ++ a :: addons ++ [x01; hi; lo; x02]) x00 0)
    by (first [exact Hbuf | reflexivity]).
  cbn [strict_eq N.eqb negb Byte.to_N add].
  rewrite result_of_slice.
  rewrite (slice_at buf [x00] id (a :: addons ++ [x01; hi; lo; x02]))
    by (first [exact Hbuf | reflexivity | rewrite Hid; reflexivity]).
  rewrite (result_of_kv_get env store) by assumption.
  rewrite Hacc. cbn [negb].
  rewrite result_of_read.
  rewrite (get_at buf (x00 :: id) (addons ++ [x01; hi; lo; x02]) a (0 + 1 + 16))
    by at_index Hbuf Hid Ha.
  cbn [ToNumber add].
  rewrite result_of_read.
  rewrite (get_at buf (x00 :: id ++ a :: addons) [hi; lo; x02] x01
             (0 + 1 + 16 + 1 + Byte.to_N a))
    by at_index Hbuf Hid Ha.
  cbn [strict_eq N.eqb negb Byte.to_N Pos.eqb].
  rewrite result_of_read.
  rewrite (get_at buf (x00 :: id ++ a :: addons ++ [x01]) [lo; x02] hi
             (0 + 1 + 16 + 1 + Byte.to_N a + 1))
    by at_index Hbuf Hid Ha.
  rewrite result_of_read.
  rewrite (get_at buf (x00 :: id ++ a :: addons ++ [x01; hi]) [x02] lo
             (0 + 1 + 16 + 1 + Byte.to_N a + 1 + 1))
    by at_index Hbuf Hid Ha.
  rewrite shl8_or_bytes.
  rewrite result_of_read.
  rewrite (get_at buf (x00 :: id ++ a :: addons ++ [x01; hi; lo]) [] x02
             (0 + 1 + 16 + 1 + Byte.to_N a + 1 + 2))
    by at_index Hbuf Hid Ha.
  cbn [strict_eq N.eqb negb Byte.to_N Pos.eqb].
  rewrite result_of_read.
  rewrite get_past
    by (subst buf; cbn [length]; rewrite !length_app; cbn [length];
        rewrite length_app; cbn [length]; lia).
  cbn [ToNumber add].
  rewrite result_of_slice, slice_to_NaN.
  unfold slice_from. rewrite result_of_slice, slice_from_NaN.
  reflexivity.
Qed.

Lemma V2_missing_domain_length (buf id addons : list byte) (a hi lo : byte)
    (env : World) :
  buf = (x00 :: id ++ a :: addons ++ [x01; hi; lo; x02])%list ->
  length id = 16%nat -> Byte.to_N a = N.of_nat (length addons) ->
  (24 <= length buf)%nat ->
  result_of (V2.parseVLESSHeader buf env) tt
  = inr (V2.Valid (V1.bytesToUUID id) (decode [])
                  (256 * Byte.to_N hi + Byte.to_N lo) buf).
Proof.
  intros Hbuf Hid Ha Hlen. unfold V2.parseVLESSHeader.
  apply result_of_try_catch.
  destruct (N.ltb_spec (byteLength buf) 24) as [Hshort | _];
    [unfold byteLength in Hshort; lia |].
  rewrite result_of_read,
    (get_at buf [] (id ++ a :: addons ++ [x01; hi; lo; x02]) x00 0)
    by (first [exact Hbuf | reflexivity]).
  cbn [strict_eq N.eqb negb Byte.to_N add].
  rewrite result_of_slice.
  rewrite (slice_at buf [x00] id (a :: addons ++ [x01; hi; lo; x02]))
    by (first [exact Hbuf | reflexivity | rewrite Hid; reflexivity]).
  match goal with
  | |- result_of (_ ≫= ?k) tt = _ =>
      destruct (V2_validity_step env (V2.bytesToUUID id) k tt) as (v & Hv & ->)
  end.
  rewrite Hv. cbn [negb].
  rewrite result_of_read.
  rewrite (get_at buf (x00 :: id) (addons ++ [x01; hi; lo; x02]) a (0 + 1 + 16))
    by at_index Hbuf Hid Ha.
  cbn [ToNumber add].
  rewrite result_of_read.
  rewrite (get_at buf (x00 :: id ++ a :: addons) [hi; lo; x02] x01
             (0 + 1 + 16 + 1 + Byte.to_N a))
    by at_index Hbuf Hid Ha.
  cbn [strict_eq N.eqb negb Byte.to_N Pos.eqb].
  rewrite result_of_read.
  rewrite (get_at buf (x00 :: id ++ a :: addons ++ [x01]) [lo; x02] hi
             (0 + 1 + 16 + 1 + Byte.to_N a + 1))
    by at_index Hbuf Hid Ha.
  rewrite result_of_read.
  rewrite (get_at buf (x00 :: id ++ a :: addons ++ [x01; hi]) [x02] lo
             (0 + 1 + 16 + 1 + Byte.to_N a + 1 + 1))
    by at_index Hbuf Hid Ha.
  rewrite shl8_or_bytes.
  rewrite result_of_read.
  rewrite (get_at buf (x00 :: id ++ a :: addons ++ [x01; hi; lo]) [] x02
             (0 + 1 + 16 + 1 + Byte.to_N a + 1 + 2))
    by at_index Hbuf Hid Ha.
  cbn [strict_eq N.eqb negb Byte.to_N Pos.eqb].
  rewrite result_of_read.
  rewrite get_past
    by (subst buf; cbn [length]; rewrite !length_app; cbn [length];
        rewrite length_app; cbn [length]; lia).
  cbn [ToNumber add].
  rewrite result_of_slice, slice_to_NaN.
  unfold slice_from. rewrite result_of_slice, slice_from_NaN.
  reflexivity.
Qed.

Lemma result_of_getUint8_outside {St B} (buf : list byte) (n : N)
    (k : N -> M St B) (s : St) :
  (length buf <= N.to_nat n)%nat ->
  result_of (V3.getUint8 buf n ≫= k) s = inl (Platform RangeError).
Proof.
  intros Hn. rewrite result_of_bind. unfold V3.getUint8.
  rewrite lookup_ge_None_2 by exact Hn. reflexivity.
Qed.

Lemma V3_missing_domain_length (buf id addons : list byte) (a hi lo : byte) :
  buf = (x00 :: id ++ a :: addons ++ [x01; hi; lo; x02])%list ->
  length id = 16%nat -> Byte.to_N a = N.of_nat (length addons) ->
  result_of (V3.parseVLESSHeader buf) tt = inl (Platform RangeError).
Proof.
  intros Hbuf Hid Ha. unfold V3.parseVLESSHeader.
  rewrite (result_of_getUint8 buf [] (id ++ a :: addons ++ [x01; hi; lo; x02]) x00 0)
    by (first [exact Hbuf | reflexivity]).
  cbn [Byte.to_N N.eqb negb].
  rewrite (result_of_view buf [x00] id (a :: addons ++ [x01; hi; lo; x02]))
    by (first [exact Hbuf | reflexivity | rewrite Hid; reflexivity]).
  rewrite (result_of_getUint8 buf (x00 :: id) (addons ++ [x01; hi; lo; x02]) a
             (0 + 1 + 16))
    by at_index Hbuf Hid Ha.
  rewrite (result_of_getUint8 buf (x00 :: id ++ a :: addons) [hi; lo; x02] x01
             (0 + 1 + 16 + (1 + Byte.to_N a)))
    by at_index Hbuf Hid Ha.
  cbn [Byte.to_N N.eqb negb Pos.eqb].
  rewrite (result_of_getUint16 buf (x00 :: id ++ a :: addons ++ [x01]) [x02] hi lo
             (0 + 1 + 16 + (1 + Byte.to_N a) + 1))
    by at_index Hbuf Hid Ha.
  rewrite (result_of_getUint8 buf (x00 :: id ++ a :: addons ++ [x01; hi; lo]) [] x02
             (0 + 1 + 16 + (1 + Byte.to_N a) + 1 + 2))
    by at_index Hbuf Hid Ha.
  cbn [Byte.to_N N.eqb negb Pos.eqb].
  apply result_of_getUint8_outside.
  subst buf; cbn [length]; rewrite !length_app; cbn [length];
    rewrite length_app; cbn [length]; lia.
Qed.

End missing_domain_length.

(** X7 — A domain header (version 0, known id, command 1) that ends
    with the address-type byte, so that the length byte of the name is
    missing, is accepted by revisions 1 and 2: the address is the decoding
    of no bytes and the data handed on as payload is the whole frame,
    header included. Revision 3 answers the same frame with a
    [RangeError]. *)
Theorem missing_domain_length_hands_on_whole_frame {decoder : Rt.TextDecoder}
    (buf id addons : list byte) (a hi lo : byte)
    (env : Rt.World) (store : gmap string string) :
  buf = (x00 :: id ++ a :: addons ++ [x01; hi; lo; x02])%list ->
  length id = 16%nat -> Byte.to_N a = N.of_nat (length addons) ->
  (24 <= length buf)%nat ->
  Rt.kv env = Some store -> Rt.truthy (store !! V1.bytesToUUID id) = true ->
  Rt.result_of (V1.parseVLESSHeader buf env) tt
  = inr (V1.Valid {| V1.version := Some 0;
                     V1.uuid := V1.bytesToUUID id;
                     V1.command := Some 1;
                     V1.port := 256 * Byte.to_N hi + Byte.to_N lo;
                     V1.addressType := Some 2;
                     V1.address := Rt.decode [] |}
                  buf)
  /\ Rt.result_of (V2.parseVLESSHeader buf env) tt
     = inr (V2.Valid (V1.bytesToUUID id) (Rt.decode [])
                     (256 * Byte.to_N hi + Byte.to_N lo) buf)
  /\ Rt.result_of (V3.parseVLESSHeader buf) tt = inl (Rt.Platform Rt.RangeError).
Proof.
  intros Hbuf Hid Ha Hlen Hkv Hacc. split; [| split].
  - exact (V1_missing_domain_length buf id addons a hi lo env store
             Hbuf Hid Ha Hlen Hkv Hacc).
  - exact (V2_missing_domain_length buf id addons a hi lo env Hbuf Hid Ha Hlen).
  - exact (V3_missing_domain_length buf id addons a hi lo Hbuf Hid Ha).
Qed.

Lemma missing_domain_length_hands_on_whole_frame_witness :
  Rt.result_of (V1.parseVLESSHeader (decoder := Samples.ascii_decoder)
                  Samples.cut_domain_frame Samples.known) tt
  = inr (V1.Valid {| V1.version := Some 0;
                     V1.uuid := V1.bytesToUUID Samples.sample_id;
                     V1.command := Some 1;
                     V1.port := 256 * Byte.to_N x00 + Byte.to_N x50;
                     V1.addressType := Some 2;
                     V1.address := Samples.ascii_decoder [] |}
                  Samples.cut_domain_frame)
  /\ Rt.result_of (V2.parseVLESSHeader (decoder := Samples.ascii_decoder)
                     Samples.cut_domain_frame Samples.known) tt
     = inr (V2.Valid (V1.bytesToUUID Samples.sample_id) (Samples.ascii_decoder [])
                     (256 * Byte.to_N x00 + Byte.to_N x50)
                     Samples.cut_domain_frame)
  /\ Rt.result_of (V3.parseVLESSHeader (decoder := Samples.ascii_decoder)
                     Samples.cut_domain_frame) tt
     = inl (Rt.Platform Rt.RangeError).
Proof.
  exact (missing_domain_length_hands_on_whole_frame
           (decoder := Samples.ascii_decoder)
           Samples.cut_domain_frame Samples.sample_id [xaa; xbb] x02 x00 x50
           Samples.known Samples.known_store
           eq_refl eq_refl eq_refl ltac:(cbn; lia) eq_refl eq_refl).
Defined.

(* ===================================================================== *)
(** * Revision 1: the listeners under the event loop                      *)
(* ===================================================================== *)

Section event_loop.
Import Js Rt.
Context {decoder : TextDecoder}.

Lemma at_lookup_app (t before after : list event) :
  V1.at_lookup t = Some (before, after) -> t = (before ++ after)%list.
Proof.
  revert before after. induction t as [| ev t IH]; intros before after H;
    [discriminate H |].
  destruct ev; cbn [V1.at_lookup] in H;
    first [ injection H as <- <-; reflexivity
          | destruct (V1.at_lookup t) as [[b a] |]; [| discriminate H];
            injection H as <- <-; cbn [app]; f_equal; apply IH; reflexivity ].
Qed.

(** The listener once the parser has returned, case by case on what it
    returned and on what [connect] does. *)
Lemma V1_after_header (env : World) (result : exn + V1.ParseResult)
    (c : V1.Connection) :
  V1.after_header env result c
  = match result with
    | inl e => ([WsClose (Some 1011) (MessageOf e)], c, inr tt)
    | inr (V1.Invalid _) =>
        ([WsClose (Some 1008) (Reason "Invalid VLESS header")], c, inr tt)
    | inr (V1.Valid header remainingData) =>
        let target := Connect (V1.address header) (V1.port header) in
        let failed :=
          WsClose (Some 1011) (Reason "Failed to connect to remote server") in
        let relaying := {| V1.remoteSocket := true; V1.isHeaderParsed := true |} in
        if connect_ok env (V1.address header) (V1.port header) then
          if 0 <? byteLength remainingData then
            ([target; PipeRemoteToClient; RemoteWrite remainingData],
             {| V1.vars := relaying; V1.socket := S (V1.socket c);
                V1.locked := true;
                V1.pending :=
                  (V1.pending c
                   ++ [V1.InitialWrite (S (V1.socket c)) remainingData])%list |},
             inr tt)
          else
            ([target; PipeRemoteToClient],
             {| V1.vars := relaying; V1.socket := S (V1.socket c);
                V1.locked := false; V1.pending := V1.pending c |}, inr tt)
        else
          ([target; failed],
           {| V1.vars := {| V1.remoteSocket := V1.remoteSocket (V1.vars c);
                            V1.isHeaderParsed := true |};
              V1.socket := V1.socket c; V1.locked := V1.locked c;
              V1.pending := V1.pending c |}, inr tt)
    end.
Proof.
  unfold V1.after_header, V1.on_vars, V1.getWriter, V1.suspend, try_catch,
    get_state, modify, connect, emit, throw, mbind, M_bind, mret, M_ret.
  destruct result as [e | [error | header remainingData]]; [reflexivity .. |].
  cbn. destruct (connect_ok env (V1.address header) (V1.port header)); cbn;
    [| reflexivity].
  destruct (0 <? byteLength remainingData); reflexivity.
Qed.

Lemma V1_run_cons (env : World) (s : V1.Step) (steps : list V1.Step)
    (c c' : V1.Connection) (t : list event) :
  V1.step env s c = (t, c', inr tt) ->
  V1.run env (s :: steps) c
  = let '(t', c'', r) := V1.run env steps c' in ((t ++ t')%list, c'', r).
Proof. intros Hs. cbn [V1.run]. rewrite run_bind, Hs. reflexivity. Qed.

Lemma V1_step_deliver_unparsed (env : World) (data : list byte)
    (c : V1.Connection) :
  V1.isHeaderParsed (V1.vars c) = false ->
  V1.step env (V1.Deliver (V1.Message data)) c
  = let '(t, _, result) := V1.parseVLESSHeader data env tt in
    match V1.at_lookup t with
    | Some (before, _) =>
        (before,
         {| V1.vars := V1.vars c; V1.socket := V1.socket c;
            V1.locked := V1.locked c;
            V1.pending := (V1.pending c ++ [V1.Lookup data])%list |}, inr tt)
    | None =>
        let '(t', c', r) := V1.after_header env result c in
        ((t ++ t')%list, c', r)
    end.
Proof.
  intros Hp. cbn [V1.step V1.deliver]. rewrite run_bind. cbn [get_state].
  rewrite Hp. cbn [negb].
  destruct (V1.parseVLESSHeader data env tt) as [[t u] result].
  destruct (V1.at_lookup t) as [[before after] |].
  - unfold emit_all, V1.suspend, modify. rewrite run_bind.
    cbn. rewrite app_nil_r. reflexivity.
  - unfold emit_all. rewrite run_bind.
    destruct (V1.after_header env result c) as [[t' c'] r]. reflexivity.
Qed.


Lemma V1_step_deliver_parsed (env : World) (data : list byte)
    (c : V1.Connection) :
  V1.isHeaderParsed (V1.vars c) = true ->
  V1.step env (V1.Deliver (V1.Message data)) c
  = if V1.remoteSocket (V1.vars c) then
      if V1.locked c then
        ([WsClose (Some 1011) (MessageOf (Platform TypeError))], c, inr tt)
      else
        ([RemoteWrite data],
         {| V1.vars := V1.vars c; V1.socket := V1.socket c; V1.locked := true;
            V1.pending :=
              (V1.pending c ++ [V1.FrameWrite (V1.socket c) data])%list |},
         inr tt)
    else ([], c, inr tt).
Proof.
  intros Hp. cbn [V1.step V1.deliver]. rewrite run_bind. cbn [get_state].
  rewrite Hp. cbn [negb].
  destruct (V1.remoteSocket (V1.vars c)); [| reflexivity].
  unfold V1.getWriter, V1.suspend, try_catch, get_state, modify, emit, throw,
    mbind, M_bind, mret, M_ret.
  destruct (V1.locked c); reflexivity.
Qed.

Lemma V1_step_settle_none (env : World) (i : nat) (c : V1.Connection) :
  V1.pending c !! i = None -> V1.step env (V1.Settle i) c = ([], c, inr tt).
Proof.
  intros Hi. cbn [V1.step]. rewrite run_bind. cbn [get_state]. rewrite Hi.
  reflexivity.
Qed.

Lemma V1_step_settle_lookup (env : World) (i : nat) (data : list byte)
    (c : V1.Connection) :
  V1.pending c !! i = Some (V1.Lookup data) ->
  V1.step env (V1.Settle i) c
  = let resumed := {| V1.vars := V1.vars c; V1.socket := V1.socket c;
                      V1.locked := V1.locked c;
                      V1.pending := delete i (V1.pending c) |} in
    let '(t, _, result) := V1.parseVLESSHeader data env tt in
    match V1.at_lookup t with
    | Some (_, after) =>
        let '(t', c', r) := V1.after_header env result resumed in
        ((after ++ t')%list, c', r)
    | None => ([], resumed, inr tt)
    end.
Proof.
  intros Hi. cbn [V1.step]. rewrite run_bind. cbn [get_state]. rewrite Hi.
  rewrite run_bind. cbn [modify V1.settle]. cbv zeta.
  destruct (V1.parseVLESSHeader data env tt) as [[t u] result].
  destruct (V1.at_lookup t) as [[before after] |]; [| reflexivity].
  unfold emit_all. rewrite run_bind.
  match goal with
  | |- context [V1.after_header env result ?c0] =>
      destruct (V1.after_header env result c0) as [[t' c'] r]
  end.
  reflexivity.
Qed.

Lemma V1_step_settle_initial_write (env : World) (i s : nat)
    (data : list byte) (c : V1.Connection) :
  V1.pending c !! i = Some (V1.InitialWrite s data) ->
  V1.step env (V1.Settle i) c
  = if write_ok env data then
      ([], {| V1.vars := V1.vars c; V1.socket := V1.socket c;
              V1.locked := if Nat.eqb s (V1.socket c) then false
                           else V1.locked c;
              V1.pending := delete i (V1.pending c) |}, inr tt)
    else
      ([WsClose (Some 1011) (Reason "Failed to connect to remote server")],
       {| V1.vars := V1.vars c; V1.socket := V1.socket c;
          V1.locked := V1.locked c;
          V1.pending := delete i (V1.pending c) |}, inr tt).
Proof.
  intros Hi. cbn [V1.step]. rewrite run_bind. cbn [get_state]. rewrite Hi.
  rewrite run_bind. cbn [modify V1.settle].
  destruct (write_ok env data); reflexivity.
Qed.

Lemma V1_step_settle_frame_write (env : World) (i s : nat)
    (data : list byte) (c : V1.Connection) :
  V1.pending c !! i = Some (V1.FrameWrite s data) ->
  V1.step env (V1.Settle i) c
  = if write_ok env data then
      ([], {| V1.vars := V1.vars c; V1.socket := V1.socket c;
              V1.locked := if Nat.eqb s (V1.socket c) then false
                           else V1.locked c;
              V1.pending := delete i (V1.pending c) |}, inr tt)
    else
      ([WsClose (Some 1011) (MessageOf (Platform WriteFailed))],
       {| V1.vars := V1.vars c; V1.socket := V1.socket c;
          V1.locked := V1.locked c;
          V1.pending := delete i (V1.pending c) |}, inr tt).
Proof.
  intros Hi. cbn [V1.step]. rewrite run_bind. cbn [get_state]. rewrite Hi.
  rewrite run_bind. cbn [modify V1.settle].
  destruct (write_ok env data); reflexivity.
Qed.

End event_loop.

Section turns.
Import Js Rt.
Context {decoder : TextDecoder}.

Lemma V1_turn_frame_unparsed (env : World) (data : list byte) (rs lk : bool)
    (sk : nat) :
  V1.run env (V1.in_turn [V1.Message data])
    {| V1.vars := {| V1.remoteSocket := rs; V1.isHeaderParsed := false |};
       V1.socket := sk; V1.locked := lk; V1.pending := [] |}
  = let '(t, _, r) := V1.parseVLESSHeader data env tt in
    let unchanged :=
      {| V1.vars := {| V1.remoteSocket := rs; V1.isHeaderParsed := false |};
         V1.socket := sk; V1.locked := lk; V1.pending := [] |} in
    let relaying (locked : bool) :=
      {| V1.vars := {| V1.remoteSocket := true; V1.isHeaderParsed := true |};
         V1.socket := S sk; V1.locked := locked; V1.pending := [] |} in
    match r with
    | inl e => ((t ++ [WsClose (Some 1011) (MessageOf e)])%list, unchanged, inr tt)
    | inr (V1.Invalid _) =>
        ((t ++ [WsClose (Some 1008) (Reason "Invalid VLESS header")])%list,
         unchanged, inr tt)
    | inr (V1.Valid header remainingData) =>
        let target := Connect (V1.address header) (V1.port header) in
        let failed :=
          WsClose (Some 1011) (Reason "Failed to connect to remote server") in
        if connect_ok env (V1.address header) (V1.port header) then
          if 0 <? byteLength remainingData then
            if write_ok env remainingData then
              ((t ++ [target; PipeRemoteToClient; RemoteWrite remainingData])%list,
               relaying false, inr tt)
            else
              ((t ++ [target; PipeRemoteToClient; RemoteWrite remainingData;
                      failed])%list,
               relaying true, inr tt)
          else ((t ++ [target; PipeRemoteToClient])%list, relaying false, inr tt)
        else
          ((t ++ [target; failed])%list,
           {| V1.vars := {| V1.remoteSocket := rs; V1.isHeaderParsed := true |};
              V1.socket := sk; V1.locked := lk; V1.pending := [] |}, inr tt)
    end.
Proof.
  cbn [V1.in_turn flat_map app].
  pose proof (V1_step_deliver_unparsed env data) as Hd.
  pose proof (V1_step_settle_lookup env 0 data) as Hs.
  revert Hd Hs.
  destruct (V1.parseVLESSHeader data env tt) as [[t u] r].
  destruct (V1.at_lookup t) as [[before after] |] eqn:Hat; intros Hd Hs;
    [apply at_lookup_app in Hat; subst t |];
    (destruct r as [e | [err | header rem]];
     [| | destruct (connect_ok env (V1.address header) (V1.port header)) eqn:Hc;
          [destruct (0 <? byteLength rem) eqn:Hb;
           [destruct (write_ok env rem) eqn:Hw |] |]]);
    repeat (erewrite V1_run_cons;
            [| first
                 [ rewrite Hd by reflexivity
                 | rewrite Hs by reflexivity
                 | rewrite V1_step_settle_none by reflexivity
                 | erewrite V1_step_settle_initial_write by reflexivity ];
               cbv zeta; rewrite ?V1_after_header;
               cbn [V1.vars V1.socket V1.locked V1.pending V1.remoteSocket
                      V1.isHeaderParsed app delete list_delete];
               rewrite ?Hc, ?Hb, ?Hw, ?Nat.eqb_refl; cbv zeta; reflexivity]);
    cbn [V1.run mret M_ret];
    rewrite ?app_nil_r, <- ?app_assoc; reflexivity.
Qed.

Lemma V1_turn_frame_parsed (env : World) (data : list byte) (rs lk : bool)
    (sk : nat) :
  V1.run env (V1.in_turn [V1.Message data])
    {| V1.vars := {| V1.remoteSocket := rs; V1.isHeaderParsed := true |};
       V1.socket := sk; V1.locked := lk; V1.pending := [] |}
  = let relaying (locked : bool) :=
      {| V1.vars := {| V1.remoteSocket := rs; V1.isHeaderParsed := true |};
         V1.socket := sk; V1.locked := locked; V1.pending := [] |} in
    if rs then
      if lk then
        ([WsClose (Some 1011) (MessageOf (Platform TypeError))],
         relaying true, inr tt)
      else if write_ok env data then ([RemoteWrite data], relaying false, inr tt)
      else
        ([RemoteWrite data;
          WsClose (Some 1011) (MessageOf (Platform WriteFailed))],
         relaying true, inr tt)
    else ([], relaying lk, inr tt).
Proof.
  cbn [V1.in_turn flat_map app].
  destruct rs; [destruct lk; [| destruct (write_ok env data) eqn:Hw] |];
    repeat (erewrite V1_run_cons;
            [| first
                 [ rewrite V1_step_deliver_parsed by reflexivity
                 | rewrite V1_step_settle_none by reflexivity
                 | erewrite V1_step_settle_frame_write by reflexivity ];
               cbn [V1.vars V1.socket V1.locked V1.pending V1.remoteSocket
                      V1.isHeaderParsed app delete list_delete];
               rewrite ?Hw, ?Nat.eqb_refl; reflexivity]);
    reflexivity.
Qed.

Lemma V1_turn_close (env : World) (c : V1.Connection) :
  V1.pending c = [] ->
  V1.run env (V1.in_turn [V1.Close]) c
  = (if V1.remoteSocket (V1.vars c) then [RemoteClose] else [], c, inr tt).
Proof.
  destruct c as [[rs hp] sk lk pd]. cbn [V1.pending]. intros ->.
  cbn [V1.in_turn flat_map app].
  assert (Hd : V1.step env (V1.Deliver V1.Close)
                 {| V1.vars := {| V1.remoteSocket := rs; V1.isHeaderParsed := hp |};
                    V1.socket := sk; V1.locked := lk; V1.pending := [] |}
               = (if rs then [RemoteClose] else [],
                  {| V1.vars := {| V1.remoteSocket := rs; V1.isHeaderParsed := hp |};
                     V1.socket := sk; V1.locked := lk; V1.pending := [] |},
                  inr tt))
    by (destruct rs; reflexivity).
  rewrite (V1_run_cons _ _ _ _ _ _ Hd).
  do 2 (erewrite V1_run_cons by (apply V1_step_settle_none; reflexivity)).
  cbn. rewrite app_nil_r. reflexivity.
Qed.

Lemma V1_turn_error (env : World) (c : V1.Connection) :
  V1.pending c = [] ->
  V1.run env (V1.in_turn [V1.Error]) c = ([], c, inr tt).
Proof.
  destruct c as [[rs hp] sk lk pd]. cbn [V1.pending]. intros ->.
  cbn [V1.in_turn flat_map app].
  erewrite V1_run_cons by reflexivity.
  do 2 (erewrite V1_run_cons by (apply V1_step_settle_none; reflexivity)).
  reflexivity.
Qed.

Lemma V1_run_app (env : World) (first rest : list V1.Step)
    (c c' : V1.Connection) (t : list event) :
  V1.run env first c = (t, c', inr tt) ->
  V1.run env (first ++ rest) c
  = let '(t', c'', r) := V1.run env rest c' in ((t ++ t')%list, c'', r).
Proof.
  revert c t. induction first as [| s first IH]; intros c t Hrun.
  - cbn in Hrun. injection Hrun as <- <-. cbn [app].
    destruct (V1.run env rest c) as [[t' c''] r]. reflexivity.
  - cbn [V1.run app] in *. rewrite run_bind in *.
    destruct (V1.step env s c) as [[t0 c0] [e | []]]; [discriminate Hrun |].
    destruct (V1.run env first c0) as [[t1 c1] r1] eqn:E.
    injection Hrun as <- <- ->.
    rewrite (IH c0 t1 E).
    destruct (V1.run env rest c1) as [[t' c''] r]. rewrite app_assoc. reflexivity.
Qed.

Lemma in_turn_cons (ev : V1.ClientEvent) (evs : list V1.ClientEvent) :
  V1.in_turn (ev :: evs) = (V1.in_turn [ev] ++ V1.in_turn evs)%list.
Proof. reflexivity. Qed.

(** The listener run that nothing interrupts is the first turn of a
    session. *)
Lemma V1_first_turn (env : World) (data : list byte) :
  V1.handleVLESSConnection env [V1.Message data] V1.initial
  = V1.on_message env data V1.initial.
Proof.
  unfold V1.handleVLESSConnection, V1.initial.
  rewrite V1_turn_frame_unparsed. fold V1.initial. rewrite V1_first_message.
  destruct (V1.parseVLESSHeader data env tt) as [[t u] [e | [err | header rem]]];
    cbv zeta; try reflexivity.
  destruct (connect_ok env (V1.address header) (V1.port header));
    [destruct (0 <? byteLength rem); [destruct (write_ok env rem) |] |];
    reflexivity.
Qed.

End turns.

(* ===================================================================== *)
(** * Revision 1: what holds of every session                             *)
(* ===================================================================== *)

Section session_invariants.
Import Js Rt.
Context {decoder : TextDecoder}.

Lemma remote_writes_app (t t' : list event) :
  remote_writes (t ++ t') = (remote_writes t ++ remote_writes t')%list.
Proof. apply omap_app. Qed.

Lemma remote_writes_not_upstream (t : list event) :
  Forall (fun ev => not_upstream ev = true) t -> remote_writes t = [].
Proof.
  induction 1 as [| ev t Hev _ IH]; [reflexivity |].
  unfold remote_writes in *.
  destruct ev; first [discriminate Hev | cbn; exact IH].
Qed.

Lemma V1_parse_not_upstream (buf : list byte) (env : World) :
  all_events not_upstream (V1.parseVLESSHeader buf env).
Proof.
  unfold V1.parseVLESSHeader, slice_from. cbv zeta.
  all_events_steps ltac:(intros; reflexivity).
Qed.

Lemma upstream_after_connect_app (w : World) (o : bool) (t t' : list event) :
  upstream_after_connect w o (t ++ t')
  = upstream_after_connect w o t
    && upstream_after_connect w (opened_after w o t) t'.
Proof.
  revert o; induction t as [| ev t IH]; intros o; [reflexivity |].
  destruct ev; cbn [app upstream_after_connect opened_after];
    rewrite IH; try reflexivity; destruct o; reflexivity.
Qed.

Lemma opened_after_app (w : World) (o : bool) (t t' : list event) :
  opened_after w o (t ++ t') = opened_after w (opened_after w o t) t'.
Proof.
  revert o; induction t as [| ev t IH]; intros o; [reflexivity |].
  destruct ev; cbn [app opened_after]; apply IH.
Qed.

Lemma not_upstream_trace (w : World) (o : bool) (t : list event) :
  Forall (fun ev => not_upstream ev = true) t ->
  upstream_after_connect w o t = true /\ opened_after w o t = o.
Proof.
  revert o; induction 1 as [| ev t Hev _ IH]; [split; reflexivity |].
  destruct ev; first [discriminate Hev | exact IH].
Qed.

Lemma connects_app (t t' : list event) :
  length (filter is_connect (t ++ t')%list)
  = (length (filter is_connect t) + length (filter is_connect t'))%nat.
Proof. rewrite filter_app. apply length_app. Qed.

(** The listener after the parser: it returns, and it touches the
    remote socket only once [connect] has succeeded. *)
Lemma V1_after_header_discipline (env : World)
    (result : exn + V1.ParseResult) (c : V1.Connection) (o : bool) :
  (V1.remoteSocket (V1.vars c) = true -> o = true) ->
  exists t c',
    V1.after_header env result c = (t, c', inr tt)
    /\ upstream_after_connect env o t = true
    /\ (V1.remoteSocket (V1.vars c') = true -> opened_after env o t = true).
Proof.
  intros Ho. rewrite V1_after_header.
  destruct result as [e | [err | header rem]].
  - do 2 eexists. split; [reflexivity |]. split; [reflexivity | exact Ho].
  - do 2 eexists. split; [reflexivity |]. split; [reflexivity | exact Ho].
  - cbv zeta.
    destruct (connect_ok env (V1.address header) (V1.port header)) eqn:Hc;
      [destruct (0 <? byteLength rem) |];
      do 2 eexists; (split; [reflexivity |]);
      cbn [upstream_after_connect opened_after V1.vars V1.remoteSocket];
      rewrite Hc, ?orb_true_r, ?orb_false_r; split; auto.
Qed.

(** One step of the event loop, whichever it is. *)
Lemma V1_step_discipline (env : World) (s : V1.Step) (c : V1.Connection)
    (o : bool) :
  (V1.remoteSocket (V1.vars c) = true -> o = true) ->
  exists t c',
    V1.step env s c = (t, c', inr tt)
    /\ upstream_after_connect env o t = true
    /\ (V1.remoteSocket (V1.vars c') = true -> opened_after env o t = true).
Proof.
  intros Ho. destruct s as [[data | |] | i].
  - (* a frame is delivered *)
    destruct (V1.isHeaderParsed (V1.vars c)) eqn:Hp.
    + rewrite V1_step_deliver_parsed by assumption.
      destruct (V1.remoteSocket (V1.vars c)) eqn:Hrs;
        [rewrite (Ho eq_refl); destruct (V1.locked c) |];
        do 2 eexists; (split; [reflexivity |]); split; cbn; auto; congruence.
    + rewrite V1_step_deliver_unparsed by assumption.
      pose proof (V1_parse_not_upstream data env tt) as Hparse.
      unfold events_of in Hparse.
      destruct (V1.parseVLESSHeader data env tt) as [[t u] r].
      cbn [fst] in Hparse.
      destruct (V1.at_lookup t) as [[before after] |] eqn:Hat.
      * apply at_lookup_app in Hat. subst t.
        apply Forall_app in Hparse as [Hb _].
        destruct (not_upstream_trace env o before Hb) as [Hu Hopen].
        do 2 eexists. split; [reflexivity |]. split; [exact Hu |].
        cbn [V1.vars]. rewrite Hopen. exact Ho.
      * destruct (not_upstream_trace env o t Hparse) as [Hu Hopen].
        destruct (V1_after_header_discipline env r c o Ho)
          as (t' & c' & -> & Hu' & Hopen').
        do 2 eexists. split; [reflexivity |].
        rewrite upstream_after_connect_app, opened_after_app, Hu, Hopen.
        split; assumption.
  - (* the close event *)
    cbn [V1.step V1.deliver]. unfold V1.on_vars, V1.on_close.
    rewrite run_bind. cbn [get_state].
    destruct (V1.remoteSocket (V1.vars c)) eqn:Hrs;
      [rewrite (Ho eq_refl) |];
      do 2 eexists; (split; [reflexivity |]); split; cbn; auto; congruence.
  - (* the error event *)
    do 2 eexists. split; [reflexivity |]. split; cbn; auto.
  - (* a suspended run is resumed *)
    destruct (V1.pending c !! i) as [[data | s data | s data] |] eqn:Hi.
    + rewrite (V1_step_settle_lookup env i data c Hi). cbv zeta.
      pose proof (V1_parse_not_upstream data env tt) as Hparse.
      unfold events_of in Hparse.
      destruct (V1.parseVLESSHeader data env tt) as [[t u] r].
      cbn [fst] in Hparse.
      destruct (V1.at_lookup t) as [[before after] |] eqn:Hat.
      * apply at_lookup_app in Hat. subst t.
        apply Forall_app in Hparse as [_ Ha].
        destruct (not_upstream_trace env o after Ha) as [Hu Hopen].
        match goal with
        | |- context [V1.after_header env r ?c0] =>
            destruct (V1_after_header_discipline env r c0 o Ho)
              as (t' & c' & -> & Hu' & Hopen')
        end.
        do 2 eexists. split; [reflexivity |].
        rewrite upstream_after_connect_app, opened_after_app, Hu, Hopen.
        split; assumption.
      * do 2 eexists. split; [reflexivity |]. split; [reflexivity | exact Ho].
    + rewrite (V1_step_settle_initial_write env i s data c Hi).
      destruct (write_ok env data);
        do 2 eexists; (split; [reflexivity |]); (split; [reflexivity | exact Ho]).
    + rewrite (V1_step_settle_frame_write env i s data c Hi).
      destruct (write_ok env data);
        do 2 eexists; (split; [reflexivity |]); (split; [reflexivity | exact Ho]).
    + rewrite (V1_step_settle_none env i c Hi).
      do 2 eexists. split; [reflexivity |]. split; [reflexivity | exact Ho].
Qed.

Lemma V1_run_discipline (env : World) (steps : list V1.Step)
    (c : V1.Connection) (o : bool) :
  (V1.remoteSocket (V1.vars c) = true -> o = true) ->
  upstream_after_connect env o (events_of (V1.run env steps) c) = true.
Proof.
  revert c o; induction steps as [| s steps IH]; intros c o Ho; [reflexivity |].
  destruct (V1_step_discipline env s c o Ho) as (t & c' & Hs & Hu & Hopen).
  specialize (IH c' (opened_after env o t) Hopen).
  unfold events_of in *. rewrite (V1_run_cons env s steps c c' t Hs).
  destruct (V1.run env steps c') as [[t' c''] r]. cbn [fst] in *.
  rewrite upstream_after_connect_app, Hu, IH. reflexivity.
Qed.

End session_invariants.

(** X11 — No write to the remote socket, no close of it and no pipe on
    it happens before a [connect] has succeeded. This holds of every
    revision-1 session: whatever client events are delivered, and in
    whatever order the suspended runs of the ['message'] listener are
    resumed between them. *)
Theorem upstream_is_used_only_after_connect {decoder : Rt.TextDecoder}
    (env : Rt.World) (steps : list V1.Step) :
  Rt.upstream_after_connect env false
    (Rt.events_of (V1.run env steps) V1.accepted) = true.
Proof.
  apply V1_run_discipline. cbn. discriminate.
Qed.

Section turn_by_turn.
Import Js Rt.
Context {decoder : TextDecoder}.

(** A turn uses up the one [connect] of the session, and leaves no run
    suspended. *)
Lemma V1_turn_budget (env : World) (ev : V1.ClientEvent) (c : V1.Connection) :
  V1.pending c = [] ->
  exists t c',
    V1.run env (V1.in_turn [ev]) c = (t, c', inr tt)
    /\ V1.pending c' = []
    /\ (length (filter is_connect t) + V1.connects_left (V1.vars c')
        <= V1.connects_left (V1.vars c))%nat.
Proof.
  intros Hq. destruct ev as [data | |].
  - destruct c as [[rs [|]] sk lk pd]; cbn [V1.pending] in Hq; subst pd.
    + rewrite V1_turn_frame_parsed. cbv zeta.
      destruct rs; [destruct lk; [| destruct (write_ok env data)] |];
        do 2 eexists; (split; [reflexivity |]); split; cbn; auto.
    + rewrite V1_turn_frame_unparsed.
      pose proof (all_events_none not_connect is_connect _ tt not_connect_spec
                    (V1_parse_no_connect data env)) as Hc.
      unfold events_of in Hc.
      destruct (V1.parseVLESSHeader data env tt)
        as [[t u] [e | [err | header rem]]]; cbn [fst] in Hc; cbv zeta;
        [| | destruct (connect_ok env (V1.address header) (V1.port header));
             [destruct (0 <? byteLength rem);
              [destruct (write_ok env rem) |] |]];
        do 2 eexists; (split; [reflexivity |]); (split; [reflexivity |]);
        rewrite connects_app, Hc; vm_compute; lia.
  - rewrite (V1_turn_close env c Hq).
    do 2 eexists. split; [reflexivity |]. split; [exact Hq |].
    generalize (V1.connects_left (V1.vars c)); intros n.
    destruct (V1.remoteSocket (V1.vars c)); vm_compute; lia.
  - rewrite (V1_turn_error env c Hq).
    do 2 eexists. split; [reflexivity |]. split; [exact Hq |]. cbn. lia.
Qed.

Lemma V1_in_turn_budget (env : World) (evs : list V1.ClientEvent)
    (c : V1.Connection) :
  V1.pending c = [] ->
  (length (filter is_connect (events_of (V1.run env (V1.in_turn evs)) c))
   <= V1.connects_left (V1.vars c))%nat.
Proof.
  revert c; induction evs as [| ev evs IH]; intros c Hq; [cbn; lia |].
  destruct (V1_turn_budget env ev c Hq) as (t & c' & Hrun & Hq' & Hc).
  specialize (IH c' Hq').
  unfold events_of in *.
  rewrite in_turn_cons, (V1_run_app env _ _ c c' t Hrun).
  destruct (V1.run env (V1.in_turn evs) c') as [[t' c''] r]. cbn [fst] in *.
  rewrite connects_app. lia.
Qed.

(** Frames that arrive in turn while the remote is open and its writer
    is free are written to it, one write per frame, in arrival order, as
    long as no write is rejected. *)
Lemma V1_frames_while_relaying (env : World) (frames : list (list byte))
    (sk : nat) :
  Forall (fun data => write_ok env data = true) frames ->
  let c := {| V1.vars := {| V1.remoteSocket := true; V1.isHeaderParsed := true |};
              V1.socket := sk; V1.locked := false; V1.pending := [] |} in
  V1.run env (V1.in_turn (V1.Message <$> frames)) c
  = (RemoteWrite <$> frames, c, inr tt).
Proof.
  cbv zeta. induction 1 as [| data frames Hw _ IH]; [reflexivity |].
  cbn [fmap list_fmap]. rewrite in_turn_cons.
  erewrite V1_run_app
    by (rewrite V1_turn_frame_parsed; cbv zeta; rewrite Hw; reflexivity).
  fold (@fmap list _ _ _ V1.Message frames). rewrite IH. reflexivity.
Qed.

(** Frames that find the header parsed and no remote are dropped. *)
Lemma V1_frames_without_remote (env : World) (frames : list (list byte))
    (sk : nat) (lk : bool) :
  let c := {| V1.vars := {| V1.remoteSocket := false; V1.isHeaderParsed := true |};
              V1.socket := sk; V1.locked := lk; V1.pending := [] |} in
  V1.run env (V1.in_turn (V1.Message <$> frames)) c = ([], c, inr tt).
Proof.
  cbv zeta. induction frames as [| data frames IH]; [reflexivity |].
  cbn [fmap list_fmap]. rewrite in_turn_cons.
  erewrite V1_run_app by (rewrite V1_turn_frame_parsed; reflexivity).
  fold (@fmap list _ _ _ V1.Message frames). rewrite IH. reflexivity.
Qed.

Lemma remote_writes_frames (frames : list (list byte)) :
  remote_writes (RemoteWrite <$> frames) = frames.
Proof.
  induction frames as [| data frames IH]; [reflexivity |].
  cbn. f_equal. exact IH.
Qed.

Lemma connects_frames (frames : list (list byte)) :
  filter is_connect (RemoteWrite <$> frames) = [].
Proof.
  induction frames as [| data frames IH]; [reflexivity |]. exact IH.
Qed.

End turn_by_turn.

(** X8 — Revision 1 relays upstream exactly what follows the header,
    provided every frame arrives after the listener run of the previous
    one has finished and no write to the remote is rejected: for a
    well-formed request of a known id whose target can be reached, the
    session connects once, to the target named in the header, and the
    chunks it hands to the remote writer are the initial payload (when
    there is one) followed by every later frame, unchanged and in arrival
    order. The header itself is never written upstream. *)
Theorem V1_relays_payload_then_frames {decoder : Rt.TextDecoder}
    (r : Wire.Request) (frames : list (list byte)) (env : Rt.World)
    (store : gmap string string) (account : string) :
  Wire.request_wf r ->
  Rt.kv env = Some store ->
  store !! Wire.canonical_uuid (Wire.id r) = Some account ->
  account <> EmptyString ->
  (24 <= length (Wire.encode r))%nat ->
  Rt.connect_ok env (Wire.address_text (Wire.target r)) (Wire.port_of r) = true ->
  Rt.write_ok env (Wire.payload r) = true ->
  Forall (fun data => Rt.write_ok env data = true) frames ->
  Rt.remote_writes
    (Rt.events_of (V1.run env (V1.in_turn (V1.Message (Wire.encode r)
                                           :: (V1.Message <$> frames))))
                  V1.accepted)
  = ((if 0 <? Js.byteLength (Wire.payload r) then [Wire.payload r] else [])
     ++ frames)%list
  /\ filter Rt.is_connect
       (Rt.events_of (V1.run env (V1.in_turn (V1.Message (Wire.encode r)
                                              :: (V1.Message <$> frames))))
                     V1.accepted)
     = [Rt.Connect (Wire.address_text (Wire.target r)) (Wire.port_of r)].
Proof.
  intros Hwf Hkv Hacc Hne Hlen Hconn Hwrite Hwrites.
  pose proof (V1_parse_encode r env store account tt Hwf Hkv Hacc Hne Hlen) as Hres.
  pose proof (remote_writes_not_upstream _
                (V1_parse_not_upstream (Wire.encode r) env tt)) as Hw0.
  pose proof (all_events_none Rt.not_connect Rt.is_connect _ tt not_connect_spec
                (V1_parse_no_connect (Wire.encode r) env)) as Hc0.
  pose proof (V1_turn_frame_unparsed env (Wire.encode r) false false 0) as Hturn.
  unfold Rt.result_of, Rt.events_of, V1.accepted, V1.initial in *.
  destruct (V1.parseVLESSHeader (Wire.encode r) env tt) as [[t0 u] r0].
  cbn [fst snd] in Hres, Hw0, Hc0. subst r0.
  unfold Expect.V1_result in Hturn.
  cbn [V1.address V1.port Expect.V1_header_of] in Hturn. cbv zeta in Hturn.
  rewrite Hconn, Hwrite in Hturn.
  rewrite in_turn_cons.
  destruct (0 <? Js.byteLength (Wire.payload r));
    rewrite (V1_run_app env _ _ _ _ _ Hturn),
      (V1_frames_while_relaying env frames 1 Hwrites);
    cbn [fst];
    rewrite !remote_writes_app, !filter_app, Hw0, Hc0,
      remote_writes_frames, connects_frames;
    split; reflexivity.
Qed.

(** The IPv4 sample request followed by two further frames. *)
Lemma V1_relays_payload_then_frames_witness :
  Rt.remote_writes
    (Rt.events_of (V1.run (decoder := Samples.ascii_decoder) Samples.known
                     (V1.in_turn (V1.Message (Wire.encode Samples.ipv4_request)
                                  :: (V1.Message <$> [[x61; x62]; [x63]]))))
                  V1.accepted)
  = ((if 0 <? Js.byteLength (Wire.payload Samples.ipv4_request)
      then [Wire.payload Samples.ipv4_request] else [])
     ++ [[x61; x62]; [x63]])%list
  /\ filter Rt.is_connect
       (Rt.events_of (V1.run (decoder := Samples.ascii_decoder) Samples.known
                        (V1.in_turn (V1.Message (Wire.encode Samples.ipv4_request)
                                     :: (V1.Message <$> [[x61; x62]; [x63]]))))
                     V1.accepted)
     = [Rt.Connect (Wire.address_text (decoder := Samples.ascii_decoder)
                      (Wire.target Samples.ipv4_request))
                   (Wire.port_of Samples.ipv4_request)].
Proof.
  exact (V1_relays_payload_then_frames (decoder := Samples.ascii_decoder)
           Samples.ipv4_request [[x61; x62]; [x63]] Samples.known
           Samples.known_store "{}"
           ltac:(repeat split; reflexivity) eq_refl ltac:(vm_compute; reflexivity)
           ltac:(discriminate) ltac:(cbn; lia) eq_refl eq_refl
           ltac:(repeat constructor)).
Defined.

(** X9 — Revision 1 makes one attempt: when [connect] fails for the
    target of an accepted header, the client is closed with 1011, and
    the frames that arrive after that, each in its turn, are dropped.
    Nothing is written, no second [connect] is made and the client is
    not closed again. *)
Theorem V1_failed_connect_is_not_retried {decoder : Rt.TextDecoder}
    (r : Wire.Request) (frames : list (list byte)) (env : Rt.World)
    (store : gmap string string) (account : string) :
  Wire.request_wf r ->
  Rt.kv env = Some store ->
  store !! Wire.canonical_uuid (Wire.id r) = Some account ->
  account <> EmptyString ->
  (24 <= length (Wire.encode r))%nat ->
  Rt.connect_ok env (Wire.address_text (Wire.target r)) (Wire.port_of r) = false ->
  Rt.events_of (V1.run env (V1.in_turn (V1.Message (Wire.encode r)
                                        :: (V1.Message <$> frames))))
               V1.accepted
  = (Rt.events_of (V1.parseVLESSHeader (Wire.encode r) env) tt
     ++ [ Rt.Connect (Wire.address_text (Wire.target r)) (Wire.port_of r);
          Rt.WsClose (Some 1011) (Rt.Reason "Failed to connect to remote server") ])%list.
Proof.
  intros Hwf Hkv Hacc Hne Hlen Hconn.
  pose proof (V1_parse_encode r env store account tt Hwf Hkv Hacc Hne Hlen) as Hres.
  pose proof (V1_turn_frame_unparsed env (Wire.encode r) false false 0) as Hturn.
  unfold Rt.result_of, Rt.events_of, V1.accepted, V1.initial in *.
  destruct (V1.parseVLESSHeader (Wire.encode r) env tt) as [[t0 u] r0].
  cbn [fst snd] in Hres. subst r0.
  unfold Expect.V1_result in Hturn.
  cbn [V1.address V1.port Expect.V1_header_of] in Hturn. cbv zeta in Hturn.
  rewrite Hconn in Hturn.
  rewrite in_turn_cons, (V1_run_app env _ _ _ _ _ Hturn).
  rewrite (V1_frames_without_remote env frames 0 false).
  cbn [fst]. apply app_nil_r.
Qed.

Lemma V1_failed_connect_is_not_retried_witness :
  Rt.events_of (V1.run (decoder := Samples.ascii_decoder) Samples.unreachable
                  (V1.in_turn (V1.Message (Wire.encode Samples.ipv4_request)
                               :: (V1.Message <$> [[x61; x62]; [x63]]))))
               V1.accepted
  = (Rt.events_of (V1.parseVLESSHeader (decoder := Samples.ascii_decoder)
                     (Wire.encode Samples.ipv4_request) Samples.unreachable) tt
     ++ [ Rt.Connect (Wire.address_text (decoder := Samples.ascii_decoder)
                        (Wire.target Samples.ipv4_request))
                     (Wire.port_of Samples.ipv4_request);
          Rt.WsClose (Some 1011) (Rt.Reason "Failed to connect to remote server") ])%list.
Proof.
  exact (V1_failed_connect_is_not_retried (decoder := Samples.ascii_decoder)
           Samples.ipv4_request [[x61; x62]; [x63]] Samples.unreachable
           Samples.known_store "{}"
           ltac:(repeat split; reflexivity) eq_refl ltac:(vm_compute; reflexivity)
           ltac:(discriminate) ltac:(cbn; lia) eq_refl).
Defined.

(** X10 — A revision-1 session calls [connect] at most once when every
    client event finds the listener runs before it finished, whatever
    the events are. Without that it can connect again: two header frames
    delivered before the lookup of the first has settled both find
    [isHeaderParsed] unset, and each run connects once resumed. *)
Theorem V1_connects_once_when_events_wait_their_turn :
  (forall (decoder : Rt.TextDecoder) (env : Rt.World)
          (evs : list V1.ClientEvent),
     (length (filter Rt.is_connect
                (Rt.events_of (V1.run env (V1.in_turn evs)) V1.accepted))
      <= 1)%nat)
  /\ filter Rt.is_connect
       (Rt.events_of
          (V1.run (decoder := Samples.ascii_decoder) Samples.known
             [ V1.Deliver (V1.Message (Wire.encode Samples.ipv4_request));
               V1.Deliver (V1.Message (Wire.encode Samples.ipv4_request));
               V1.Settle 0; V1.Settle 0 ])
          V1.accepted)
     = [Rt.Connect "198.51.100.7" 80; Rt.Connect "198.51.100.7" 80].
Proof.
  split.
  - intros decoder env evs.
    exact (V1_in_turn_budget env evs V1.accepted eq_refl).
  - vm_compute. reflexivity.
Qed.

(* ===================================================================== *)
(** * Revision 2: closing the client transport                            *)
(* ===================================================================== *)

Section safe_close.
Import Js Rt.
Context {decoder : TextDecoder}.

Lemma budget_ret {A} (a : A) : V2.closes_within_budget (mret a).
Proof. intros st. cbn. lia. Qed.

Lemma budget_throw {A} (e : exn) : V2.closes_within_budget (throw e : M _ A).
Proof. intros st. cbn. lia. Qed.

Lemma budget_emit (ev : event) :
  is_ws_close ev = false -> V2.closes_within_budget (emit ev).
Proof.
  intros Hev st. unfold events_of, state_of, emit. cbn [fst snd].
  rewrite filter_cons_False by (rewrite Hev; intros []). cbn. lia.
Qed.

Lemma budget_get_state : V2.closes_within_budget get_state.
Proof. intros st. cbn. lia. Qed.

Lemma budget_modify (f : V2.Session -> V2.Session) :
  (forall st, V2.ws_open (f st) = true -> V2.ws_open st = true) ->
  V2.closes_within_budget (modify f).
Proof.
  intros Hf st. unfold events_of, state_of, modify, V2.closes_left. cbn.
  specialize (Hf st).
  destruct (V2.ws_open (f st)), (V2.ws_open st);
    first [lia | discriminate (Hf eq_refl)].
Qed.

Lemma budget_bind {A B} (m : M V2.Session A) (k : A -> M V2.Session B) :
  V2.closes_within_budget m -> (forall a, V2.closes_within_budget (k a)) ->
  V2.closes_within_budget (m ≫= k).
Proof.
  intros Hm Hk st. rewrite events_of_bind, state_of_bind, filter_app, length_app.
  specialize (Hm st).
  destruct (result_of m st) as [e | a]; [cbn; lia |].
  specialize (Hk a (state_of m st)). lia.
Qed.

Lemma budget_try_catch {A} (body : M V2.Session A) (h : exn -> M V2.Session A) :
  V2.closes_within_budget body -> (forall e, V2.closes_within_budget (h e)) ->
  V2.closes_within_budget (try_catch body h).
Proof.
  intros Hb Hh st.
  rewrite events_of_try_catch, state_of_try_catch, filter_app, length_app.
  specialize (Hb st).
  destruct (result_of body st) as [e | a]; [| cbn; lia].
  specialize (Hh e (state_of body st)). lia.
Qed.

Lemma not_ws_close_spec (ev : event) :
  not_ws_close ev = true -> is_ws_close ev = false.
Proof. unfold not_ws_close. destruct (is_ws_close ev); [discriminate | reflexivity]. Qed.

Lemma budget_call {A} (m : M unit A) :
  all_events not_ws_close m -> V2.closes_within_budget (call m).
Proof.
  intros Hm st. rewrite state_of_call, events_of_call.
  rewrite (all_events_none not_ws_close is_ws_close m tt not_ws_close_spec Hm).
  cbn. lia.
Qed.

Lemma budget_connect (w : World) (host : string) (port : N) :
  V2.closes_within_budget (connect w host port).
Proof.
  apply budget_bind; [apply budget_emit; reflexivity |].
  intros _. destruct (connect_ok w host port); [apply budget_ret | apply budget_throw].
Qed.

Lemma budget_remote_write (w : World) (data : list byte) :
  V2.closes_within_budget (remote_write w data).
Proof.
  apply budget_bind; [apply budget_emit; reflexivity |].
  intros _. destruct (write_ok w data); [apply budget_ret | apply budget_throw].
Qed.

(** [safeClose] closes an open transport once and a closed one not at
    all. *)
Lemma budget_safeClose (code : option N) (reason : close_reason) :
  V2.closes_within_budget (V2.safeClose code reason).
Proof.
  intros [remote parsed [|]]; vm_compute; lia.
Qed.

Lemma V2_parse_no_close (buf : list byte) (env : World) :
  all_events not_ws_close (V2.parseVLESSHeader buf env).
Proof.
  unfold V2.parseVLESSHeader, V2.validateUUID, slice_from. cbv zeta.
  all_events_steps ltac:(intros; reflexivity).
Qed.

Ltac budget_steps :=
  repeat first
    [ apply budget_ret
    | apply budget_throw
    | apply budget_get_state
    | apply budget_safeClose
    | apply budget_connect
    | apply budget_remote_write
    | apply budget_call, V2_parse_no_close
    | apply budget_emit; reflexivity
    | apply budget_modify; intros [? ? ?]; cbn; congruence
    | apply budget_try_catch; [| intros ?]
    | apply budget_bind; [| intros ?]
    | match goal with
      | |- V2.closes_within_budget (if ?b then _ else _) => destruct b
      | |- V2.closes_within_budget (match ?x with _ => _ end) => destruct x
      end ].

Lemma budget_on_message (env : World) (data : list byte) :
  V2.closes_within_budget (V2.on_message env data).
Proof. unfold V2.on_message. budget_steps. Qed.

Lemma budget_on_close : V2.closes_within_budget V2.on_close.
Proof. unfold V2.on_close. budget_steps. Qed.

Lemma budget_download_loop (reads : list V1.ReadResult) :
  V2.closes_within_budget (V2.download_loop reads).
Proof.
  induction reads as [| [value | |] reads IH]; cbn [V2.download_loop];
    budget_steps. exact IH.
Qed.

Lemma budget_remoteToWebSocket (reads : list V1.ReadResult) :
  V2.closes_within_budget (V2.remoteToWebSocket reads).
Proof.
  unfold V2.remoteToWebSocket.
  apply budget_bind; [| intros exit; destruct exit; budget_steps].
  apply budget_try_catch; [apply budget_download_loop | intros e; apply budget_ret].
Qed.

Lemma budget_run (env : World) (acts : list V2.Activity) :
  V2.closes_within_budget (V2.run env acts).
Proof.
  induction acts as [| a acts IH]; cbn [V2.run]; [apply budget_ret |].
  apply budget_bind; [| intros _; exact IH].
  destruct a as [[data | |] | reads]; cbn [V2.perform V2.dispatch].
  - apply budget_on_message.
  - apply budget_on_close.
  - apply budget_ret.
  - apply budget_remoteToWebSocket.
Qed.

End safe_close.

(** X12 — A revision-2 session closes the client transport at most once.
    Whatever the client sends, whenever the close and error events
    arrive and whenever the download loop runs or ends, every close goes
    through [safeClose], which does nothing on a transport that is no
    longer open. *)
Theorem V2_session_closes_client_at_most_once {decoder : Rt.TextDecoder}
    (env : Rt.World) (acts : list V2.Activity) :
  (length (filter Rt.is_ws_close (Rt.events_of (V2.run env acts) V2.initial))
   <= 1)%nat.
Proof.
  pose proof (budget_run env acts V2.initial) as H.
  unfold V2.closes_left in H at 2. cbn [V2.initial V2.ws_open] in H. lia.
Qed.

(* ===================================================================== *)
(** * Revision 3: the handler                                             *)
(* ===================================================================== *)


(* ===================================================================== *)
(** * Texts that determine the bytes they were made from                  *)
(* ===================================================================== *)

Section injective_texts.
Import Js Wire.

Lemma to_N_inj (b b' : byte) : Byte.to_N b = Byte.to_N b' -> b = b'.
Proof.
  intros H. apply (f_equal Byte.of_N) in H. rewrite !Byte.of_to_N in H.
  congruence.
Qed.

Lemma hex_digit_value_digit (d : N) : d < 16 -> hex_digit_value (hex_digit d) = Some d.
Proof.
  intros Hd.
  assert (Hcases : d = 0 \/ d = 1 \/ d = 2 \/ d = 3 \/ d = 4 \/ d = 5
                   \/ d = 6 \/ d = 7 \/ d = 8 \/ d = 9 \/ d = 10 \/ d = 11
                   \/ d = 12 \/ d = 13 \/ d = 14 \/ d = 15) by lia.
  repeat (destruct Hcases as [-> | Hcases]; [reflexivity |]).
  subst d; reflexivity.
Qed.

Lemma byte_hex_inj (b b' : byte) : byte_hex b = byte_hex b' -> b = b'.
Proof.
  unfold byte_hex. intros H. injection H as Hhi Hlo.
  pose proof (Byte.to_N_bounded b) as Hb.
  pose proof (Byte.to_N_bounded b') as Hb'.
  apply (f_equal hex_digit_value) in Hhi, Hlo.
  rewrite !hex_digit_value_digit in Hhi, Hlo
    by first [apply N.mod_lt; lia | apply N.Div0.div_lt_upper_bound; lia].
  injection Hhi as Hhi. injection Hlo as Hlo.
  apply to_N_inj.
  rewrite (N.div_mod (Byte.to_N b) 16), (N.div_mod (Byte.to_N b') 16) by lia.
  rewrite Hhi, Hlo. reflexivity.
Qed.

Lemma canonical_uuid_inj (id id' : list byte) :
  length id = 16%nat -> length id' = 16%nat ->
  canonical_uuid id = canonical_uuid id' -> id = id'.
Proof.
  intros Hlen Hlen'.
  do 16 (destruct id as [| ? id]; [discriminate Hlen |]).
  destruct id; [| discriminate Hlen]. clear Hlen.
  do 16 (destruct id' as [| ? id']; [discriminate Hlen' |]).
  destruct id'; [| discriminate Hlen']. clear Hlen'.
  unfold canonical_uuid. cbn [take drop bytes_hex foldr].
  unfold byte_hex. cbn [String.append]. intros H.
  injection H as ?.
  repeat (f_equal; [apply byte_hex_inj; unfold byte_hex; congruence |]).
  f_equal. apply byte_hex_inj. unfold byte_hex. congruence.
Qed.

Lemma Number_toString_16_inj (n n' : N) :
  Number_toString 16 n = Number_toString 16 n' -> n = n'.
Proof.
  intros H. apply (f_equal hex_value) in H.
  rewrite (proj1 (Number_toString_16_lower_hex n)),
    (proj1 (Number_toString_16_lower_hex n')) in H.
  congruence.
Qed.

Lemma numerals_inj (ns ns' : list N) :
  Number_toString 16 <$> ns = Number_toString 16 <$> ns' -> ns = ns'.
Proof.
  revert ns'; induction ns as [| n ns IH]; intros [| n' ns'] H;
    try discriminate H; [reflexivity |].
  cbn [fmap list_fmap] in H. injection H as Hn Hns.
  f_equal; [apply Number_toString_16_inj, Hn | apply IH, Hns].
Qed.

Lemma numerals_colon_free (ns : list N) :
  Forall (fun p => colon_free p = true) (Number_toString 16 <$> ns).
Proof.
  induction ns as [| n ns IH]; constructor; [| exact IH].
  exact (lower_hex_colon_free _ _ (Number_toString_16_lower_hex n)).
Qed.

Lemma group_inj (hi lo hi' lo' : byte) :
  256 * Byte.to_N hi + Byte.to_N lo = 256 * Byte.to_N hi' + Byte.to_N lo' ->
  hi = hi' /\ lo = lo'.
Proof.
  intros H.
  pose proof (Byte.to_N_bounded lo). pose proof (Byte.to_N_bounded lo').
  split; apply to_N_inj; lia.
Qed.

Lemma groups_inj (bytes bytes' : list byte) :
  length bytes = 16%nat -> length bytes' = 16%nat ->
  groups bytes = groups bytes' -> bytes = bytes'.
Proof.
  intros Hlen Hlen'.
  do 16 (destruct bytes as [| ? bytes]; [discriminate Hlen |]).
  destruct bytes; [| discriminate Hlen]. clear Hlen.
  do 16 (destruct bytes' as [| ? bytes']; [discriminate Hlen' |]).
  destruct bytes'; [| discriminate Hlen']. clear Hlen'.
  cbn [groups]. intros H. injection H as ?.
  repeat match goal with
         | H : 256 * _ + _ = 256 * _ + _ |- _ =>
             apply group_inj in H; destruct H as [-> ->]
         end.
  reflexivity.
Qed.

End injective_texts.

(** X14 — Two different 16-byte ids never share a key: the text
    [bytesToUUID] makes of an id (revisions 1 and 2), and the text the
    inline loop of revision 3 makes of it, determine the sixteen bytes. *)
Theorem id_text_determines_the_id (id id' : list byte) :
  length id = 16%nat -> length id' = 16%nat ->
  (V1.bytesToUUID id = V1.bytesToUUID id' -> id = id')
  /\ (V3.hyphenate (V3.uuid_hex id) = V3.hyphenate (V3.uuid_hex id') -> id = id').
Proof.
  intros Hlen Hlen'. split; intros H.
  - rewrite !bytesToUUID_canonical in H by assumption.
    exact (canonical_uuid_inj id id' Hlen Hlen' H).
  - rewrite !V3_uuid_canonical in H by assumption.
    exact (canonical_uuid_inj id id' Hlen Hlen' H).
Qed.

Lemma id_text_determines_the_id_witness :
  (V1.bytesToUUID Samples.sample_id = V1.bytesToUUID Samples.sample_id ->
   Samples.sample_id = Samples.sample_id)
  /\ (V3.hyphenate (V3.uuid_hex Samples.sample_id)
      = V3.hyphenate (V3.uuid_hex Samples.sample_id) ->
      Samples.sample_id = Samples.sample_id).
Proof.
  exact (id_text_determines_the_id Samples.sample_id Samples.sample_id
           eq_refl eq_refl).
Defined.

(** X15 — The text [bytesToIPv6] makes of a 16-byte address determines
    the address: splitting it at the colons and reading the eight
    hexadecimal numerals gives back the eight groups, hence the sixteen
    bytes. Two different addresses never render alike. *)
Theorem ipv6_text_determines_the_address (bytes bytes' : list byte) :
  length bytes = 16%nat -> length bytes' = 16%nat ->
  mapM Wire.hex_value (Wire.fields (V1.bytesToIPv6 bytes)) = Some (Wire.groups bytes)
  /\ (V1.bytesToIPv6 bytes = V1.bytesToIPv6 bytes' -> bytes = bytes').
Proof.
  intros Hlen Hlen'.
  assert (Hfields : forall bs, length bs = 16%nat ->
            Wire.fields (V1.bytesToIPv6 bs)
            = Js.Number_toString 16 <$> Wire.groups bs).
  { intros bs Hbs. rewrite bytesToIPv6_groups by assumption.
    apply fields_join; [| apply numerals_colon_free].
    pose proof (groups_length bs Hbs) as Hg.
    destruct (Wire.groups bs); [discriminate Hg | discriminate]. }
  split.
  - rewrite Hfields by assumption.
    induction (Wire.groups bytes) as [| n ns IH]; [reflexivity |].
    cbn [fmap list_fmap mapM].
    rewrite (proj1 (Number_toString_16_lower_hex n)). cbn [mbind option_bind].
    rewrite IH. reflexivity.
  - intros H. apply (f_equal Wire.fields) in H.
    rewrite !Hfields in H by assumption.
    apply groups_inj; [assumption | assumption |].
    apply numerals_inj, H.
Qed.

Lemma ipv6_text_determines_the_address_witness :
  mapM Wire.hex_value (Wire.fields (V1.bytesToIPv6 Samples.loopback))
  = Some (Wire.groups Samples.loopback)
  /\ (V1.bytesToIPv6 Samples.loopback = V1.bytesToIPv6 Samples.loopback ->
      Samples.loopback = Samples.loopback).
Proof.
  exact (ipv6_text_determines_the_address Samples.loopback Samples.loopback
           eq_refl eq_refl).
Defined.

(* ===================================================================== *)
(** * The ids the front end generates                                     *)
(* ===================================================================== *)

Section generated_ids.
Import Js Wire.

Lemma Number_toString_16_digit (d : N) :
  d < 16 -> Number_toString 16 d = String (digit_char d) EmptyString.
Proof.
  intros Hd. unfold Number_toString. cbn [to_radix].
  destruct (N.ltb_spec d 16); [reflexivity | lia].
Qed.

Lemma hex_digit_digit_char (d : N) : d < 16 -> hex_digit d = digit_char d.
Proof.
  intros Hd.
  assert (Hcases : d = 0 \/ d = 1 \/ d = 2 \/ d = 3 \/ d = 4 \/ d = 5
                   \/ d = 6 \/ d = 7 \/ d = 8 \/ d = 9 \/ d = 10 \/ d = 11
                   \/ d = 12 \/ d = 13 \/ d = 14 \/ d = 15) by lia.
  repeat (destruct Hcases as [-> | Hcases]; [reflexivity |]).
  subst d; reflexivity.
Qed.

(** The byte with the given high and low nibble. *)
Lemma byte_of_nibbles (hi lo : N) :
  hi < 16 -> lo < 16 ->
  exists b, Byte.to_N b = 16 * hi + lo
            /\ byte_hex b = String (digit_char hi) (String (digit_char lo) EmptyString).
Proof.
  intros Hhi Hlo.
  destruct (Byte.of_N (16 * hi + lo)) as [b |] eqn:E.
  - exists b. pose proof E as Hb. apply Byte.to_of_N in Hb. split; [exact Hb |].
    unfold byte_hex. rewrite Hb.
    replace ((16 * hi + lo) / 16) with hi
      by (apply N.div_unique with lo; lia).
    replace ((16 * hi + lo) mod 16) with lo
      by (apply N.mod_unique with hi; lia).
    rewrite !hex_digit_digit_char by assumption. reflexivity.
  - apply Byte.of_N_None_iff in E. lia.
Qed.

Lemma variant_bounds (r : N) :
  r < 16 -> 8 <= Client.variant r /\ Client.variant r < 12.
Proof.
  intros Hr.
  assert (Hcases : r = 0 \/ r = 1 \/ r = 2 \/ r = 3 \/ r = 4 \/ r = 5
                   \/ r = 6 \/ r = 7 \/ r = 8 \/ r = 9 \/ r = 10 \/ r = 11
                   \/ r = 12 \/ r = 13 \/ r = 14 \/ r = 15) by lia.
  repeat (destruct Hcases as [-> | Hcases];
          [split; [apply N.leb_le | apply N.ltb_lt]; reflexivity |]).
  subst r. split; [apply N.leb_le | apply N.ltb_lt]; reflexivity.
Qed.

End generated_ids.

(** X16 — Whatever [Math.random] returns, the text [generateUUID] makes
    is a key the relay can match: it is the text [bytesToUUID] gives for
    some 16-byte id, and that id is a version-4 UUID (the high nibble of
    byte 6 is 4, the two top bits of byte 8 are 10). *)
Theorem generated_uuid_is_a_version_4_key (random : nat -> N) :
  (forall k, random k < 16) ->
  exists id : list byte,
    length id = 16%nat
    /\ Client.generateUUID random = V1.bytesToUUID id
    /\ Byte.to_N (nth 6 id x00) / 16 = 4
    /\ Byte.to_N (nth 8 id x00) / 64 = 2.
Proof.
  intros Hr.
  pose proof (variant_bounds (random 15%nat) (Hr _)) as [Hv8 Hv12].
  assert (Hv : Client.variant (random 15%nat) < 16) by lia.
  assert (H4 : (4 : N) < 16) by lia.
  destruct (byte_of_nibbles _ _ (Hr 0%nat) (Hr 1%nat)) as (b0 & _ & E0).
  destruct (byte_of_nibbles _ _ (Hr 2%nat) (Hr 3%nat)) as (b1 & _ & E1).
  destruct (byte_of_nibbles _ _ (Hr 4%nat) (Hr 5%nat)) as (b2 & _ & E2).
  destruct (byte_of_nibbles _ _ (Hr 6%nat) (Hr 7%nat)) as (b3 & _ & E3).
  destruct (byte_of_nibbles _ _ (Hr 8%nat) (Hr 9%nat)) as (b4 & _ & E4).
  destruct (byte_of_nibbles _ _ (Hr 10%nat) (Hr 11%nat)) as (b5 & _ & E5).
  destruct (byte_of_nibbles _ _ H4 (Hr 12%nat)) as (b6 & N6 & E6).
  destruct (byte_of_nibbles _ _ (Hr 13%nat) (Hr 14%nat)) as (b7 & _ & E7).
  destruct (byte_of_nibbles _ _ Hv (Hr 16%nat)) as (b8 & N8 & E8).
  destruct (byte_of_nibbles _ _ (Hr 17%nat) (Hr 18%nat)) as (b9 & _ & E9).
  destruct (byte_of_nibbles _ _ (Hr 19%nat) (Hr 20%nat)) as (b10 & _ & E10).
  destruct (byte_of_nibbles _ _ (Hr 21%nat) (Hr 22%nat)) as (b11 & _ & E11).
  destruct (byte_of_nibbles _ _ (Hr 23%nat) (Hr 24%nat)) as (b12 & _ & E12).
  destruct (byte_of_nibbles _ _ (Hr 25%nat) (Hr 26%nat)) as (b13 & _ & E13).
  destruct (byte_of_nibbles _ _ (Hr 27%nat) (Hr 28%nat)) as (b14 & _ & E14).
  destruct (byte_of_nibbles _ _ (Hr 29%nat) (Hr 30%nat)) as (b15 & _ & E15).
  exists [b0; b1; b2; b3; b4; b5; b6; b7; b8; b9; b10; b11; b12; b13; b14; b15].
  split; [reflexivity |]. split; [| split].
  - rewrite bytesToUUID_canonical by reflexivity.
    unfold Wire.canonical_uuid. cbn [take drop Wire.bytes_hex foldr].
    rewrite E0, E1, E2, E3, E4, E5, E6, E7, E8, E9, E10, E11, E12, E13, E14, E15.
    unfold Client.generateUUID. cbn [Client.replace_xy Ascii.eqb Bool.eqb].
    rewrite !Number_toString_16_digit by first [apply Hr | exact Hv].
    reflexivity.
  - cbn [nth]. rewrite N6.
    symmetry. apply N.div_unique with (random 12%nat); [apply Hr | reflexivity].
  - cbn [nth]. rewrite N8. pose proof (Hr 16%nat).
    symmetry.
    apply N.div_unique
      with (16 * (Client.variant (random 15%nat) - 8) + random 16%nat); lia.
Qed.

Lemma generated_uuid_is_a_version_4_key_witness :
  exists id : list byte,
    length id = 16%nat
    /\ Client.generateUUID (fun _ => 7) = V1.bytesToUUID id
    /\ Byte.to_N (nth 6 id x00) / 16 = 4
    /\ Byte.to_N (nth 8 id x00) / 64 = 2.
Proof.
  exact (generated_uuid_is_a_version_4_key (fun _ => 7)
           (fun _ => eq_refl)).
Defined.

(* ===================================================================== *)
(** * Accounts: from the API to the relay                                 *)
(* ===================================================================== *)

Section accounts.
Import Js Rt Wire.
Context {decoder : TextDecoder} {json : Api.JSONQuote}.

Lemma stringify_nonempty (a : Api.Account) : Api.stringify a <> EmptyString.
Proof. unfold Api.stringify. discriminate. Qed.

Lemma get_account_of (uuid : string) (store : gmap string string) :
  uuid <> EmptyString ->
  Api.handleGetAccount (Some uuid) (Some store)
  = if negb (truthy (store !! uuid))
    then {| Api.status := 404;
            Api.payload := Api.Error_ (Reason "Account not found") |}
    else {| Api.status := 200;
            Api.payload := Api.Raw (default "" (store !! uuid)) |}.
Proof. destruct uuid; [congruence | reflexivity]. Qed.

Lemma delete_account_of (uuid : string) (store : gmap string string) :
  uuid <> EmptyString ->
  Api.handleDeleteAccount (inr (Some uuid)) (Some store)
  = ({| Api.status := 200; Api.payload := Api.Deleted |},
     Some (delete uuid store)).
Proof. destruct uuid; [congruence | reflexivity]. Qed.

Lemma canonical_uuid_nonempty (id : list byte) : canonical_uuid id <> EmptyString.
Proof.
  unfold canonical_uuid. destruct (bytes_hex (take 4 id)); discriminate.
Qed.

Lemma encode_id (r : Request) :
  length (id r) = 16%nat -> take 16 (drop 1 (encode r)) = id r.
Proof.
  intros Hid. unfold encode. cbn [app drop]. rewrite drop_0.
  apply take_app_length'. symmetry. exact Hid.
Qed.

End accounts.

(** X17 — An account created through [handleCreateVLESS] can be fetched
    again: the handler answers 200 with the account it built, and
    [handleGetAccount] for the same id then answers 200 with the JSON
    text of exactly that account. Every other id is answered as it was
    before the creation. *)
Theorem created_account_is_fetched {json : Api.JSONQuote}
    (now : string) (body : Api.CreateBody) (store : gmap string string)
    (other : string) :
  Api.body_uuid body <> EmptyString ->
  other <> Api.body_uuid body ->
  exists account,
    fst (Api.handleCreateVLESS now (inr body) (Some store))
    = {| Api.status := 200; Api.payload := Api.Created account |}
    /\ Api.uuid account = Api.body_uuid body
    /\ Api.handleGetAccount (Some (Api.body_uuid body))
         (snd (Api.handleCreateVLESS now (inr body) (Some store)))
       = {| Api.status := 200; Api.payload := Api.Raw (Api.stringify account) |}
    /\ Api.handleGetAccount (Some other)
         (snd (Api.handleCreateVLESS now (inr body) (Some store)))
       = Api.handleGetAccount (Some other) (Some store).
Proof.
  intros Hne Hother. eexists. split; [reflexivity |]. split; [reflexivity |].
  cbn [Api.handleCreateVLESS snd]. split.
  - rewrite get_account_of by exact Hne. rewrite lookup_insert_eq.
    cbn [default].
    destruct (Api.stringify _) eqn:E; [| reflexivity].
    exfalso. exact (stringify_nonempty _ E).
  - destruct other as [| c other]; [reflexivity |].
    rewrite !get_account_of by discriminate.
    rewrite lookup_insert_ne by congruence. reflexivity.
Qed.

Lemma created_account_is_fetched_witness :
  exists account,
    fst (Api.handleCreateVLESS (json := Samples.plain_quote)
           "2024-01-01T00:00:00.000Z" (inr Samples.create_body) (Some ∅))
    = {| Api.status := 200; Api.payload := Api.Created account |}
    /\ Api.uuid account = Api.body_uuid Samples.create_body
    /\ Api.handleGetAccount (Some (Api.body_uuid Samples.create_body))
         (snd (Api.handleCreateVLESS (json := Samples.plain_quote)
                 "2024-01-01T00:00:00.000Z" (inr Samples.create_body) (Some ∅)))
       = {| Api.status := 200;
            Api.payload := Api.Raw (Api.stringify (json := Samples.plain_quote)
                                      account) |}
    /\ Api.handleGetAccount (Some "other")
         (snd (Api.handleCreateVLESS (json := Samples.plain_quote)
                 "2024-01-01T00:00:00.000Z" (inr Samples.create_body) (Some ∅)))
       = Api.handleGetAccount (Some "other") (Some ∅).
Proof.
  exact (created_account_is_fetched (json := Samples.plain_quote)
           "2024-01-01T00:00:00.000Z" Samples.create_body ∅ "other"
           ltac:(discriminate) ltac:(discriminate)).
Defined.

(** X18 — An account created through the API opens the relay to its id:
    once [handleCreateVLESS] has stored a body whose [uuid] is the
    canonical text of a 16-byte id, the revision-1 parser accepts every
    well-formed request carrying that id, with the id, target, port and
    payload the request encodes. *)
Theorem created_account_is_accepted_by_the_relay
    {decoder : Rt.TextDecoder} {json : Api.JSONQuote}
    (now : string) (body : Api.CreateBody) (store : gmap string string)
    (r : Wire.Request) (connect_ok : string -> N -> bool)
    (write_ok : list byte -> bool) :
  Wire.request_wf r ->
  (24 <= length (Wire.encode r))%nat ->
  Api.body_uuid body = Wire.canonical_uuid (Wire.id r) ->
  Rt.result_of
    (V1.parseVLESSHeader (Wire.encode r)
       (Api.world (snd (Api.handleCreateVLESS now (inr body) (Some store)))
                  connect_ok write_ok)) tt
  = inr (Expect.V1_result r).
Proof.
  intros Hwf Hlen Huuid.
  cbn [Api.handleCreateVLESS snd].
  eapply V1_parse_encode;
    [exact Hwf | reflexivity | | apply stringify_nonempty | exact Hlen].
  rewrite Huuid. apply lookup_insert_eq.
Qed.

Lemma created_account_is_accepted_by_the_relay_witness :
  Rt.result_of
    (V1.parseVLESSHeader (decoder := Samples.ascii_decoder)
       (Wire.encode Samples.ipv4_request)
       (Api.world (snd (Api.handleCreateVLESS (json := Samples.plain_quote)
                          "2024-01-01T00:00:00.000Z"
                          (inr Samples.create_body) (Some ∅)))
                  (fun _ _ => true) (fun _ => true))) tt
  = inr (Expect.V1_result (decoder := Samples.ascii_decoder) Samples.ipv4_request).
Proof.
  exact (created_account_is_accepted_by_the_relay
           (decoder := Samples.ascii_decoder) (json := Samples.plain_quote)
           "2024-01-01T00:00:00.000Z" Samples.create_body ∅
           Samples.ipv4_request (fun _ _ => true) (fun _ => true)
           ltac:(repeat split; reflexivity) ltac:(cbn; lia) eq_refl).
Defined.

(** X19 — Deleting an account closes the relay to its id: after
    [handleDeleteAccount] for the canonical text of a 16-byte id (which
    answers 200 whether or not a record existed), [handleGetAccount]
    answers 404 for it, the revision-1 parser refuses every well-formed
    request carrying that id with "Invalid UUID", and every other id is
    answered as before. *)
Theorem deleted_account_is_refused_by_the_relay {decoder : Rt.TextDecoder}
    (store : gmap string string) (r : Wire.Request) (other : string)
    (connect_ok : string -> N -> bool) (write_ok : list byte -> bool) :
  Wire.request_wf r ->
  (24 <= length (Wire.encode r))%nat ->
  other <> Wire.canonical_uuid (Wire.id r) ->
  fst (Api.handleDeleteAccount (inr (Some (Wire.canonical_uuid (Wire.id r))))
         (Some store))
  = {| Api.status := 200; Api.payload := Api.Deleted |}
  /\ Api.handleGetAccount (Some (Wire.canonical_uuid (Wire.id r)))
       (snd (Api.handleDeleteAccount
               (inr (Some (Wire.canonical_uuid (Wire.id r)))) (Some store)))
     = {| Api.status := 404;
          Api.payload := Api.Error_ (Rt.Reason "Account not found") |}
  /\ Rt.result_of
       (V1.parseVLESSHeader (Wire.encode r)
          (Api.world (snd (Api.handleDeleteAccount
                             (inr (Some (Wire.canonical_uuid (Wire.id r))))
                             (Some store)))
                     connect_ok write_ok)) tt
     = inr (V1.Invalid "Invalid UUID")
  /\ Api.handleGetAccount (Some other)
       (snd (Api.handleDeleteAccount
               (inr (Some (Wire.canonical_uuid (Wire.id r)))) (Some store)))
     = Api.handleGetAccount (Some other) (Some store).
Proof.
  intros Hwf Hlen Hother.
  pose proof (canonical_uuid_nonempty (Wire.id r)) as Hne.
  rewrite delete_account_of by exact Hne. cbn [fst snd].
  split; [reflexivity |]. split; [| split].
  - rewrite get_account_of by exact Hne. rewrite lookup_delete_eq. reflexivity.
  - destruct (V1_unknown_id_invalid (Wire.encode r)
                (Api.world (Some (delete (Wire.canonical_uuid (Wire.id r)) store))
                           connect_ok write_ok)
                (delete (Wire.canonical_uuid (Wire.id r)) store) eq_refl)
      as (error & Hres & Herr).
    + rewrite encode_id by apply Hwf.
      rewrite bytesToUUID_canonical by apply Hwf.
      rewrite lookup_delete_eq. reflexivity.
    + rewrite Hres, (Herr Hlen eq_refl). reflexivity.
  - destruct other as [| c other]; [reflexivity |].
    rewrite !get_account_of by discriminate.
    rewrite lookup_delete_ne by congruence. reflexivity.
Qed.

Lemma deleted_account_is_refused_by_the_relay_witness :
  fst (Api.handleDeleteAccount
         (inr (Some (Wire.canonical_uuid (Wire.id Samples.ipv4_request))))
         (Some Samples.known_store))
  = {| Api.status := 200; Api.payload := Api.Deleted |}
  /\ Api.handleGetAccount
       (Some (Wire.canonical_uuid (Wire.id Samples.ipv4_request)))
       (snd (Api.handleDeleteAccount
               (inr (Some (Wire.canonical_uuid (Wire.id Samples.ipv4_request))))
               (Some Samples.known_store)))
     = {| Api.status := 404;
          Api.payload := Api.Error_ (Rt.Reason "Account not found") |}
  /\ Rt.result_of
       (V1.parseVLESSHeader (decoder := Samples.ascii_decoder)
          (Wire.encode Samples.ipv4_request)
          (Api.world (snd (Api.handleDeleteAccount
                             (inr (Some (Wire.canonical_uuid
                                           (Wire.id Samples.ipv4_request))))
                             (Some Samples.known_store)))
                     (fun _ _ => true) (fun _ => true))) tt
     = inr (V1.Invalid "Invalid UUID")
  /\ Api.handleGetAccount (Some "other")
       (snd (Api.handleDeleteAccount
               (inr (Some (Wire.canonical_uuid (Wire.id Samples.ipv4_request))))
               (Some Samples.known_store)))
     = Api.handleGetAccount (Some "other") (Some Samples.known_store).
Proof.
  exact (deleted_account_is_refused_by_the_relay
           (decoder := Samples.ascii_decoder)
           Samples.known_store Samples.ipv4_request "other"
           (fun _ _ => true) (fun _ => true)
           ltac:(repeat split; reflexivity) ltac:(cbn; lia)
           ltac:(discriminate)).
Defined.

(* ===================================================================== *)
(** * Revision 2: the download direction                                  *)
(* ===================================================================== *)

Section download.
Import Js Rt.

Lemma V2_download_chunks (chunks : list (list byte)) (tail : list V1.ReadResult)
    (st : V2.Session) :
  V2.ws_open st = true ->
  V2.download_loop ((V1.Chunk <$> chunks) ++ tail) st
  = let '(t, st', r) := V2.download_loop tail st in
    (((WsSend <$> chunks) ++ t)%list, st', r).
Proof.
  intros Hopen. induction chunks as [| value chunks IH].
  - cbn [fmap list_fmap app].
    destruct (V2.download_loop tail st) as [[t st'] r]. reflexivity.
  - cbn [fmap list_fmap app V2.download_loop].
    rewrite run_bind. cbn [get_state]. rewrite Hopen, run_emit, IH.
    destruct (V2.download_loop tail st) as [[t st'] r]. reflexivity.
Qed.

Lemma V2_download_closed (reads : list V1.ReadResult) (st : V2.Session) :
  V2.ws_open st = false ->
  V2.remoteToWebSocket reads st = ([], st, inr tt).
Proof.
  intros Hclosed. destruct st as [remote parsed open].
  cbn [V2.ws_open] in Hclosed. subst open.
  destruct reads as [| [value | |] reads]; reflexivity.
Qed.

End download.

(** X20 — The download loop of revision 2 passes on what the remote
    sends, in order and unchanged: while the client transport is open,
    the chunks read before the end of the stream (or before a failed
    read) are each sent to the client, and then the transport is closed
    once, with code 1000 and an empty reason. While more reads are
    pending nothing is closed, and on a transport that is no longer open
    nothing is sent or closed. *)
Theorem V2_download_delivers_in_order (chunks : list (list byte))
    (last : V1.ReadResult) (rest : list V1.ReadResult) (st : V2.Session) :
  match last with V1.Chunk _ => False | _ => True end ->
  (V2.ws_open st = true ->
   Rt.events_of (V2.remoteToWebSocket ((V1.Chunk <$> chunks) ++ last :: rest)) st
   = ((Rt.WsSend <$> chunks) ++ [Rt.WsClose (Some 1000) (Rt.Reason "")])%list
   /\ V2.ws_open
        (Rt.state_of (V2.remoteToWebSocket ((V1.Chunk <$> chunks) ++ last :: rest))
           st) = false
   /\ Rt.events_of (V2.remoteToWebSocket (V1.Chunk <$> chunks)) st
      = Rt.WsSend <$> chunks)
  /\ (V2.ws_open st = false ->
      Rt.events_of (V2.remoteToWebSocket ((V1.Chunk <$> chunks) ++ last :: rest)) st
      = []).
Proof.
  intros Hlast. split.
  - intros Hopen.
    pose proof (V2_download_chunks chunks (last :: rest) st Hopen) as Hrun.
    pose proof (V2_download_chunks chunks [] st Hopen) as Hpending.
    rewrite app_nil_r in Hpending. cbn [V2.download_loop] in Hpending.
    unfold Rt.events_of, Rt.state_of, V2.remoteToWebSocket, V2.safeClose,
      Rt.try_catch.
    rewrite !run_bind.
    rewrite Hrun, Hpending.
    destruct st as [remote parsed open]. cbn [V2.ws_open] in Hopen. subst open.
    destruct last as [value | |]; [destruct Hlast | |];
      cbn; rewrite ?app_nil_r; repeat split; reflexivity.
  - intros Hclosed. unfold Rt.events_of.
    rewrite V2_download_closed by exact Hclosed. reflexivity.
Qed.

Lemma V2_download_delivers_in_order_witness :
  (V2.ws_open V2.initial = true ->
   Rt.events_of (V2.remoteToWebSocket
                   ((V1.Chunk <$> [[x61]; [x62; x63]]) ++ V1.Done :: []))
                V2.initial
   = ((Rt.WsSend <$> [[x61]; [x62; x63]])
      ++ [Rt.WsClose (Some 1000) (Rt.Reason "")])%list
   /\ V2.ws_open
        (Rt.state_of (V2.remoteToWebSocket
                        ((V1.Chunk <$> [[x61]; [x62; x63]]) ++ V1.Done :: []))
           V2.initial) = false
   /\ Rt.events_of (V2.remoteToWebSocket (V1.Chunk <$> [[x61]; [x62; x63]]))
        V2.initial
      = Rt.WsSend <$> [[x61]; [x62; x63]])
  /\ (V2.ws_open V2.initial = false ->
      Rt.events_of (V2.remoteToWebSocket
                      ((V1.Chunk <$> [[x61]; [x62; x63]]) ++ V1.Done :: []))
                   V2.initial
      = []).
Proof.
  exact (V2_download_delivers_in_order [[x61]; [x62; x63]] V1.Done []
           V2.initial I).
Defined.

(* ===================================================================== *)
(** * Revisions 1 and 2 read a header alike                               *)
(* ===================================================================== *)

Section parsers_agree.
Import Js Rt.
Context {decoder : TextDecoder}.

(** Reading through a 16-byte slice is reading at the offset, also past
    the end of the buffer and at [NaN]. *)
Lemma get_slice16 (buf : list byte) (off : number) (i : N) :
  i < 16 ->
  get (Js.slice buf off (add off (Int 16))) (Int i) = get buf (add off (Int i)).
Proof.
  intros Hi. destruct off as [o |]; [| reflexivity].
  cbn [add]. unfold Js.slice, get. cbn [ToIntegerOrInfinity]. f_equal.
  destruct (Nat.lt_ge_cases (N.to_nat (o + i)) (length buf)) as [Hin | Hout].
  - rewrite lookup_take_lt by lia. rewrite lookup_drop. f_equal. lia.
  - rewrite (lookup_ge_None_2 buf) by lia.
    apply lookup_ge_None_2. rewrite length_take, length_drop. lia.
Qed.

(** X21 — Revisions 1 and 2 read a header alike. For every frame whose
    id has a record, well-formed or not, truncated or not, the two
    parsers either both refuse it or both accept it with the same id
    text, the same target address, the same port and the same payload. *)
Theorem revisions_1_and_2_read_headers_alike (buf : list byte) (env : World)
    (store : gmap string string) :
  kv env = Some store ->
  truthy (store !! V1.bytesToUUID (take 16 (drop 1 buf))) = true ->
  exists r1 r2,
    result_of (V1.parseVLESSHeader buf env) tt = inr r1
    /\ result_of (V2.parseVLESSHeader buf env) tt = inr r2
    /\ Expect.same_header r1 r2.
Proof.
  intros Hkv Hacc. unfold V1.parseVLESSHeader, V2.parseVLESSHeader.
  rewrite result_of_try_catch_ret.
  destruct (N.ltb_spec (byteLength buf) 24) as [_ | Hge];
    [do 2 eexists; repeat split |].
  unfold byteLength in Hge.
  rewrite !result_of_read.
  destruct (strict_eq (get buf (Int 0)) 0); cbn [negb];
    [| do 2 eexists; repeat split].
  cbn [add]. rewrite !result_of_slice, slice_id by lia.
  rewrite (result_of_kv_get env store) by assumption.
  rewrite Hacc. cbn [negb].
  match goal with
  | |- context [result_of ((if bool_decide _ then _ else _) ≫= ?k) tt] =>
      destruct (V2_validity_step env
                  (V2.bytesToUUID (take 16 (drop 1 buf))) k tt)
        as (v & Hv & ->)
  end.
  rewrite Hv. cbn [negb].
  rewrite !result_of_read.
  match goal with
  | |- context [negb (strict_eq ?c 1)] => destruct (strict_eq c 1)
  end; cbn [negb]; [| do 2 eexists; repeat split].
  rewrite !result_of_read.
  match goal with
  | |- context [if strict_eq ?t 1 then _ else _] =>
      destruct (strict_eq t 1);
        [| destruct (strict_eq t 2); [| destruct (strict_eq t 3)]]
  end.
  - rewrite !result_of_read. unfold slice_from.
    rewrite !result_of_slice, !result_of_ret.
    do 2 eexists. repeat split.
  - rewrite !result_of_read, !result_of_slice. unfold slice_from.
    rewrite !result_of_slice, !result_of_ret.
    do 2 eexists. repeat split.
  - rewrite result_of_slice.
    change V1.even_indices with [0; 2; 4; 6; 8; 10; 12; 14].
    cbn [mapM].
    repeat first [rewrite result_of_bind_assoc
                 | rewrite result_of_read
                 | rewrite result_of_bind_ret].
    unfold slice_from. rewrite !result_of_slice, !result_of_ret.
    do 2 eexists. split; [reflexivity |]. split; [reflexivity |].
    cbn [Expect.same_header V1.uuid V1.address V1.port].
    repeat split.
    unfold V1.bytesToIPv6.
    change V1.even_indices with [0; 2; 4; 6; 8; 10; 12; 14].
    cbn [fmap list_fmap].
    rewrite !get_slice16 by reflexivity.
    reflexivity.
  - do 2 eexists. repeat split.
Qed.

End parsers_agree.

Lemma revisions_1_and_2_read_headers_alike_witness :
  exists r1 r2,
    Rt.result_of (V1.parseVLESSHeader (decoder := Samples.ascii_decoder)
                    Samples.truncated_ipv4_frame Samples.known) tt = inr r1
    /\ Rt.result_of (V2.parseVLESSHeader (decoder := Samples.ascii_decoder)
                       Samples.truncated_ipv4_frame Samples.known) tt = inr r2
    /\ Expect.same_header r1 r2.
Proof.
  exact (revisions_1_and_2_read_headers_alike (decoder := Samples.ascii_decoder)
           Samples.truncated_ipv4_frame Samples.known Samples.known_store
           eq_refl eq_refl).
Defined.

(* ===================================================================== *)
(** * Well-formed requests are read inside the frame                      *)
(* ===================================================================== *)

Section reads_of_encoded_requests.
Import Js Rt Wire.
Context {decoder : TextDecoder}.

Lemma events_of_ret {St A} (a : A) (s : St) : events_of (mret a : M St A) s = [].
Proof. reflexivity. Qed.

Lemma encode_length (r : Request) :
  length (encode r)
  = (5 + length (id r) + length (addons r)
     + length (address_bytes (target r)) + length (payload r))%nat.
Proof.
  unfold encode. repeat (rewrite length_app; cbn [length]). lia.
Qed.

Ltac lens :=
  repeat rewrite ?length_app, ?length_cons; cbn [length]; lia.

Ltac eval_get :=
  repeat match goal with
         | |- context [get (?x :: ?l) (Int ?k)] =>
             let v := eval cbv -[Byte.to_N payload] in (get (x :: l) (Int k)) in
             change (get (x :: l) (Int k)) with v
         end.

Lemma V1_reads_encoded_inside (r : Request) (env : World)
    (store : gmap string string) (account : string) :
  request_wf r ->
  kv env = Some store ->
  store !! canonical_uuid (id r) = Some account ->
  account <> EmptyString ->
  (24 <= length (encode r))%nat ->
  Forall (fun ev => in_bounds (length (encode r)) ev = true)
         (events_of (V1.parseVLESSHeader (encode r) env) tt).
Proof.
  intros (Hid & Halen & Hawf) Hkv Hacc Hne Hlen.
  pose proof (encode_length r) as Hsize.
  unfold V1.parseVLESSHeader.
  destruct (N.ltb_spec (byteLength (encode r)) 24) as [Hshort | _];
    [unfold byteLength in Hshort; lia |].
  cbn [add ToNumber].
  set (tail := (address_bytes (target r) ++ payload r)%list).
  assert (Hget : forall pre x post n,
             encode r = (pre ++ x :: post)%list -> N.of_nat (length pre) = n ->
             get (encode r) (Int n) = Some (Byte.to_N x))
    by (intros; eapply get_at; eassumption).
  assert (Hin : forall n, (N.to_nat n < length (encode r))%nat ->
             in_bounds (length (encode r)) (BufRead (Int n)) = true)
    by (intros n Hn; cbn [in_bounds]; apply Nat.ltb_lt, Hn).
  rewrite events_of_read_bind. constructor; [apply Hin; lia |].
  rewrite (Hget [] x00 (id r ++ [addonLen r] ++ addons r ++ [x01]
                        ++ [port_hi r; port_lo r] ++ tail)%list)
    by reflexivity.
  cbn [strict_eq N.eqb negb Byte.to_N].
  rewrite events_of_slice_bind. constructor; [reflexivity |].
  rewrite (slice_at (encode r) [x00] (id r)
             ([addonLen r] ++ addons r ++ [x01] ++ [port_hi r; port_lo r] ++ tail)%list)
    by first [reflexivity | lens].
  rewrite bytesToUUID_canonical by assumption.
  rewrite (events_of_kv_get_bind env store) by assumption.
  constructor; [reflexivity |].
  rewrite Hacc.
  replace (truthy (Some account)) with true
    by (destruct account; [congruence | reflexivity]).
  cbn [negb].
  rewrite events_of_read_bind. constructor; [apply Hin; lia |].
  rewrite (Hget ([x00] ++ id r)%list (addonLen r)
             (addons r ++ [x01] ++ [port_hi r; port_lo r] ++ tail)%list)
    by first [unfold encode; rewrite <- ?app_assoc; reflexivity | lens].
  cbn [add ToNumber].
  rewrite events_of_read_bind. constructor; [apply Hin; lia |].
  rewrite (Hget ([x00] ++ id r ++ [addonLen r] ++ addons r)%list x01
             ([port_hi r; port_lo r] ++ tail)%list)
    by first [unfold encode; rewrite <- ?app_assoc; reflexivity | lens].
  cbn [strict_eq N.eqb negb Byte.to_N Pos.eqb].
  rewrite events_of_read_bind. constructor; [apply Hin; lia |].
  rewrite events_of_read_bind. constructor; [apply Hin; lia |].
  rewrite events_of_read_bind.
  assert (Htype : (1 <= length (address_bytes (target r)))%nat)
    by (destruct (target r); cbn [address_bytes length]; lia).
  constructor; [apply Hin; lia |].
  set (head := ([x00] ++ id r ++ [addonLen r] ++ addons r ++ [x01]
                ++ [port_hi r; port_lo r])%list).
  assert (Hsplit : encode r = (head ++ tail)%list)
    by (unfold encode, head; rewrite <- ?app_assoc; reflexivity).
  assert (Hhead : N.of_nat (length head) = 21 + Byte.to_N (addonLen r))
    by (unfold head; lens).
  assert (Htail : forall n k, 21 + Byte.to_N (addonLen r) + k = n ->
             get (encode r) (Int n) = get tail (Int k))
    by (intros n k <-; rewrite Hsplit; apply get_skip; lia).
  rewrite (Htail _ 0) by lia.
  destruct (target r) as [a b c d | len name | bytes] eqn:Htarget;
    cbn [address_wf] in Hawf; subst tail;
    cbn [address_bytes address_type address_text length] in *.
  - cbn [app]. eval_get. cbn [strict_eq Byte.to_N N.eqb Pos.eqb].
    do 4 (rewrite events_of_read_bind; constructor; [apply Hin; lia |]).
    unfold slice_from. rewrite events_of_slice_bind.
    constructor; [reflexivity |]. constructor.
  - cbn [app]. eval_get. cbn [strict_eq Byte.to_N N.eqb Pos.eqb].
    rewrite events_of_read_bind; constructor; [apply Hin; lia |].
    rewrite events_of_slice_bind. constructor; [reflexivity |].
    unfold slice_from. rewrite events_of_slice_bind.
    constructor; [reflexivity |]. constructor.
  - cbn [app]. eval_get. cbn [strict_eq Byte.to_N N.eqb Pos.eqb].
    rewrite events_of_slice_bind. constructor; [reflexivity |].
    unfold slice_from. rewrite events_of_slice_bind.
    constructor; [reflexivity |]. constructor.
Qed.

Lemma events_of_try_catch_ret {St A} (body : M St A) (f : exn -> A) (s : St) :
  events_of (try_catch body (fun e => mret (f e))) s = events_of body s.
Proof.
  unfold events_of, try_catch.
  destruct (body s) as [[t s'] [e | a]]; cbn; [apply app_nil_r | reflexivity].
Qed.

Lemma events_of_bind_assoc {St A B C} (m : M St A) (f : A -> M St B)
    (g : B -> M St C) (s : St) :
  events_of ((m ≫= f) ≫= g) s = events_of (m ≫= (fun x => f x ≫= g)) s.
Proof.
  unfold events_of. rewrite !run_bind.
  destruct (m s) as [[t s1] [e | a]]; [reflexivity |].
  rewrite run_bind.
  destruct (f a s1) as [[t' s2] [e | b]]; [reflexivity |].
  destruct (g b s2) as [[t'' s3] rr]. cbn. rewrite app_assoc. reflexivity.
Qed.

Lemma events_of_bind_ret {St A B} (a : A) (k : A -> M St B) (s : St) :
  events_of (mret a ≫= k) s = events_of (k a) s.
Proof. unfold events_of. rewrite run_ret. reflexivity. Qed.

Lemma V2_validity_events {B} (env : World) (uuid : string)
    (k : V2.Validity -> M unit B) (len : nat) :
  exists v pre,
    V2.ToBoolean v = true
    /\ Forall (fun ev => in_bounds len ev = true) pre
    /\ events_of ((if bool_decide (kv env ≠ None) then V2.validateUUID uuid env
                   else mret V2.True_) ≫= k) tt
       = (pre ++ events_of (k v) tt)%list.
Proof.
  destruct (kv env) as [store |] eqn:Hkv.
  - exists (V2.Promise (bool_decide (store !! uuid ≠ None))), [KVGet uuid].
    split; [reflexivity |]. split; [repeat constructor |].
    rewrite bool_decide_true by discriminate.
    unfold events_of, V2.validateUUID, try_catch, kv_get. rewrite Hkv.
    rewrite run_bind, run_bind, run_emit. cbn.
    destruct (k _ tt) as [[t s'] r]. reflexivity.
  - exists V2.True_, []. split; [reflexivity |]. split; [constructor |].
    rewrite bool_decide_false by (intros Hc; apply Hc; reflexivity).
    apply events_of_bind_ret.
Qed.

Lemma V2_reads_encoded_inside (r : Request) (env : World) :
  request_wf r ->
  (24 <= length (encode r))%nat ->
  Forall (fun ev => in_bounds (length (encode r)) ev = true)
         (events_of (V2.parseVLESSHeader (encode r) env) tt).
Proof.
  intros (Hid & Halen & Hawf) Hlen.
  pose proof (encode_length r) as Hsize.
  unfold V2.parseVLESSHeader. rewrite events_of_try_catch_ret.
  destruct (N.ltb_spec (byteLength (encode r)) 24) as [Hshort | _];
    [unfold byteLength in Hshort; lia |].
  cbn [add ToNumber].
  set (tail := (address_bytes (target r) ++ payload r)%list).
  assert (Hget : forall pre x post n,
             encode r = (pre ++ x :: post)%list -> N.of_nat (length pre) = n ->
             get (encode r) (Int n) = Some (Byte.to_N x))
    by (intros; eapply get_at; eassumption).
  assert (Hin : forall n, (N.to_nat n < length (encode r))%nat ->
             in_bounds (length (encode r)) (BufRead (Int n)) = true)
    by (intros n Hn; cbn [in_bounds]; apply Nat.ltb_lt, Hn).
  rewrite events_of_read_bind. constructor; [apply Hin; lia |].
  rewrite (Hget [] x00 (id r ++ [addonLen r] ++ addons r ++ [x01]
                        ++ [port_hi r; port_lo r] ++ tail)%list)
    by reflexivity.
  cbn [strict_eq N.eqb negb Byte.to_N].
  rewrite events_of_slice_bind. constructor; [reflexivity |].
  match goal with
  | |- Forall _ (events_of (_ ≫= ?k) tt) =>
      destruct (V2_validity_events env
                  (V2.bytesToUUID (Js.slice (encode r) (Int (0 + 1)) (Int (0 + 1 + 16))))
                  k (length (encode r)))
        as (v & pre & Hv & Hpre & ->)
  end.
  apply Forall_app. split; [exact Hpre |].
  rewrite Hv. cbn [negb].
  rewrite events_of_read_bind. constructor; [apply Hin; lia |].
  rewrite (Hget ([x00] ++ id r)%list (addonLen r)
             (addons r ++ [x01] ++ [port_hi r; port_lo r] ++ tail)%list)
    by first [unfold encode; rewrite <- ?app_assoc; reflexivity | lens].
  cbn [add ToNumber].
  rewrite events_of_read_bind. constructor; [apply Hin; lia |].
  rewrite (Hget ([x00] ++ id r ++ [addonLen r] ++ addons r)%list x01
             ([port_hi r; port_lo r] ++ tail)%list)
    by first [unfold encode; rewrite <- ?app_assoc; reflexivity | lens].
  cbn [strict_eq N.eqb negb Byte.to_N Pos.eqb].
  rewrite events_of_read_bind. constructor; [apply Hin; lia |].
  rewrite events_of_read_bind. constructor; [apply Hin; lia |].
  rewrite events_of_read_bind.
  assert (Htype : (1 <= length (address_bytes (target r)))%nat)
    by (destruct (target r); cbn [address_bytes length]; lia).
  constructor; [apply Hin; lia |].
  set (head := ([x00] ++ id r ++ [addonLen r] ++ addons r ++ [x01]
                ++ [port_hi r; port_lo r])%list).
  assert (Hsplit : encode r = (head ++ tail)%list)
    by (unfold encode, head; rewrite <- ?app_assoc; reflexivity).
  assert (Hhead : N.of_nat (length head) = 21 + Byte.to_N (addonLen r))
    by (unfold head; lens).
  assert (Htail : forall n k, 21 + Byte.to_N (addonLen r) + k = n ->
             get (encode r) (Int n) = get tail (Int k))
    by (intros n k <-; rewrite Hsplit; apply get_skip; lia).
  rewrite (Htail _ 0) by lia.
  destruct (target r) as [a b c d | len name | bytes] eqn:Htarget;
    cbn [address_wf] in Hawf; subst tail;
    cbn [address_bytes address_type address_text length] in *.
  - cbn [app]. eval_get. cbn [strict_eq Byte.to_N N.eqb Pos.eqb].
    do 4 (rewrite events_of_read_bind; constructor; [apply Hin; lia |]).
    unfold slice_from. rewrite events_of_slice_bind.
    constructor; [reflexivity |]. constructor.
  - cbn [app]. eval_get. cbn [strict_eq Byte.to_N N.eqb Pos.eqb].
    rewrite events_of_read_bind; constructor; [apply Hin; lia |].
    rewrite events_of_slice_bind. constructor; [reflexivity |].
    unfold slice_from. rewrite events_of_slice_bind.
    constructor; [reflexivity |]. constructor.
  - cbn [app]. eval_get. cbn [strict_eq Byte.to_N N.eqb Pos.eqb].
    change V1.even_indices with [0; 2; 4; 6; 8; 10; 12; 14].
    cbn [mapM add].
    repeat first [ rewrite events_of_bind_assoc
                 | rewrite events_of_read_bind; constructor; [apply Hin; lia |]
                 | rewrite events_of_bind_ret ].
    unfold slice_from. rewrite events_of_slice_bind.
    constructor; [reflexivity |]. constructor.
Qed.

End reads_of_encoded_requests.

(** X22 — On a well-formed request of at least 24 bytes, revisions 1 and
    2 read only inside the frame: every index they read is below the
    length of the frame, whatever the target kind, the add-ons and the
    payload. *)
Theorem well_formed_requests_are_read_inside_the_frame
    {decoder : Rt.TextDecoder} (r : Wire.Request) (env : Rt.World)
    (store : gmap string string) (account : string) :
  Wire.request_wf r ->
  Rt.kv env = Some store ->
  store !! Wire.canonical_uuid (Wire.id r) = Some account ->
  account <> EmptyString ->
  (24 <= length (Wire.encode r))%nat ->
  Forall (fun ev => Rt.in_bounds (length (Wire.encode r)) ev = true)
         (Rt.events_of (V1.parseVLESSHeader (Wire.encode r) env) tt)
  /\ Forall (fun ev => Rt.in_bounds (length (Wire.encode r)) ev = true)
            (Rt.events_of (V2.parseVLESSHeader (Wire.encode r) env) tt).
Proof.
  intros Hwf Hkv Hacc Hne Hlen. split.
  - exact (V1_reads_encoded_inside r env store account Hwf Hkv Hacc Hne Hlen).
  - exact (V2_reads_encoded_inside r env Hwf Hlen).
Qed.

Lemma well_formed_requests_are_read_inside_the_frame_witness :
  Forall (fun ev => Rt.in_bounds (length (Wire.encode Samples.ipv6_request)) ev
                    = true)
         (Rt.events_of (V1.parseVLESSHeader (decoder := Samples.ascii_decoder)
                          (Wire.encode Samples.ipv6_request) Samples.known) tt)
  /\ Forall (fun ev => Rt.in_bounds (length (Wire.encode Samples.ipv6_request)) ev
                       = true)
            (Rt.events_of (V2.parseVLESSHeader (decoder := Samples.ascii_decoder)
                             (Wire.encode Samples.ipv6_request) Samples.known) tt).
Proof.
  exact (well_formed_requests_are_read_inside_the_frame
           (decoder := Samples.ascii_decoder)
           Samples.ipv6_request Samples.known Samples.known_store "{}"
           ltac:(repeat split; reflexivity) eq_refl ltac:(vm_compute; reflexivity)
           ltac:(discriminate) ltac:(cbn; lia)).
Defined.

(** X23 — The parser of revision 3 never reads outside the buffer it is
    given: every byte it reads and every view it takes lies inside the
    buffer, however short or malformed the buffer is. An access that
    would not is a [RangeError] instead of a read. *)
Theorem V3_parser_reads_inside_the_buffer {decoder : Rt.TextDecoder}
    (buf : list byte) :
  Forall (fun ev => Rt.in_bounds (length buf) ev = true)
         (Rt.events_of (V3.parseVLESSHeader buf) tt).
Proof.
  exact (V3_parse_in_bounds buf tt).
Qed.

(** X24 — An API request that is not answered with 200 changes nothing:
    whenever [handleCreateVLESS] or [handleDeleteAccount] answers with
    another status (the body could not be read, the id is missing or
    empty, the namespace is not bound), the namespace is left exactly as
    it was. *)
Theorem refused_api_requests_change_nothing {json : Api.JSONQuote}
    (now : string) (create : Api.Parsed Api.CreateBody)
    (delete_ : Api.Parsed (option string)) (env : Api.Namespace) :
  (Api.status (fst (Api.handleCreateVLESS now create env)) = 200
   \/ snd (Api.handleCreateVLESS now create env) = env)
  /\ (Api.status (fst (Api.handleDeleteAccount delete_ env)) = 200
      \/ snd (Api.handleDeleteAccount delete_ env) = env).
Proof.
  split.
  - destruct create as [e | body], env as [store |]; cbn; auto.
  - destruct delete_ as [e | [[| c uuid] |]], env as [store |]; cbn; auto.
Qed.
